(** * Funding-rate monitor and hedge controls: a shallow embedding

    The development follows the two JavaScript sources of the repository:

    - the funding-rate monitor ([FundingRateMonitor], [BinanceAdapter]);
    - the hedge control widget ([HedgeControls], [BinanceHedgeAdapter]).

    Both files configure decimal.js with
    [Decimal.set({ precision: 8, rounding: Decimal.ROUND_DOWN })]; the
    module [Decimal] below models the values and the operations of that
    library that the sources use.  Objects used as dictionaries are
    finite maps, asynchronous methods are functions returning the list of
    adapter calls and events they perform together with a result, and a
    rejected promise or a thrown exception is the [Throw] result. *)

From Stdlib Require Import ZArith QArith Qround Qabs Qpower Lia Lqa.
From stdpp Require Import gmap strings list.

Local Open Scope Z_scope.

(** ** JavaScript results *)

Inductive JsError : Type :=
| TypeError                     (* property access on undefined *)
| DecimalError                  (* decimal.js: Invalid argument *)
| Error (msg : string)          (* new Error(msg) *)
| Wrapped (prefix : string) (cause : JsError).
                                (* new Error(prefix + cause.message) *)

Inductive result (A : Type) : Type :=
| Ok (a : A)
| Throw (e : JsError).
Arguments Ok {A} a.
Arguments Throw {A} e.

Definition is_ok {A} (r : result A) : bool :=
  match r with Ok _ => true | Throw _ => false end.

(** ** decimal.js, precision 8, ROUND_DOWN *)

Module Decimal.

(** A Decimal is NaN, an infinity or a finite number.  Finite numbers
    are kept as reduced rationals; the sign of zero, which decimal.js
    tracks, is not modelled. *)
Inductive t : Type :=
| NaN
| Inf (negative : bool)
| Fin (q : Q).

Definition precision : Z := 8.

Definition of_Z (n : Z) : t := Fin (inject_Z n).

(** [dec n e] is the literal n * 10^(-e), as in [new Decimal('0.0005')]
    = [dec 5 4]. The constructor does not round. *)
Definition dec (n : Z) (e : Z) : t := Fin (Qred (inject_Z n / inject_Z (10 ^ e))).

Fixpoint ndigits_fuel (fuel : nat) (n : Z) : Z :=
  match fuel with
  | O => 0
  | S f => if n <? 10 then 1 else 1 + ndigits_fuel f (n / 10)
  end.

(** Number of decimal digits of a positive integer. *)
Definition ndigits (n : Z) : Z := ndigits_fuel (S (Z.to_nat (Z.log2 n))) n.

(** Decimal exponent of a non-zero rational: floor (log10 |q|). *)
Definition exponent (q : Q) : Z :=
  let e0 := ndigits (Z.abs (Qnum q)) - ndigits (Zpos (Qden q)) in
  if Qle_bool (Qpower 10 e0) (Qabs q) then e0 else e0 - 1.

(** Rounding toward zero (ROUND_DOWN) to an integer. *)
Definition Qtrunc (q : Q) : Z := Z.quot (Qnum q) (Zpos (Qden q)).

(** Keep [dp] digits after the decimal point. *)
Definition round_dp (dp : Z) (q : Q) : Q :=
  let s := Qpower 10 dp in
  Qred (inject_Z (Qtrunc (q * s)) / s).

(** Keep [sd] significant digits. *)
Definition round_sd (sd : Z) (q : Q) : Q :=
  if Qeq_bool q 0 then 0%Q else round_dp (sd - 1 - exponent q) q.

(** [finalise(x, Ctor.precision, Ctor.rounding)]: what every arithmetic
    operation applies to its exact result. *)
Definition finalise (q : Q) : Q := round_sd precision q.

Definition is_neg (q : Q) : bool := negb (Qle_bool 0 q).
Definition is_zero (q : Q) : bool := Qeq_bool q 0.

(** [x.cmp(y)]: NaN when either is NaN. *)
Definition cmp (x y : t) : option comparison :=
  match x, y with
  | NaN, _ | _, NaN => None
  | Inf nx, Inf ny =>
      Some (if Bool.eqb nx ny then Eq else if nx then Lt else Gt)
  | Inf nx, Fin _ => Some (if nx then Lt else Gt)
  | Fin _, Inf ny => Some (if ny then Gt else Lt)
  | Fin a, Fin b => Some (a ?= b)%Q
  end.

Definition gt (x y : t) : bool :=
  match cmp x y with Some Gt => true | _ => false end.
Definition lt (x y : t) : bool :=
  match cmp x y with Some Lt => true | _ => false end.
Definition lte (x y : t) : bool :=
  match cmp x y with Some Lt | Some Eq => true | _ => false end.
Definition gte (x y : t) : bool :=
  match cmp x y with Some Gt | Some Eq => true | _ => false end.
Definition eq (x y : t) : bool :=
  match cmp x y with Some Eq => true | _ => false end.

Definition abs (x : t) : t :=
  match x with
  | NaN => NaN
  | Inf _ => Inf false
  | Fin q => Fin (Qred (Qabs q))
  end.

Definition neg (x : t) : t :=
  match x with
  | NaN => NaN
  | Inf n => Inf (negb n)
  | Fin q => Fin (Qred (- q))
  end.

Definition add (x y : t) : t :=
  match x, y with
  | NaN, _ | _, NaN => NaN
  | Inf nx, Inf ny => if Bool.eqb nx ny then Inf nx else NaN
  | Inf nx, Fin _ => Inf nx
  | Fin _, Inf ny => Inf ny
  | Fin a, Fin b => Fin (finalise (a + b))
  end.

Definition sub (x y : t) : t :=
  match x, y with
  | NaN, _ | _, NaN => NaN
  | Inf nx, Inf ny => if Bool.eqb nx ny then NaN else Inf nx
  | Inf nx, Fin _ => Inf nx
  | Fin _, Inf ny => Inf (negb ny)
  | Fin a, Fin b => Fin (finalise (a - b))
  end.

Definition mul (x y : t) : t :=
  match x, y with
  | NaN, _ | _, NaN => NaN
  | Inf nx, Inf ny => Inf (xorb nx ny)
  | Inf nx, Fin b => if is_zero b then NaN else Inf (xorb nx (is_neg b))
  | Fin a, Inf ny => if is_zero a then NaN else Inf (xorb (is_neg a) ny)
  | Fin a, Fin b => Fin (finalise (a * b))
  end.

Definition div (x y : t) : t :=
  match x, y with
  | NaN, _ | _, NaN => NaN
  | Inf _, Inf _ => NaN
  | Inf nx, Fin b => Inf (xorb nx (is_neg b))
  | Fin _, Inf _ => Fin 0
  | Fin a, Fin b =>
      if is_zero b then (if is_zero a then NaN else Inf (is_neg a))
      else Fin (finalise (a / b))
  end.

(** [Decimal.min(x, y)]. *)
Definition min (x y : t) : t :=
  match x, y with
  | NaN, _ | _, NaN => NaN
  | _, _ => if gt x y then y else x
  end.

(** [x.toDecimalPlaces(dp)] with the configured rounding mode. *)
Definition toDecimalPlaces (dp : Z) (x : t) : t :=
  match x with
  | Fin q => Fin (round_dp dp q)
  | _ => x
  end.

Definition is_finite (x : t) : bool :=
  match x with Fin _ => true | _ => false end.

End Decimal.

(** ** Objects whose keys are enumerated

    [Object.keys], [Object.values] and [Object.entries] enumerate string
    keys in insertion order, so an object that the code iterates over is
    an association list: writing an existing key keeps its place,
    writing a new key appends.  (Keys that look like array indices would
    come first in JavaScript; exchange names and symbols are not such
    keys.) *)

Module JsObject.

Definition t (V : Type) : Type := list (string * V).

Fixpoint get {V} (o : t V) (k : string) : option V :=
  match o with
  | [] => None
  | (k', v) :: o' => if String.eqb k' k then Some v else get o' k
  end.

Fixpoint set {V} (o : t V) (k : string) (v : V) : t V :=
  match o with
  | [] => [(k, v)]
  | (k', v') :: o' =>
      if String.eqb k' k then (k', v) :: o' else (k', v') :: set o' k v
  end.

Definition keys {V} (o : t V) : list string := map fst o.
Definition values {V} (o : t V) : list V := map snd o.

End JsObject.

(** ** Values shared by the two sources *)

Inductive Side : Type := Buy | Sell.

(** The object returned by [createOrder]. *)
Record Order : Type := {
  ord_symbol : string;
  ord_orderId : Z;
  ord_quantity : Decimal.t;
  ord_price : Decimal.t
}.

(** One row of the venue's balance response; the two amounts are the
    decimals that [new Decimal(asset.balance)] and
    [new Decimal(asset.availableBalance)] parse. *)
Record BalanceItem : Type := {
  asset : string;
  balance : Decimal.t;
  availableBalance : Decimal.t
}.

(** A writer-and-error monad for the body of an asynchronous method: the
    effects performed so far and either a value or the exception that
    ended the body. *)
Section Effects.
Context {E : Type}.

Definition M (A : Type) : Type := list E * result A.

Definition ret {A} (a : A) : M A := ([], Ok a).
Definition throw {A} (e : JsError) : M A := ([], Throw e).

Definition bind {A B} (m : M A) (f : A -> M B) : M B :=
  match m with
  | (tr, Ok a) => let '(tr', r) := f a in (tr ++ tr', r)
  | (tr, Throw e) => (tr, Throw e)
  end.

(** [await Promise.all([x.f(..), y.g(..)])].  Each element is a method
    call on a looked-up adapter: [None] when the adapter is undefined
    (the call then throws a TypeError while the array is being built,
    before the next element is evaluated), otherwise the call issued
    and what its promise settles to.  Both calls are issued before
    either is awaited; the combined promise is rejected when one of
    them is (with the first rejection in array order here; in the
    source, the first in time). *)
Definition promiseAll2 {A B}
    (p1 : option (E * result A)) (p2 : option (E * result B)) : M (A * B) :=
  match p1 with
  | None => ([], Throw TypeError)
  | Some (c1, r1) =>
      match p2 with
      | None => ([c1], Throw TypeError)
      | Some (c2, r2) =>
          ([c1; c2],
           match r1, r2 with
           | Ok a, Ok b => Ok (a, b)
           | Throw e, _ => Throw e
           | _, Throw e => Throw e
           end)
      end
  end.
End Effects.
Arguments M : clear implicits.

Notation "'let!' x ':=' m 'in' k" := (bind m (fun x => k))
  (at level 10, x pattern, m at level 100, k at level 200).

(** ** The funding-rate monitor *)

Module FundingRateMonitor.

(** An item of the array that [fetchFundingRates] resolves to, or that
    a stream message is turned into. Times are epoch milliseconds. *)
Record RateInfo : Type := {
  ri_symbol : string;
  ri_rate : Decimal.t;
  ri_nextTime : Z
}.

(** [this.rates[exchange][symbol]] *)
Record RateEntry : Type := {
  re_rate : Decimal.t;
  re_nextTime : Z;
  re_timestamp : Z
}.

(** An element of [this.history]. *)
Record HistoryEntry : Type := {
  he_exchange : string;
  he_symbol : string;
  he_rate : Decimal.t;
  he_timestamp : Z;
  he_nextTime : Z
}.

(** What [getBalance] resolves to. *)
Record Balance : Type := {
  total : Decimal.t;
  available : Decimal.t
}.

(** The object stored in [positionStatus] once both orders are placed. *)
Record HedgeObject : Type := {
  status : string;
  longExchange : string;
  longOrder : Order;
  shortExchange : string;
  shortOrder : Order;
  openedAt : Z
}.

(** [positionStatus[key]] holds the string ['opening'] or ['failed'],
    or a hedge object. *)
Inductive PositionStatus : Type :=
| StatusString (s : string)
| StatusObject (h : HedgeObject).

(** Truthiness of [this.positionStatus[key]]: undefined and the empty
    string are falsy, every object is truthy. *)
Definition truthy (v : option PositionStatus) : bool :=
  match v with
  | None => false
  | Some (StatusString s) => negb (String.eqb s "")
  | Some (StatusObject _) => true
  end.

(** The non-terminal values of [positionStatus[key]]: the string
    ['opening'], and the object of an opened hedge. *)
Definition nonTerminal (v : PositionStatus) : Prop :=
  v = StatusString "opening"
  \/ exists h, v = StatusObject h /\ status h = "opened"%string.

Record Thresholds : Type := {
  warning : Decimal.t;
  critical : Decimal.t;
  arbitrage : Decimal.t
}.

Record Config : Type := {
  thresholds : Thresholds;
  autoHedge : bool
}.

(** The defaults of the constructor; [autoHedge] is undefined unless
    the caller's configuration sets it. *)
Definition defaultThresholds : Thresholds :=
  {| warning := Decimal.dec 5 4;
     critical := Decimal.dec 1 3;
     arbitrage := Decimal.dec 2 3 |}.

Definition defaultConfig : Config :=
  {| thresholds := defaultThresholds; autoHedge := false |}.

Inductive Level : Type := LevelWarning | LevelCritical.

(** Payload of the ['alert'] event (its numbers are the Number
    conversions of these decimals). *)
Record Alert : Type := {
  al_level : Level;
  al_exchange : string;
  al_symbol : string;
  al_rate : Decimal.t
}.

(** Payload of the ['arbitrage'] event, fields named as in the source. *)
Record ArbitrageAlert : Type := {
  arb_symbol : string;
  arb_longExchange : string;
  arb_longRate : Decimal.t;
  arb_shortExchange : string;
  arb_shortRate : Decimal.t;
  arb_spread : Decimal.t
}.

(** Observable effects: events emitted on the monitor and calls made
    on the exchange adapters. Console output is left out. *)
Inductive Effect : Type :=
| EmitAlert (a : Alert)
| SendNotification (a : Alert)
| EmitArbitrage (a : ArbitrageAlert)
| MonitorHedgePosition (key : string)
| CallGetBalance (exchange : string)
| CallGetPrice (exchange symbol : string)
| CallCreateOrder (exchange symbol : string) (side : Side) (quantity : Decimal.t)
| CallClosePosition (exchange symbol : string).

(** The adapter interface as the hedge path uses it: what each call's
    promise settles to. *)
Record ExchangeAdapter : Type := {
  getBalance : result Balance;
  getPrice : string -> result Decimal.t;
  createOrder : string -> Side -> Decimal.t -> result Order
}.

(** The fields of a monitor. [rates] is enumerated by the scan, so it
    keeps insertion order; [alertCounts] and [positionStatus] are read
    and written by key. The counts are JavaScript numbers holding
    integers far below 2^53, where adding 1 is exact. *)
Record Monitor : Type := {
  rates : JsObject.t (JsObject.t RateEntry);
  history : list HistoryEntry;
  alertCounts : gmap string Z;
  positionStatus : gmap string PositionStatus
}.

(** The state the constructor leaves. *)
Definition initial : Monitor :=
  {| rates := []; history := []; alertCounts := ∅; positionStatus := ∅ |}.

(** Every alert counter is a non-negative integer. *)
Definition countsNonneg (st : Monitor) : Prop :=
  map_Forall (fun _ count => 0 <= count) (alertCounts st).

Definition set_positionStatus (st : Monitor) (key : string) (v : PositionStatus) : Monitor :=
  {| rates := rates st;
     history := history st;
     alertCounts := alertCounts st;
     positionStatus := <[key := v]> (positionStatus st) |}.

Section WithConfig.
Variable config : Config.
(** [this.exchanges]: the adapters by name, in the order of the
    object literal. *)
Variable exchanges : JsObject.t ExchangeAdapter.

Definition _triggerAlert (level : Level) (exchange symbol : string)
    (rate : Decimal.t) : list Effect :=
  let alert := {| al_level := level; al_exchange := exchange;
                  al_symbol := symbol; al_rate := rate |} in
  [EmitAlert alert; SendNotification alert].

Definition alertKey (exchange symbol : string) : string :=
  exchange ++ ":" ++ symbol.

(** [_checkHedging]: the keys whose status is the string ['opened']
    are handed to [_monitorHedgePosition]. *)
Definition _checkHedging (st : Monitor) : list Effect :=
  omap (fun '(key, status) =>
          match status with
          | StatusString s =>
              if String.eqb s "opened" then Some (MonitorHedgePosition key) else None
          | StatusObject _ => None
          end)
       (map_to_list (positionStatus st)).

(** The body of the [rates.forEach] callback of [_processRates]. *)
Definition processRate (exchange : string) (now : Z)
    (acc : Monitor * list Effect * bool) (rateInfo : RateInfo)
    : Monitor * list Effect * bool :=
  let '(st, tr, hasCritical) := acc in
  let symbol := ri_symbol rateInfo in
  let rate := ri_rate rateInfo in
  let nextTime := ri_nextTime rateInfo in
  let exchangeRates := default [] (JsObject.get (rates st) exchange) in
  let rates' :=
    JsObject.set (rates st) exchange
      (JsObject.set exchangeRates symbol
         {| re_rate := rate; re_nextTime := nextTime; re_timestamp := now |}) in
  let history' :=
    history st ++ [{| he_exchange := exchange; he_symbol := symbol;
                      he_rate := rate; he_timestamp := now;
                      he_nextTime := nextTime |}] in
  let absRate := Decimal.abs rate in
  let '(alerts, hasCritical') :=
    if Decimal.gt absRate (critical (thresholds config))
    then (_triggerAlert LevelCritical exchange symbol rate, true)
    else if Decimal.gt absRate (warning (thresholds config))
    then (_triggerAlert LevelWarning exchange symbol rate, hasCritical)
    else ([], hasCritical) in
  let key := alertKey exchange symbol in
  let alertCounts' :=
    if Decimal.gt absRate (warning (thresholds config))
    then <[key := default 0 (alertCounts st !! key) + 1]> (alertCounts st)
    else <[key := 0]> (alertCounts st) in
  ({| rates := rates'; history := history';
      alertCounts := alertCounts'; positionStatus := positionStatus st |},
   tr ++ alerts, hasCritical').

Definition _processRates (st : Monitor) (exchange : string) (now : Z)
    (rateInfos : list RateInfo) : Monitor * list Effect :=
  let '(st', tr, hasCritical) :=
    fold_left (processRate exchange now) rateInfos (st, [], false) in
  (st', if hasCritical then tr ++ _checkHedging st' else tr).

(** [key] of [_executeHedge]. *)
Definition hedgeKey (symbol longExchange shortExchange : string) : string :=
  symbol ++ ":" ++ longExchange ++ ":" ++ shortExchange.

Definition callOn {A} (exchange : string) (c : Effect)
    (f : ExchangeAdapter -> result A) : option (Effect * result A) :=
  match JsObject.get exchanges exchange with
  | Some ex => Some (c, f ex)
  | None => None
  end.

(** The value of [maxSize] for two balances, and of [longQty] and
    [shortQty] for a size and a price. *)
Definition maxSizeFor (longBal shortBal : Balance) : Decimal.t :=
  Decimal.toDecimalPlaces 8
    (Decimal.mul (Decimal.min (available longBal) (available shortBal))
                 (Decimal.dec 5 1)).

Definition quantityFor (maxSize price : Decimal.t) : Decimal.t :=
  Decimal.toDecimalPlaces 8 (Decimal.div maxSize price).

(** The [try] block of [_executeHedge]. *)
Definition openHedge (symbol longExchange shortExchange : string) (now : Z)
    : M Effect HedgeObject :=
  let! (longBal, shortBal) :=
    promiseAll2 (callOn longExchange (CallGetBalance longExchange) getBalance)
                (callOn shortExchange (CallGetBalance shortExchange) getBalance) in
  let maxSize :=
    Decimal.toDecimalPlaces 8
      (Decimal.mul (Decimal.min (available longBal) (available shortBal))
                   (Decimal.dec 5 1)) in
  if Decimal.lte maxSize (Decimal.of_Z 0)
  then throw (Error "可用资金不足")
  else
    let! (longPrice, shortPrice) :=
      promiseAll2
        (callOn longExchange (CallGetPrice longExchange symbol)
                (fun ex => getPrice ex symbol))
        (callOn shortExchange (CallGetPrice shortExchange symbol)
                (fun ex => getPrice ex symbol)) in
    let longQty := Decimal.toDecimalPlaces 8 (Decimal.div maxSize longPrice) in
    let shortQty := Decimal.toDecimalPlaces 8 (Decimal.div maxSize shortPrice) in
    let! (longOrder, shortOrder) :=
      promiseAll2
        (callOn longExchange (CallCreateOrder longExchange symbol Buy longQty)
                (fun ex => createOrder ex symbol Buy longQty))
        (callOn shortExchange (CallCreateOrder shortExchange symbol Sell shortQty)
                (fun ex => createOrder ex symbol Sell shortQty)) in
    ret {| status := "opened";
           longExchange := longExchange; longOrder := longOrder;
           shortExchange := shortExchange; shortOrder := shortOrder;
           openedAt := now |}.

Definition _executeHedge (st : Monitor) (symbol longExchange shortExchange : string)
    (now : Z) : Monitor * list Effect :=
  let key := hedgeKey symbol longExchange shortExchange in
  if truthy (positionStatus st !! key) then (st, [])
  else
    let st1 := set_positionStatus st key (StatusString "opening") in
    match openHedge symbol longExchange shortExchange now with
    | (tr, Ok h) => (set_positionStatus st1 key (StatusObject h), tr)
    | (tr, Throw _) => (set_positionStatus st1 key (StatusString "failed"), tr)
    end.

(** [_triggerArbitrageAlert(symbol, longExchange, longRate,
    shortExchange, shortRate)]. The hedge it starts is run to
    completion here; in the source it proceeds concurrently with the
    rest of the scan, on a key of its own. *)
Definition _triggerArbitrageAlert (st : Monitor) (symbol longExchange : string)
    (longRate : Decimal.t) (shortExchange : string) (shortRate : Decimal.t)
    (now : Z) : Monitor * list Effect :=
  let spread := Decimal.sub longRate shortRate in
  let alert := {| arb_symbol := symbol;
                  arb_longExchange := longExchange; arb_longRate := longRate;
                  arb_shortExchange := shortExchange; arb_shortRate := shortRate;
                  arb_spread := spread |} in
  if autoHedge config
  then let '(st', tr) := _executeHedge st symbol longExchange shortExchange now in
       (st', EmitArbitrage alert :: tr)
  else (st, [EmitArbitrage alert]).

Definition isClosePosition (e : Effect) : bool :=
  match e with CallClosePosition _ _ => true | _ => false end.

(** An order is on its side when it is a buy on the long venue or a
    sell on the short venue. *)
Definition orderOnSide (longExchange shortExchange : string) (e : Effect) : Prop :=
  match e with
  | CallCreateOrder exchange _ Buy _ => exchange = longExchange
  | CallCreateOrder exchange _ Sell _ => exchange = shortExchange
  | _ => True
  end.

Definition _findCommonSymbols (st : Monitor) : list string :=
  let symbolSets := map (fun exchangeRates => JsObject.keys exchangeRates)
                        (JsObject.values (rates st)) in
  match symbolSets with
  | [] => []
  | a :: rest =>
      fold_left (fun a b => filter (fun x => bool_decide (x ∈ b)) a) rest a
  end.

Definition _findMaxRate (rs : JsObject.t Decimal.t) : string * Decimal.t :=
  fold_left (fun max '(exchange, rate) =>
               if Decimal.gt rate (snd max) then (exchange, rate) else max)
            rs ("", Decimal.Inf true).

Definition _findMinRate (rs : JsObject.t Decimal.t) : string * Decimal.t :=
  fold_left (fun min '(exchange, rate) =>
               if Decimal.lt rate (snd min) then (exchange, rate) else min)
            rs ("", Decimal.Inf false).

(** The local object [rates] of the scan: each exchange's stored rate
    for the symbol, in the order of [Object.keys(this.exchanges)]. *)
Definition collectRates (st : Monitor) (symbol : string) : JsObject.t Decimal.t :=
  omap (fun exchange =>
          match JsObject.get (rates st) exchange with
          | Some exchangeRates =>
              match JsObject.get exchangeRates symbol with
              | Some entry => Some (exchange, re_rate entry)
              | None => None
              end
          | None => None
          end)
       (JsObject.keys exchanges).

(** The body of the [commonSymbols.forEach] callback. *)
Definition checkSymbol (now : Z) (acc : Monitor * list Effect) (symbol : string)
    : Monitor * list Effect :=
  let '(st, tr) := acc in
  let rs := collectRates st symbol in
  if (2 <=? length rs)%nat then
    let '(maxExchange, maxRate) := _findMaxRate rs in
    let '(minExchange, minRate) := _findMinRate rs in
    let spread := Decimal.sub maxRate minRate in
    if Decimal.gt spread (arbitrage (thresholds config))
    then let '(st', tr') :=
           _triggerArbitrageAlert st symbol maxExchange maxRate minExchange minRate now in
         (st', tr ++ tr')
    else (st, tr)
  else (st, tr).

Definition _checkArbitrageOpportunities (st : Monitor) (now : Z)
    : Monitor * list Effect :=
  fold_left (checkSymbol now) (_findCommonSymbols st) (st, []).

End WithConfig.

(** No entry of [positionStatus] is the string ['opened']. *)
Definition noOpenedString (st : Monitor) : Prop :=
  forall key, positionStatus st !! key <> Some (StatusString "opened").

Definition isMonitorHedgePosition (e : Effect) : bool :=
  match e with MonitorHedgePosition _ => true | _ => false end.

Definition isAdapterCall (e : Effect) : bool :=
  match e with
  | CallGetBalance _ | CallGetPrice _ _ | CallCreateOrder _ _ _ _
  | CallClosePosition _ _ => true
  | _ => false
  end.

Definition isCreateOrder (e : Effect) : bool :=
  match e with CallCreateOrder _ _ _ _ => true | _ => false end.

Definition isAlert (e : Effect) : bool :=
  match e with EmitAlert _ => true | _ => false end.

(** [this.rates[exchange]?.[symbol]] *)
Definition latestRate (st : Monitor) (exchange symbol : string) : option RateEntry :=
  match JsObject.get (rates st) exchange with
  | Some exchangeRates => JsObject.get exchangeRates symbol
  | None => None
  end.

(** The most recent history entry of an exchange and symbol. *)
Definition lastFor (h : list HistoryEntry) (exchange symbol : string)
    : option HistoryEntry :=
  last (List.filter (fun e => String.eqb (he_exchange e) exchange
                              && String.eqb (he_symbol e) symbol) h).

(** Every stored latest rate is the most recent history entry of its
    exchange and symbol. *)
Definition latestAgrees (st : Monitor) : Prop :=
  forall exchange symbol e,
    latestRate st exchange symbol = Some e ->
    lastFor (history st) exchange symbol
    = Some {| he_exchange := exchange; he_symbol := symbol;
              he_rate := re_rate e; he_timestamp := re_timestamp e;
              he_nextTime := re_nextTime e |}.

(** An emitted opportunity whose spread is long rate - short rate and
    exceeds the threshold. *)
Definition spreadAbove (threshold : Decimal.t) (e : Effect) : Prop :=
  match e with
  | EmitArbitrage a =>
      arb_spread a = Decimal.sub (arb_longRate a) (arb_shortRate a)
      /\ Decimal.gt (arb_spread a) threshold = true
  | _ => True
  end.

Definition isArbitrage (e : Effect) : bool :=
  match e with EmitArbitrage _ => true | _ => false end.

(** What one effect of a scan can be: an opportunity above the
    threshold, or a call that the hedge it starts makes. *)
Definition scanEffect (config : Config) (e : Effect) : Prop :=
  spreadAbove (arbitrage (thresholds config)) e
  /\ (isArbitrage e = true
      \/ (autoHedge config = true /\ isAdapterCall e = true)).

End FundingRateMonitor.

(** The sizing of an open in the spec's words: half of the smaller
    available balance, and the quotient of that size by the price,
    rounded down to 8 decimals. *)
Definition sizeUsd_spec (longAvail shortAvail : Q) : Q :=
  (if Qle_bool longAvail shortAvail then longAvail else shortAvail) * (1 # 2).

Definition quantity_spec (sizeUsd price : Q) : Q :=
  Decimal.round_dp 8 (sizeUsd / price).

(** ** The Binance adapters: balance of the trade asset *)

(** The value of [item.asset === this.config.tradeAsset || 'USDT']: the
    comparison binds tighter than [||], so the expression is [true] when
    the comparison holds and the string ['USDT'] otherwise. *)
Inductive BoolOrString : Type :=
| JsBool (b : bool)
| JsString (s : string).

Definition js_or (a : bool) (b : string) : BoolOrString :=
  if a then JsBool true else JsString b.

Definition js_truthy (v : BoolOrString) : bool :=
  match v with
  | JsBool b => b
  | JsString s => negb (String.eqb s "")
  end.

(** [x === y] for a string and a possibly undefined string. *)
Definition strict_eq (x : string) (y : option string) : bool :=
  match y with
  | Some s => String.eqb x s
  | None => false
  end.

(** [balance.find(item => item.asset === this.config.tradeAsset || 'USDT')] *)
Definition findAsset (tradeAsset : option string) (balance : list BalanceItem)
    : option BalanceItem :=
  List.find (fun item => js_truthy (js_or (strict_eq (asset item) tradeAsset) "USDT"))
            balance.

Module BinanceHedgeAdapter.

(** [getTotalBalance]: [response] is what [this.client.balance()]
    settles to; reading a field of the undefined result of [find] is a
    TypeError. *)
Definition getTotalBalance (tradeAsset : option string)
    (response : result (list BalanceItem)) : result Decimal.t :=
  match response with
  | Throw e => Throw e
  | Ok bal =>
      match findAsset tradeAsset bal with
      | Some a => Ok (balance a)
      | None => Throw TypeError
      end
  end.

Definition getAvailableBalance (tradeAsset : option string)
    (response : result (list BalanceItem)) : result Decimal.t :=
  match response with
  | Throw e => Throw e
  | Ok bal =>
      match findAsset tradeAsset bal with
      | Some a => Ok (availableBalance a)
      | None => Throw TypeError
      end
  end.

End BinanceHedgeAdapter.

Module BinanceAdapter.

Definition getBalance (tradeAsset : option string)
    (response : result (list BalanceItem)) : result FundingRateMonitor.Balance :=
  match response with
  | Throw e => Throw e
  | Ok bal =>
      match findAsset tradeAsset bal with
      | Some a =>
          Ok {| FundingRateMonitor.total := balance a;
                FundingRateMonitor.available := availableBalance a |}
      | None => Throw TypeError
      end
  end.

(** [getAvgFundingRate]: [response] is what
    [this.client.fundingRateHistory(..)] settles to, each item's
    [fundingRate] already parsed. *)
Definition getAvgFundingRate (response : result (list Decimal.t)) : result Decimal.t :=
  match response with
  | Throw e => Throw e
  | Ok rates =>
      if (length rates =? 0)%nat then Ok (Decimal.of_Z 0)
      else
        let sum := fold_left (fun acc item => Decimal.add acc item) rates (Decimal.of_Z 0) in
        Ok (Decimal.div sum (Decimal.of_Z (Z.of_nat (length rates))))
  end.

(** The calls an adapter method makes on the exchange client. *)
Inductive ClientCall : Type :=
| ClientPositionRisk (symbol : string)
| ClientOrder (symbol : string) (side : Side) (quantity : Decimal.t).

(** What [this.client.order(..)] resolves to. *)
Record ClientOrderResult : Type := {
  cor_orderId : Z;
  cor_executedQty : Decimal.t;
  cor_price : Decimal.t
}.

Definition createOrder (order : string -> Side -> Decimal.t -> result ClientOrderResult)
    (symbol : string) (side : Side) (quantity : Decimal.t)
    : list ClientCall * result Order :=
  ([ClientOrder symbol side quantity],
   match order symbol side quantity with
   | Ok o => Ok {| ord_symbol := symbol; ord_orderId := cor_orderId o;
                   ord_quantity := cor_executedQty o; ord_price := cor_price o |}
   | Throw e => Throw e
   end).

(** [closePosition(symbol)]: [positionRisk] is what
    [this.client.positionRisk({symbol})] settles to, each row reduced
    to its parsed [positionAmt]. *)
Definition closePosition (positionRisk : result (list Decimal.t))
    (order : string -> Side -> Decimal.t -> result ClientOrderResult)
    (symbol : string) : list ClientCall * result Order :=
  match positionRisk with
  | Throw e => ([ClientPositionRisk symbol], Throw e)
  | Ok [] => ([ClientPositionRisk symbol], Throw (Error ("未找到仓位: " ++ symbol)))
  | Ok (posAmt :: _) =>
      if Decimal.eq posAmt (Decimal.of_Z 0)
      then ([ClientPositionRisk symbol], Throw (Error ("仓位已平: " ++ symbol)))
      else
        let side := if Decimal.gt posAmt (Decimal.of_Z 0) then Sell else Buy in
        let '(calls, r) := createOrder order symbol side (Decimal.abs posAmt) in
        (ClientPositionRisk symbol :: calls, r)
  end.

End BinanceAdapter.

(** ** The market-condition analyzer: the data window *)

Module MarketCondition.

(** An element of [marketData]. *)
Record Candle : Type := {
  timestamp : Z;
  open : Decimal.t;
  high : Decimal.t;
  low : Decimal.t;
  close : Decimal.t;
  volume : Decimal.t
}.

(** The argument of [addData]; [volume] may be missing. *)
Record NewData : Type := {
  nd_timestamp : Z;
  nd_open : Decimal.t;
  nd_high : Decimal.t;
  nd_low : Decimal.t;
  nd_close : Decimal.t;
  nd_volume : option Decimal.t
}.

Record Config : Type := {
  historyLength : Z;
  volatilityWindow : Z
}.

Definition defaultConfig : Config :=
  {| historyLength := 200; volatilityWindow := 20 |}.

(** [addData]: the new window, and whether [analyze()] is then called.
    The analysis reads the window and does not change it. *)
Definition addData (config : Config) (marketData : list Candle) (newData : NewData)
    : list Candle * bool :=
  let pushed :=
    marketData ++ [{| timestamp := nd_timestamp newData;
                      open := nd_open newData; high := nd_high newData;
                      low := nd_low newData; close := nd_close newData;
                      volume := default (Decimal.of_Z 0) (nd_volume newData) |}] in
  let kept :=
    if historyLength config <? Z.of_nat (length pushed) then tail pushed else pushed in
  (kept, volatilityWindow config <=? Z.of_nat (length kept)).

Definition toCandle (newData : NewData) : Candle :=
  {| timestamp := nd_timestamp newData;
     open := nd_open newData; high := nd_high newData;
     low := nd_low newData; close := nd_close newData;
     volume := default (Decimal.of_Z 0) (nd_volume newData) |}.

(** The window after a sequence of calls of [addData]. *)
Definition addAll (config : Config) (marketData : list Candle) (items : list NewData)
    : list Candle :=
  fold_left (fun window newData => (addData config window newData).1) items marketData.

End MarketCondition.

(** What the claim about the balance queries asks for, in the spec's
    words: the row of the configured quote asset, ["USDT"] when none is
    configured, wherever it stands in the response. *)
Definition quoteAssetRow (tradeAsset : option string) (bal : list BalanceItem)
    : option BalanceItem :=
  let quote := match tradeAsset with
               | Some s => if String.eqb s "" then "USDT"%string else s
               | None => "USDT"%string
               end in
  List.find (fun item => String.eqb (asset item) quote) bal.

(** ** The hedge controls *)

Module HedgeControls.

Inductive PositionSide : Type := Long | Short.

(** A value of the object that [getPositions] resolves to. The Binance
    adapter builds these without a [symbol] field, so the field may be
    undefined. *)
Record Position : Type := {
  pos_symbol : option string;
  pos_side : PositionSide;
  pos_size : Decimal.t;
  pos_markPrice : Decimal.t;
  pos_unrealizedPnl : Decimal.t
}.

(** An element of the array built by [_flattenPositions]. *)
Record FlatPosition : Type := {
  fp_exchange : string;
  fp_symbol : option string;
  fp_side : PositionSide;
  fp_size : Decimal.t;
  fp_markPrice : Decimal.t;
  fp_unrealizedPnl : Decimal.t
}.

(** What [_findBestHedgeOpportunity] returns. *)
Record Opportunity : Type := {
  op_symbol : string;
  op_longExchange : string;
  op_longPrice : Decimal.t;
  op_shortExchange : string;
  op_shortPrice : Decimal.t;
  op_spread : Decimal.t;
  op_spreadRatio : Decimal.t
}.

(** An entry of [activeHedges]: the opportunity's fields, a status and
    the fields that the later stages add. *)
Record Hedge : Type := {
  h_opportunity : Opportunity;
  h_status : string;
  h_longOrder : option Order;
  h_shortOrder : option Order;
  h_size : option Decimal.t;
  h_entryTime : option Z;
  h_currentSpread : option Decimal.t;
  h_currentRatio : option Decimal.t;
  h_pnl : option Decimal.t;
  h_exitTime : option Z;
  h_closeReason : option string;
  h_finalPnl : option Decimal.t
}.

Definition with_status (h : Hedge) (s : string) : Hedge :=
  {| h_opportunity := h_opportunity h; h_status := s;
     h_longOrder := h_longOrder h; h_shortOrder := h_shortOrder h;
     h_size := h_size h; h_entryTime := h_entryTime h;
     h_currentSpread := h_currentSpread h; h_currentRatio := h_currentRatio h;
     h_pnl := h_pnl h; h_exitTime := h_exitTime h;
     h_closeReason := h_closeReason h; h_finalPnl := h_finalPnl h |}.

Record Config : Type := {
  maxExposure : Decimal.t;
  rebalanceThreshold : Decimal.t;
  stopLoss : Decimal.t;
  takeProfit : Decimal.t
}.

Definition defaultConfig : Config :=
  {| maxExposure := Decimal.dec 1 1;
     rebalanceThreshold := Decimal.dec 3 2;
     stopLoss := Decimal.dec 5 2;
     takeProfit := Decimal.dec 1 1 |}.

Inductive Effect : Type :=
| EmitRiskExceeded (exposure : Decimal.t)
| EmitError (e : JsError)
| EmitHedgeOpened (h : Hedge)
| EmitHedgeFailed (key : string) (error : JsError)
| EmitHedgeClosed (h : Hedge)
| EmitHedgeCloseFailed (key : string) (error : JsError)
| EmitHedgingStarted
| EmitHedgingStopped
| EmitEmergencyShutdown
| CallGetPositions (exchange : string)
| CallGetTotalBalance (exchange : string)
| CallGetAvailableBalance (exchange : string)
| CallGetPrice (exchange symbol : string)
| CallCreateOrder (exchange symbol : string) (side : Side) (quantity : Decimal.t)
| CallClosePosition (exchange : string) (symbol : option string) (side : Side)
                    (quantity : option Decimal.t).

(** The adapter interface: what each call's promise settles to. *)
Record HedgeExchangeAdapter : Type := {
  getPositions : result (JsObject.t Position);
  getPrice : string -> result Decimal.t;
  createOrder : string -> Side -> Decimal.t -> result Order;
  closePosition : option string -> Side -> option Decimal.t -> result Order;
  getTotalBalance : result Decimal.t;
  getAvailableBalance : result Decimal.t
}.

(** The fields of a [HedgeControls] instance. [activeHedges] is [None]
    while the property is undefined. *)
Record Controls : Type := {
  exposure : Decimal.t;
  pnl_daily : Decimal.t;
  pnl_total : Decimal.t;
  volatility : Decimal.t;
  isHedgingActive : bool;
  emergencyStop : bool;
  activeHedges : option (JsObject.t Hedge)
}.

(** The fields as the constructor assigns them. It assigns [config],
    [exchanges], [positions], [exposure], [pnl], [riskParams],
    [isHedgingActive] and [emergencyStop], and nothing else; the
    exchanges are a parameter below and the stream-fed [positions]
    table is not read by the methods modelled here. *)
Definition constructor : Controls :=
  {| exposure := Decimal.of_Z 0;
     pnl_daily := Decimal.of_Z 0;
     pnl_total := Decimal.of_Z 0;
     volatility := Decimal.of_Z 0;
     isHedgingActive := false;
     emergencyStop := false;
     activeHedges := None |}.

Definition with_exposure (st : Controls) (e : Decimal.t) : Controls :=
  {| exposure := e; pnl_daily := pnl_daily st; pnl_total := pnl_total st;
     volatility := volatility st; isHedgingActive := isHedgingActive st;
     emergencyStop := emergencyStop st; activeHedges := activeHedges st |}.

Definition with_volatility (st : Controls) (v : Decimal.t) : Controls :=
  {| exposure := exposure st; pnl_daily := pnl_daily st; pnl_total := pnl_total st;
     volatility := v; isHedgingActive := isHedgingActive st;
     emergencyStop := emergencyStop st; activeHedges := activeHedges st |}.

Definition with_pnl_total (st : Controls) (p : Decimal.t) : Controls :=
  {| exposure := exposure st; pnl_daily := pnl_daily st; pnl_total := p;
     volatility := volatility st; isHedgingActive := isHedgingActive st;
     emergencyStop := emergencyStop st; activeHedges := activeHedges st |}.

Definition with_isHedgingActive (st : Controls) (b : bool) : Controls :=
  {| exposure := exposure st; pnl_daily := pnl_daily st; pnl_total := pnl_total st;
     volatility := volatility st; isHedgingActive := b;
     emergencyStop := emergencyStop st; activeHedges := activeHedges st |}.

Definition with_emergencyStop (st : Controls) (b : bool) : Controls :=
  {| exposure := exposure st; pnl_daily := pnl_daily st; pnl_total := pnl_total st;
     volatility := volatility st; isHedgingActive := isHedgingActive st;
     emergencyStop := b; activeHedges := activeHedges st |}.

Definition with_activeHedges (st : Controls) (a : JsObject.t Hedge) : Controls :=
  {| exposure := exposure st; pnl_daily := pnl_daily st; pnl_total := pnl_total st;
     volatility := volatility st; isHedgingActive := isHedgingActive st;
     emergencyStop := emergencyStop st; activeHedges := Some a |}.

(** A value passed where decimal.js expects a number: a Decimal, or
    the promise that an un-awaited asynchronous call returns. *)
Inductive JsValue : Type :=
| VDecimal (d : Decimal.t)
| VPromise (settles : result Decimal.t).

(** [new Decimal(v)] as applied by [div] and [mul] to their argument:
    anything that is not a Decimal, a number or a string is rejected
    with "[DecimalError] Invalid argument". *)
Definition toDecimal (v : JsValue) : result Decimal.t :=
  match v with
  | VDecimal d => Ok d
  | VPromise _ => Throw DecimalError
  end.

(** What [getStatus] returns. *)
Record Status : Type := {
  s_active : bool;
  s_emergencyStop : bool;
  s_exposure : Decimal.t;
  s_pnl_daily : Decimal.t;
  s_pnl_total : Decimal.t;
  s_activeHedges : nat;
  s_volatility : Decimal.t
}.

(** Stable insertion sort, for [Array.prototype.sort] with a comparator. *)
Fixpoint insertBy {A} (le : A -> A -> bool) (x : A) (l : list A) : list A :=
  match l with
  | [] => [x]
  | y :: l' => if le x y then x :: l else y :: insertBy le x l'
  end.

Definition sortBy {A} (le : A -> A -> bool) (l : list A) : list A :=
  fold_right (insertBy le) [] l.

Section WithConfig.
Variable config : Config.
(** [this.exchanges], in the order [_initExchanges] adds them. *)
Variable exchanges : JsObject.t HedgeExchangeAdapter.

Definition callOn {A} (exchange : string) (c : Effect)
    (f : HedgeExchangeAdapter -> result A) : option (Effect * result A) :=
  match JsObject.get exchanges exchange with
  | Some ex => Some (c, f ex)
  | None => None
  end.

(** [await x.f(..)] on a looked-up adapter. *)
Definition await1 {A} (p : option (Effect * result A)) : M Effect A :=
  match p with
  | None => ([], Throw TypeError)
  | Some (c, r) => ([c], r)
  end.

(** [Promise.all(Object.entries(this.exchanges).map(async ...))]:
    the call is issued on every exchange; the results are taken in
    the order of the exchanges. *)
Definition onAllExchanges {A} (c : string -> Effect)
    (f : HedgeExchangeAdapter -> result A) : M Effect (JsObject.t A) :=
  (map (fun '(name, _) => c name) exchanges,
   fold_right (fun '(name, ex) acc =>
                 match f ex, acc with
                 | Ok a, Ok l => Ok ((name, a) :: l)
                 | Throw e, _ => Throw e
                 | _, Throw e => Throw e
                 end)
              (Ok []) exchanges).

Definition _getAllPositions : M Effect (JsObject.t (JsObject.t Position)) :=
  onAllExchanges CallGetPositions getPositions.

(** [_getTotalPortfolioValue()] is an async method: calling it
    issues the balance queries and returns a promise of the sum. *)
Definition _getTotalPortfolioValue : list Effect * JsValue :=
  let '(calls, r) := onAllExchanges CallGetTotalBalance getTotalBalance in
  (calls,
   VPromise match r with
            | Ok balances =>
                Ok (fold_left (fun total '(_, b) => Decimal.add total b)
                              balances (Decimal.of_Z 0))
            | Throw e => Throw e
            end).

Definition netValue (positions : JsObject.t (JsObject.t Position)) : Decimal.t :=
  fold_left
    (fun netExposure pos =>
       let value := Decimal.mul (pos_size pos) (pos_markPrice pos) in
       match pos_side pos with
       | Long => Decimal.add netExposure value
       | Short => Decimal.sub netExposure value
       end)
    (concat (map JsObject.values (JsObject.values positions)))
    (Decimal.of_Z 0).

(** [_calculateNetExposure]: the divisor is the value that
    [_getTotalPortfolioValue()] returns, as it stands. *)
Definition _calculateNetExposure (positions : JsObject.t (JsObject.t Position))
    : M Effect Decimal.t :=
  let netExposure := netValue positions in
  let '(calls, total) := _getTotalPortfolioValue in
  (calls,
   match toDecimal total with
   | Ok t => Ok (Decimal.div netExposure t)
   | Throw e => Throw e
   end).

Definition _flattenPositions (positionsByExchange : JsObject.t (JsObject.t Position))
    : list FlatPosition :=
  concat (map (fun '(exchange, positions) =>
                 map (fun pos =>
                        {| fp_exchange := exchange;
                           fp_symbol := pos_symbol pos;
                           fp_side := pos_side pos;
                           fp_size := pos_size pos;
                           fp_markPrice := pos_markPrice pos;
                           fp_unrealizedPnl := pos_unrealizedPnl pos |})
                     (JsObject.values positions))
              positionsByExchange).

Definition oppositeSide (s : PositionSide) : Side :=
  match s with Long => Sell | Short => Buy end.

Definition sameSide (a b : PositionSide) : bool :=
  match a, b with
  | Long, Long | Short, Short => true
  | _, _ => false
  end.

(** [_closePositionsUntilTarget]: a failed close is logged and the
    loop goes on with [remaining] unchanged. *)
Fixpoint _closePositionsUntilTarget (positions : list FlatPosition)
    (remaining : Decimal.t) : list Effect :=
  match positions with
  | [] => []
  | pos :: rest =>
      if Decimal.lte remaining (Decimal.of_Z 0) then []
      else
        let closeSize :=
          Decimal.min (fp_size pos) (Decimal.div remaining (fp_markPrice pos)) in
        let side := oppositeSide (fp_side pos) in
        match JsObject.get exchanges (fp_exchange pos) with
        | None => _closePositionsUntilTarget rest remaining
        | Some ex =>
            CallClosePosition (fp_exchange pos) (fp_symbol pos) side (Some closeSize)
            :: match closePosition ex (fp_symbol pos) side (Some closeSize) with
               | Ok _ =>
                   _closePositionsUntilTarget rest
                     (Decimal.sub remaining (Decimal.mul closeSize (fp_markPrice pos)))
               | Throw _ => _closePositionsUntilTarget rest remaining
               end
        end
  end.

(** The comparator [(a, b) => a.unrealizedPnl - b.unrealizedPnl]
    orders by the Number values of the two decimals; the order of
    the decimals themselves is used here. *)
Definition pnlLe (a b : FlatPosition) : bool :=
  Decimal.lte (fp_unrealizedPnl a) (fp_unrealizedPnl b).

Definition reduceCandidates (st : Controls) (flatPositions : list FlatPosition)
    : list FlatPosition :=
  let reduceSide := if Decimal.gt (exposure st) (Decimal.of_Z 0) then Long else Short in
  sortBy pnlLe (filter (fun p => sameSide (fp_side p) reduceSide) flatPositions).

(** The [try] block of [_reduceExposure]. *)
Definition reduceBody (st : Controls) : M Effect unit :=
  let! positions := _getAllPositions in
  let flatPositions := _flattenPositions positions in
  let sortedPositions := reduceCandidates st flatPositions in
  let targetReduction :=
    Decimal.sub (Decimal.abs (exposure st))
                (Decimal.mul (maxExposure config) (Decimal.dec 8 1)) in
  let '(calls, total) := _getTotalPortfolioValue in
  let! t := (calls, toDecimal total) in
  let usdToReduce := Decimal.mul targetReduction t in
  (_closePositionsUntilTarget sortedPositions usdToReduce, Ok tt).

Definition _reduceExposure (st : Controls) : list Effect :=
  if emergencyStop st then []
  else
    match reduceBody st with
    | (tr, Ok _) => tr
    | (tr, Throw e) => tr ++ [EmitError (Wrapped "降低风险失败: " e)]
    end.

Definition _estimateCurrentVolatility : Decimal.t := Decimal.dec 2 2.

Definition _updateVolatility (st : Controls) : Controls :=
  with_volatility st
    (Decimal.add (Decimal.mul (volatility st) (Decimal.dec 9 1))
                 (Decimal.mul _estimateCurrentVolatility (Decimal.dec 1 1))).

(** [_calculateRiskExposure]. The two calls that can throw come
    before the first assignment, so a caught exception leaves the
    fields as they were. *)
Definition _calculateRiskExposure (st : Controls) : Controls * list Effect :=
  let body : M Effect Controls :=
    let! allPositions := _getAllPositions in
    let! exposure := _calculateNetExposure allPositions in
    let st1 := with_exposure st exposure in
    let! _ :=
      if Decimal.gt (Decimal.abs exposure) (maxExposure config)
      then (EmitRiskExceeded exposure :: _reduceExposure st1, Ok tt)
      else ret tt in
    ret (_updateVolatility st1) in
  match body with
  | (tr, Ok st') => (st', tr)
  | (tr, Throw e) => (st, tr ++ [EmitError e])
  end.

Definition hedgeKey (opportunity : Opportunity) : string :=
  op_symbol opportunity ++ ":" ++ op_longExchange opportunity ++ ":"
    ++ op_shortExchange opportunity.

Definition _calculateHedgeSize (opportunity : Opportunity) : M Effect Decimal.t :=
  let longExchange := op_longExchange opportunity in
  let shortExchange := op_shortExchange opportunity in
  let! (longBalance, shortBalance) :=
    promiseAll2
      (callOn longExchange (CallGetAvailableBalance longExchange) getAvailableBalance)
      (callOn shortExchange (CallGetAvailableBalance shortExchange) getAvailableBalance) in
  let maxLongSize := Decimal.div longBalance (op_longPrice opportunity) in
  let maxShortSize := Decimal.div shortBalance (op_shortPrice opportunity) in
  let maxSize := Decimal.min maxLongSize maxShortSize in
  let riskAdjustedSize := Decimal.mul maxSize (Decimal.dec 1 1) in
  ret (Decimal.toDecimalPlaces 8 riskAdjustedSize).

(** The value [_calculateHedgeSize] resolves to for two balances. *)
Definition hedgeSizeFor (opportunity : Opportunity)
    (longBalance shortBalance : Decimal.t) : Decimal.t :=
  Decimal.toDecimalPlaces 8
    (Decimal.mul
       (Decimal.min (Decimal.div longBalance (op_longPrice opportunity))
                    (Decimal.div shortBalance (op_shortPrice opportunity)))
       (Decimal.dec 1 1)).

Definition openingHedge (opportunity : Opportunity) : Hedge :=
  {| h_opportunity := opportunity; h_status := "opening";
     h_longOrder := None; h_shortOrder := None; h_size := None;
     h_entryTime := None; h_currentSpread := None; h_currentRatio := None;
     h_pnl := None; h_exitTime := None; h_closeReason := None;
     h_finalPnl := None |}.

(** The [try] block of [_executeHedge], up to the new record. *)
Definition openHedge (opportunity : Opportunity) (now : Z) : M Effect Hedge :=
  let symbol := op_symbol opportunity in
  let longExchange := op_longExchange opportunity in
  let shortExchange := op_shortExchange opportunity in
  let! size := _calculateHedgeSize opportunity in
  let! (longOrder, shortOrder) :=
    promiseAll2
      (callOn longExchange (CallCreateOrder longExchange symbol Buy size)
              (fun ex => createOrder ex symbol Buy size))
      (callOn shortExchange (CallCreateOrder shortExchange symbol Sell size)
              (fun ex => createOrder ex symbol Sell size)) in
  ret {| h_opportunity := opportunity; h_status := "active";
         h_longOrder := Some longOrder; h_shortOrder := Some shortOrder;
         h_size := Some size; h_entryTime := Some now;
         h_currentSpread := None; h_currentRatio := None;
         h_pnl := None; h_exitTime := None; h_closeReason := None;
         h_finalPnl := None |}.

(** [_executeHedge(opportunity)]. Reading [this.activeHedges[key]]
    while [activeHedges] is undefined throws outside the [try]
    block, so the promise the method returns is rejected. *)
Definition _executeHedge (st : Controls) (opportunity : Opportunity) (now : Z)
    : Controls * list Effect * result unit :=
  match activeHedges st with
  | None => (st, [], Throw TypeError)
  | Some hedges =>
      let key := hedgeKey opportunity in
      match JsObject.get hedges key with
      | Some _ => (st, [], Ok tt)
      | None =>
          let hedges1 := JsObject.set hedges key (openingHedge opportunity) in
          match openHedge opportunity now with
          | (tr, Ok h) =>
              (with_activeHedges st (JsObject.set hedges1 key h),
               tr ++ [EmitHedgeOpened h], Ok tt)
          | (tr, Throw e) =>
              (with_activeHedges st
                 (JsObject.set hedges1 key
                    (with_status (openingHedge opportunity) "failed")),
               tr ++ [EmitHedgeFailed key e], Ok tt)
          end
      end
  end.

(** [mul(hedge.size)] with an undefined size is an invalid argument. *)
Definition _calculateHedgePnl (hedge : Hedge) (longPrice shortPrice : Decimal.t)
    : result Decimal.t :=
  let longChange := Decimal.sub longPrice (op_longPrice (h_opportunity hedge)) in
  let shortChange := Decimal.sub (op_shortPrice (h_opportunity hedge)) shortPrice in
  match h_size hedge with
  | Some size => Ok (Decimal.mul (Decimal.add longChange shortChange) size)
  | None => Throw DecimalError
  end.

(** [_closeHedge(key, reason)], called with [activeHedges] defined. *)
Definition _closeHedge (st : Controls) (hedges : JsObject.t Hedge) (key reason : string)
    (now : Z) : Controls * list Effect :=
  match JsObject.get hedges key with
  | None => (st, [])
  | Some hedge =>
      if negb (String.eqb (h_status hedge) "active") then (st, [])
      else
        let symbol := op_symbol (h_opportunity hedge) in
        let longExchange := op_longExchange (h_opportunity hedge) in
        let shortExchange := op_shortExchange (h_opportunity hedge) in
        let body : M Effect Decimal.t :=
          let! _ :=
            promiseAll2
              (callOn longExchange
                 (CallClosePosition longExchange (Some symbol) Sell (h_size hedge))
                 (fun ex => closePosition ex (Some symbol) Sell (h_size hedge)))
              (callOn shortExchange
                 (CallClosePosition shortExchange (Some symbol) Buy (h_size hedge))
                 (fun ex => closePosition ex (Some symbol) Buy (h_size hedge))) in
          let! longPrice :=
            await1 (callOn longExchange (CallGetPrice longExchange symbol)
                           (fun ex => getPrice ex symbol)) in
          let! shortPrice :=
            await1 (callOn shortExchange (CallGetPrice shortExchange symbol)
                           (fun ex => getPrice ex symbol)) in
          ([], _calculateHedgePnl hedge longPrice shortPrice) in
        match body with
        | (tr, Ok pnl) =>
            let closed :=
              {| h_opportunity := h_opportunity hedge; h_status := "closed";
                 h_longOrder := h_longOrder hedge; h_shortOrder := h_shortOrder hedge;
                 h_size := h_size hedge; h_entryTime := h_entryTime hedge;
                 h_currentSpread := h_currentSpread hedge;
                 h_currentRatio := h_currentRatio hedge;
                 h_pnl := h_pnl hedge; h_exitTime := Some now;
                 h_closeReason := Some reason; h_finalPnl := Some pnl |} in
            (with_pnl_total (with_activeHedges st (JsObject.set hedges key closed))
                            (Decimal.add (pnl_total st) pnl),
             tr ++ [EmitHedgeClosed closed])
        | (tr, Throw e) =>
            (with_activeHedges st
               (JsObject.set hedges key (with_status hedge "close_failed")),
             tr ++ [EmitHedgeCloseFailed key e])
        end
  end.

(** The callback of [_monitorActiveHedges] for one entry of the
    table; the entries are handled one after the other here. *)
Definition monitorHedge (now : Z) (acc : Controls * list Effect)
    (entry : string * Hedge) : Controls * list Effect :=
  let '(st, tr) := acc in
  let '(key, hedge) := entry in
  let hedges := default [] (activeHedges st) in
  if negb (String.eqb (h_status hedge) "active") then (st, tr)
  else
    let symbol := op_symbol (h_opportunity hedge) in
    let longExchange := op_longExchange (h_opportunity hedge) in
    let shortExchange := op_shortExchange (h_opportunity hedge) in
    match promiseAll2
            (callOn longExchange (CallGetPrice longExchange symbol)
                    (fun ex => getPrice ex symbol))
            (callOn shortExchange (CallGetPrice shortExchange symbol)
                    (fun ex => getPrice ex symbol)) with
    | (calls, Throw _) => (st, tr ++ calls)
    | (calls, Ok (longPrice, shortPrice)) =>
        let currentSpread := Decimal.sub shortPrice longPrice in
        let currentRatio := Decimal.div currentSpread longPrice in
        let entryRatio := op_spreadRatio (h_opportunity hedge) in
        let ratioChange := Decimal.sub entryRatio currentRatio in
        if Decimal.gte ratioChange (Decimal.mul (takeProfit config) (Decimal.dec 5 1))
        then let '(st', tr') := _closeHedge st hedges key "take_profit" now in
             (st', tr ++ calls ++ tr')
        else if Decimal.lte ratioChange (Decimal.neg (stopLoss config))
        then let '(st', tr') := _closeHedge st hedges key "stop_loss" now in
             (st', tr ++ calls ++ tr')
        else
          match _calculateHedgePnl hedge longPrice shortPrice with
          | Throw _ => (st, tr ++ calls)
          | Ok pnl =>
              let updated :=
                {| h_opportunity := h_opportunity hedge; h_status := h_status hedge;
                   h_longOrder := h_longOrder hedge; h_shortOrder := h_shortOrder hedge;
                   h_size := h_size hedge; h_entryTime := h_entryTime hedge;
                   h_currentSpread := Some currentSpread;
                   h_currentRatio := Some currentRatio;
                   h_pnl := Some pnl; h_exitTime := h_exitTime hedge;
                   h_closeReason := h_closeReason hedge;
                   h_finalPnl := h_finalPnl hedge |} in
              (with_activeHedges st (JsObject.set hedges key updated), tr ++ calls)
          end
    end.

(** [_monitorActiveHedges]: [Object.entries(undefined)] is a
    TypeError. *)
Definition _monitorActiveHedges (st : Controls) (now : Z)
    : Controls * list Effect * result unit :=
  match activeHedges st with
  | None => (st, [], Throw TypeError)
  | Some hedges =>
      let '(st', tr) := fold_left (monitorHedge now) hedges (st, []) in
      (st', tr, Ok tt)
  end.

(** [getStatus]: [Object.keys(undefined)] is a TypeError. *)
Definition getStatus (st : Controls) : result Status :=
  match activeHedges st with
  | None => Throw TypeError
  | Some hedges =>
      Ok {| s_active := isHedgingActive st;
            s_emergencyStop := emergencyStop st;
            s_exposure := exposure st;
            s_pnl_daily := pnl_daily st;
            s_pnl_total := pnl_total st;
            s_activeHedges := length (JsObject.keys hedges);
            s_volatility := volatility st |}
  end.

Definition startHedging (st : Controls) : Controls * list Effect :=
  (with_isHedgingActive st true, [EmitHedgingStarted]).

Definition stopHedging (st : Controls) : Controls * list Effect :=
  (with_isHedgingActive st false, [EmitHedgingStopped]).

(** The closes that [_closeAllPositions] issues once the positions
    have arrived; a rejected close is logged. *)
Fixpoint closeAll (flatPositions : list FlatPosition) : list Effect :=
  match flatPositions with
  | [] => []
  | pos :: rest =>
      match JsObject.get exchanges (fp_exchange pos) with
      | None => []
      | Some _ =>
          CallClosePosition (fp_exchange pos) (fp_symbol pos)
                            (oppositeSide (fp_side pos)) (Some (fp_size pos))
          :: closeAll rest
      end
  end.

(** [emergencyShutdown]: [_closeAllPositions()] is not awaited, so
    its position queries go out, the event is emitted, and the
    closes follow. *)
Definition emergencyShutdown (st : Controls) : Controls * list Effect :=
  let '(st1, stopped) := stopHedging (with_emergencyStop st true) in
  let '(calls, positions) := _getAllPositions in
  (st1,
   stopped ++ calls ++ [EmitEmergencyShutdown]
     ++ match positions with
        | Ok ps => closeAll (_flattenPositions ps)
        | Throw _ => []
        end).

(** The states an instance goes through when only its own methods
    write its fields. *)
Inductive reachable : Controls -> Prop :=
| reach_constructor : reachable constructor
| reach_executeHedge st opportunity now :
    reachable st -> reachable (_executeHedge st opportunity now).1.1
| reach_monitorActiveHedges st now :
    reachable st -> reachable (_monitorActiveHedges st now).1.1
| reach_calculateRiskExposure st :
    reachable st -> reachable (_calculateRiskExposure st).1
| reach_startHedging st :
    reachable st -> reachable (startHedging st).1
| reach_stopHedging st :
    reachable st -> reachable (stopHedging st).1
| reach_emergencyShutdown st :
    reachable st -> reachable (emergencyShutdown st).1.

(** [_getAllPrices(symbol)]: the price is asked of every exchange; a
    rejected query is logged and leaves no entry. *)
Definition _getAllPrices (symbol : string) : list Effect * JsObject.t Decimal.t :=
  (map (fun '(name, _) => CallGetPrice name symbol) exchanges,
   omap (fun '(name, ex) =>
           match getPrice ex symbol with
           | Ok price => Some (name, price)
           | Throw _ => None
           end)
        exchanges).

(** [this.config.minHedgeSpread]; the constructor has no default for
    it, so it is undefined unless the caller's configuration sets it. *)
Variable minHedgeSpread : option Decimal.t.

(** One round of the loop of [_findBestHedgeOpportunity]: the highest
    and the lowest price so far, each with its exchange, undefined
    before the first entry. *)
Definition bestStep (acc : option (string * Decimal.t) * option (string * Decimal.t))
    (entry : string * Decimal.t)
    : option (string * Decimal.t) * option (string * Decimal.t) :=
  let '(exchange, decimalPrice) := entry in
  let '(max, min) := acc in
  (match max with
   | None => Some (exchange, decimalPrice)
   | Some (_, maxPrice) =>
       if Decimal.gt decimalPrice maxPrice then Some (exchange, decimalPrice) else max
   end,
   match min with
   | None => Some (exchange, decimalPrice)
   | Some (_, minPrice) =>
       if Decimal.lt decimalPrice minPrice then Some (exchange, decimalPrice) else min
   end).

(** [_findBestHedgeOpportunity(symbol, prices)]. Every price is a
    Decimal object and passes the truthiness filter. [null] is
    [Ok None]; comparing with an undefined [minHedgeSpread] is
    decimal.js's invalid-argument error. *)
Definition _findBestHedgeOpportunity (symbol : string) (prices : JsObject.t Decimal.t)
    : result (option Opportunity) :=
  let entries := prices in
  if (length entries <? 2)%nat then Ok None
  else
    match fold_left bestStep entries (None, None) with
    | (Some (maxExchange, maxPrice), Some (minExchange, minPrice)) =>
        let spread := Decimal.sub maxPrice minPrice in
        let spreadRatio := Decimal.div spread minPrice in
        match minHedgeSpread with
        | None => Throw DecimalError
        | Some minSpread =>
            if Decimal.lt spreadRatio minSpread then Ok None
            else Ok (Some {| op_symbol := symbol;
                             op_longExchange := minExchange; op_longPrice := minPrice;
                             op_shortExchange := maxExchange; op_shortPrice := maxPrice;
                             op_spread := spread; op_spreadRatio := spreadRatio |})
        end
    | _ => Throw TypeError
    end.

(** [_checkHedgeOpportunity(ticker)]: everything after the emergency
    check runs inside [try], and a caught exception is emitted as
    ['error']. *)
Definition _checkHedgeOpportunity (st : Controls) (symbol : string) (now : Z)
    : Controls * list Effect :=
  if emergencyStop st then (st, [])
  else
    let '(calls, allPrices) := _getAllPrices symbol in
    match _findBestHedgeOpportunity symbol allPrices with
    | Throw e => (st, calls ++ [EmitError e])
    | Ok None => (st, calls)
    | Ok (Some opportunity) =>
        match _executeHedge st opportunity now with
        | (st', tr, Ok _) => (st', calls ++ tr)
        | (st', tr, Throw e) => (st', calls ++ tr ++ [EmitError e])
        end
    end.

(** A message delivered by an adapter's stream. *)
Inductive MarketUpdate : Type :=
| UpdatePosition (exchange symbol : string) (side : PositionSide)
                 (size markPrice : Decimal.t)
| UpdateTicker (symbol : string)
| UpdateOther.

(** An entry of [this.positions[exchange]]. *)
Record PositionData : Type := {
  pd_side : PositionSide;
  pd_size : Decimal.t;
  pd_markPrice : Decimal.t;
  pd_updatedAt : Z
}.

(** [_updatePositionData] on the table [this.positions]: a size of 0
    deletes the symbol's entry, any other size writes it. *)
Definition _updatePositionData (positions : gmap string (gmap string PositionData))
    (exchange symbol : string) (side : PositionSide) (size markPrice : Decimal.t)
    (now : Z) : gmap string (gmap string PositionData) :=
  let ofExchange := default ∅ (positions !! exchange) in
  if Decimal.eq size (Decimal.of_Z 0)
  then <[exchange := delete symbol ofExchange]> positions
  else <[exchange := <[symbol := {| pd_side := side; pd_size := size;
                                    pd_markPrice := markPrice;
                                    pd_updatedAt := now |}]> ofExchange]> positions.

(** [_handleMarketUpdate(data)]. *)
Definition _handleMarketUpdate (st : Controls)
    (positions : gmap string (gmap string PositionData)) (data : MarketUpdate) (now : Z)
    : Controls * gmap string (gmap string PositionData) * list Effect :=
  match data with
  | UpdatePosition exchange symbol side size markPrice =>
      (st, _updatePositionData positions exchange symbol side size markPrice now, [])
  | UpdateTicker symbol =>
      if isHedgingActive st
      then let '(st', tr) := _checkHedgeOpportunity st symbol now in (st', positions, tr)
      else (st, positions, [])
  | UpdateOther => (st, positions, [])
  end.

(** ** Rebalancing and the daily PnL *)

(** Effects of the maintenance part of the main loop. *)
Inductive MaintenanceEffect : Type :=
| QueryTotalBalance (exchange : string)
| CallTransferTo (from to : string) (amount : Decimal.t) (asset : string)
| EmitDailyPnl (value : Decimal.t).

(** An element of [transfers]. *)
Record Transfer : Type := {
  tr_from : string;
  tr_to : string;
  tr_amount : Decimal.t
}.

(** [Object.keys(balances).length] as the divisor of [total.div]. *)
Definition countOf (balances : JsObject.t Decimal.t) : Decimal.t :=
  Decimal.of_Z (Z.of_nat (length balances)).

Definition totalOf (balances : JsObject.t Decimal.t) : Decimal.t :=
  fold_left (fun sum b => Decimal.add sum b) (JsObject.values balances) (Decimal.of_Z 0).

(** The transfers that [_performRebalance(balances, total)] collects. *)
Definition plannedTransfers (balances : JsObject.t Decimal.t) (total : Decimal.t)
    : list Transfer :=
  let target := Decimal.div total (countOf balances) in
  omap (fun '(name, balance) =>
          let diff := Decimal.sub balance target in
          if Decimal.lt (Decimal.div (Decimal.abs diff) total) (rebalanceThreshold config)
          then None
          else
            match List.find (fun '(other, otherBalance) =>
                               negb (String.eqb name other)
                               && Decimal.lt otherBalance target)
                            balances with
            | Some (recipient, recipientBalance) =>
                if String.eqb recipient "" then None
                else Some {| tr_from := name; tr_to := recipient;
                             tr_amount := Decimal.min diff
                                            (Decimal.sub target recipientBalance) |}
            | None => None
            end)
       balances.

(** [this.config.transferAsset || 'USDT'] *)
Definition transferAssetOf (transferAsset : option string) : string :=
  match transferAsset with
  | Some a => if String.eqb a "" then "USDT"%string else a
  | None => "USDT"%string
  end.

(** [_performRebalance]: every collected transfer is attempted; a
    failed one is logged. *)
Definition _performRebalance (transferAsset : option string)
    (balances : JsObject.t Decimal.t) (total : Decimal.t) : list MaintenanceEffect :=
  map (fun t => CallTransferTo (tr_from t) (tr_to t) (tr_amount t)
                                (transferAssetOf transferAsset))
      (plannedTransfers balances total).

Definition needsRebalance (balances : JsObject.t Decimal.t) : JsObject.t Decimal.t :=
  let total := totalOf balances in
  let avg := Decimal.div total (countOf balances) in
  filter (fun '(_, bal) =>
            Decimal.gt (Decimal.div (Decimal.abs (Decimal.sub bal avg)) total)
                       (rebalanceThreshold config))
         balances.

(** [_getExchangeBalances]: the total balance is asked of every
    exchange; one rejection rejects the whole. *)
Definition _getExchangeBalances : list MaintenanceEffect * result (JsObject.t Decimal.t) :=
  (map (fun '(name, _) => QueryTotalBalance name) exchanges,
   (onAllExchanges CallGetTotalBalance getTotalBalance).2).

(** [_checkRebalance]. *)
Definition _checkRebalance (transferAsset : option string)
    : list MaintenanceEffect * result unit :=
  match _getExchangeBalances with
  | (queries, Throw e) => (queries, Throw e)
  | (queries, Ok balances) =>
      if (0 <? length (needsRebalance balances))%nat
      then (queries ++ _performRebalance transferAsset balances (totalOf balances), Ok tt)
      else (queries, Ok tt)
  end.

(** [_updatePnL] at local time [hours]:[minutes]; [dailyPnlReset] is
    the latch, falsy until first set. *)
Definition _updatePnL (hours minutes : Z) (st : Controls) (dailyPnlReset : bool)
    : Controls * bool * list MaintenanceEffect :=
  if (hours =? 0) && (minutes <? 10)
  then
    if negb dailyPnlReset
    then ({| exposure := exposure st; pnl_daily := Decimal.of_Z 0;
             pnl_total := pnl_total st; volatility := volatility st;
             isHedgingActive := isHedgingActive st;
             emergencyStop := emergencyStop st; activeHedges := activeHedges st |},
          true, [EmitDailyPnl (pnl_daily st)])
    else (st, dailyPnlReset, [])
  else (st, false, []).

(** One method call on an instance, from any state. *)
Inductive step : Controls -> Controls -> Prop :=
| step_executeHedge st opportunity now :
    step st (_executeHedge st opportunity now).1.1
| step_monitorActiveHedges st now :
    step st (_monitorActiveHedges st now).1.1
| step_calculateRiskExposure st :
    step st (_calculateRiskExposure st).1
| step_checkHedgeOpportunity st symbol now :
    step st (_checkHedgeOpportunity st symbol now).1
| step_updatePnL st hours minutes dailyPnlReset :
    step st (_updatePnL hours minutes st dailyPnlReset).1.1
| step_startHedging st : step st (startHedging st).1
| step_stopHedging st : step st (stopHedging st).1
| step_emergencyShutdown st : step st (emergencyShutdown st).1.

End WithConfig.

(** The exposure ratio in the spec's words: net value over the total
    balance, and 0 when the total is 0. *)
Definition exposureRatio_spec (netValue totalValue : Decimal.t) : Decimal.t :=
  if Decimal.eq totalValue (Decimal.of_Z 0) then Decimal.of_Z 0
  else Decimal.div netValue totalValue.

Definition isClosePosition (e : Effect) : bool :=
  match e with CallClosePosition _ _ _ _ => true | _ => false end.

(** The status of the entry of [activeHedges] under a key. *)
Definition hedgeStatus (st : Controls) (key : string) : option string :=
  match activeHedges st with
  | Some hedges => h_status <$> JsObject.get hedges key
  | None => None
  end.

Definition isRiskExceeded (e : Effect) : bool :=
  match e with EmitRiskExceeded _ => true | _ => false end.

(** A direct call of [createOrder]. A close places an order too and
    is counted by [submitsOrder] below. *)
Definition isCreateOrder (e : Effect) : bool :=
  match e with CallCreateOrder _ _ _ _ => true | _ => false end.

(** An effect that places an order on a venue: [createOrder], and
    [closePosition], which [BinanceHedgeAdapter] implements as
    [return this.createOrder(symbol, side, quantity)]. *)
Definition submitsOrder (e : Effect) : bool :=
  match e with
  | CallCreateOrder _ _ _ _ | CallClosePosition _ _ _ _ => true
  | _ => false
  end.

(** One of the two closing orders of a hedge: a sell of its size on
    its long exchange, or a buy of its size on its short exchange. *)
Definition closingLeg (hedge : Hedge) (e : Effect) : Prop :=
  e = CallClosePosition (op_longExchange (h_opportunity hedge))
                        (Some (op_symbol (h_opportunity hedge))) Sell (h_size hedge)
  \/ e = CallClosePosition (op_shortExchange (h_opportunity hedge))
                           (Some (op_symbol (h_opportunity hedge))) Buy (h_size hedge).

(** An effect that reaches an exchange adapter. *)
Definition isAdapterCall (e : Effect) : bool :=
  match e with
  | CallGetPositions _ | CallGetTotalBalance _ | CallGetAvailableBalance _
  | CallGetPrice _ _ | CallCreateOrder _ _ _ _ | CallClosePosition _ _ _ _ => true
  | _ => false
  end.

Definition isDailyPnl (e : MaintenanceEffect) : bool :=
  match e with EmitDailyPnl _ => true | _ => false end.

(** [this.positions[exchange]?.[symbol]] *)
Definition positionAt (positions : gmap string (gmap string PositionData))
    (exchange symbol : string) : option PositionData :=
  match positions !! exchange with
  | Some ofExchange => ofExchange !! symbol
  | None => None
  end.

(** An order of the opportunity's symbol and of the given size, a buy
    on its long exchange or a sell on its short exchange. *)
Definition legOf (opportunity : Opportunity) (size : Decimal.t) (e : Effect) : Prop :=
  match e with
  | CallCreateOrder exchange symbol side quantity =>
      symbol = op_symbol opportunity /\ quantity = size
      /\ exchange = match side with
                    | Buy => op_longExchange opportunity
                    | Sell => op_shortExchange opportunity
                    end
  | _ => True
  end.

(** [_updatePnL] called at each of a sequence of local times. *)
Fixpoint pnlTicks (ticks : list (Z * Z)) (st : Controls) (dailyPnlReset : bool)
    : Controls * bool * list MaintenanceEffect :=
  match ticks with
  | [] => (st, dailyPnlReset, [])
  | (hours, minutes) :: rest =>
      let '(st1, latch1, tr1) := _updatePnL hours minutes st dailyPnlReset in
      let '(st2, latch2, tr2) := pnlTicks rest st1 latch1 in
      (st2, latch2, tr1 ++ tr2)
  end.

Definition inResetWindow (tick : Z * Z) : bool :=
  (tick.1 =? 0) && (tick.2 <? 10).

(** The close that de-risking and the emergency shutdown issue for a
    position: its full symbol, the opposite side. *)
Definition closeTarget (pos : FlatPosition) : string * option string * Side :=
  (fp_exchange pos, fp_symbol pos,
   match fp_side pos with Long => Sell | Short => Buy end).

Definition closeTargetOf (e : Effect) : option (string * option string * Side) :=
  match e with
  | CallClosePosition exchange symbol side _ => Some (exchange, symbol, side)
  | _ => None
  end.

End HedgeControls.

(** ** Scenarios

    Venues, rates and balances of the concrete cases used below. *)

Module Scenario.

Definition order (symbol : string) (quantity : Decimal.t) : Order :=
  {| ord_symbol := symbol; ord_orderId := 1;
     ord_quantity := quantity; ord_price := Decimal.of_Z 50000 |}.

(** A balance response that lists BNB before USDT. *)
Definition bnbRow : BalanceItem :=
  {| asset := "BNB"; balance := Decimal.of_Z 5; availableBalance := Decimal.of_Z 4 |}.
Definition usdtRow : BalanceItem :=
  {| asset := "USDT"; balance := Decimal.of_Z 1000; availableBalance := Decimal.of_Z 900 |}.

(** Controls-side venues: X fills every order; Y rejects every order. *)
Definition hcX : HedgeControls.HedgeExchangeAdapter :=
  {| HedgeControls.getPositions := Ok [];
     HedgeControls.getPrice := fun _ => Ok (Decimal.of_Z 50000);
     HedgeControls.createOrder := fun symbol _ q => Ok (order symbol q);
     HedgeControls.closePosition :=
       fun symbol _ q => Ok (order (default ""%string symbol) (default (Decimal.of_Z 0) q));
     HedgeControls.getTotalBalance := Ok (Decimal.of_Z 1000);
     HedgeControls.getAvailableBalance := Ok (Decimal.of_Z 1000) |}.

Definition hcY : HedgeControls.HedgeExchangeAdapter :=
  {| HedgeControls.getPositions := Ok [];
     HedgeControls.getPrice := fun _ => Ok (Decimal.of_Z 50000);
     HedgeControls.createOrder := fun _ _ _ => Throw (Error "rejected");
     HedgeControls.closePosition :=
       fun symbol _ q => Ok (order (default ""%string symbol) (default (Decimal.of_Z 0) q));
     HedgeControls.getTotalBalance := Ok (Decimal.of_Z 1000);
     HedgeControls.getAvailableBalance := Ok (Decimal.of_Z 1000) |}.

Definition hcExchanges : JsObject.t HedgeControls.HedgeExchangeAdapter :=
  [("X"%string, hcX); ("Y"%string, hcY)].

Definition opportunity : HedgeControls.Opportunity :=
  {| HedgeControls.op_symbol := "BTCUSDT";
     HedgeControls.op_longExchange := "X";
     HedgeControls.op_longPrice := Decimal.of_Z 50000;
     HedgeControls.op_shortExchange := "Y";
     HedgeControls.op_shortPrice := Decimal.of_Z 50000;
     HedgeControls.op_spread := Decimal.of_Z 0;
     HedgeControls.op_spreadRatio := Decimal.of_Z 0 |}.

(** An instance whose [activeHedges] was set to an empty object from
    outside. *)
Definition hcWithTable : HedgeControls.Controls :=
  HedgeControls.with_activeHedges HedgeControls.constructor [].

(** Monitor-side venues with 1000 available and a price of 50000: X
    and Y fill every order; the rejecting venue fills none. *)
Definition monX : FundingRateMonitor.ExchangeAdapter :=
  {| FundingRateMonitor.getBalance :=
       Ok {| FundingRateMonitor.total := Decimal.of_Z 1000;
             FundingRateMonitor.available := Decimal.of_Z 1000 |};
     FundingRateMonitor.getPrice := fun _ => Ok (Decimal.of_Z 50000);
     FundingRateMonitor.createOrder := fun symbol _ q => Ok (order symbol q) |}.

Definition monRejecting : FundingRateMonitor.ExchangeAdapter :=
  {| FundingRateMonitor.getBalance :=
       Ok {| FundingRateMonitor.total := Decimal.of_Z 1000;
             FundingRateMonitor.available := Decimal.of_Z 1000 |};
     FundingRateMonitor.getPrice := fun _ => Ok (Decimal.of_Z 50000);
     FundingRateMonitor.createOrder := fun _ _ _ => Throw (Error "rejected") |}.

(** A venue where the symbol trades at 3. *)
Definition monCheap : FundingRateMonitor.ExchangeAdapter :=
  {| FundingRateMonitor.getBalance :=
       Ok {| FundingRateMonitor.total := Decimal.of_Z 1000;
             FundingRateMonitor.available := Decimal.of_Z 1000 |};
     FundingRateMonitor.getPrice := fun _ => Ok (Decimal.of_Z 3);
     FundingRateMonitor.createOrder := fun symbol _ q => Ok (order symbol q) |}.

Definition monExchanges : JsObject.t FundingRateMonitor.ExchangeAdapter :=
  [("X"%string, monX); ("Y"%string, monX)].

Definition monExchangesRejectY : JsObject.t FundingRateMonitor.ExchangeAdapter :=
  [("X"%string, monX); ("Y"%string, monRejecting)].

Definition monExchangesCheapX : JsObject.t FundingRateMonitor.ExchangeAdapter :=
  [("X"%string, monCheap); ("Y"%string, monX)].

Definition autoHedgeConfig : FundingRateMonitor.Config :=
  {| FundingRateMonitor.thresholds := FundingRateMonitor.defaultThresholds;
     FundingRateMonitor.autoHedge := true |}.

Definition rateInfo (rate : Decimal.t) : FundingRateMonitor.RateInfo :=
  {| FundingRateMonitor.ri_symbol := "BTCUSDT";
     FundingRateMonitor.ri_rate := rate;
     FundingRateMonitor.ri_nextTime := 0 |}.

(** The store after X has reported -0.001 and Y +0.0015 for BTCUSDT. *)
Definition monAfterRates : FundingRateMonitor.Monitor :=
  let st1 := (FundingRateMonitor._processRates autoHedgeConfig
                FundingRateMonitor.initial "X" 0 [rateInfo (Decimal.dec (-1) 3)]).1 in
  (FundingRateMonitor._processRates autoHedgeConfig st1 "Y" 0
     [rateInfo (Decimal.dec 15 4)]).1.

(** A monitor with an open attempt in flight on the key. *)
Definition monOpening : FundingRateMonitor.Monitor :=
  FundingRateMonitor.set_positionStatus FundingRateMonitor.initial
    (FundingRateMonitor.hedgeKey "BTCUSDT" "X" "Y")
    (FundingRateMonitor.StatusString "opening").

(** Three long positions on X, each of size 1 at a mark price of 100,
    with unrealized PnL -50 (A), +30 (B) and -10 (C); X holds a total
    balance of 1000. *)
Definition position (symbol : string) (pnl : Z) : HedgeControls.Position :=
  {| HedgeControls.pos_symbol := Some symbol;
     HedgeControls.pos_side := HedgeControls.Long;
     HedgeControls.pos_size := Decimal.of_Z 1;
     HedgeControls.pos_markPrice := Decimal.of_Z 100;
     HedgeControls.pos_unrealizedPnl := Decimal.of_Z pnl |}.

Definition riskPositions : JsObject.t HedgeControls.Position :=
  [("A"%string, position "A" (-50)); ("B"%string, position "B" 30);
   ("C"%string, position "C" (-10))].

Definition riskX : HedgeControls.HedgeExchangeAdapter :=
  {| HedgeControls.getPositions := Ok riskPositions;
     HedgeControls.getPrice := fun _ => Ok (Decimal.of_Z 100);
     HedgeControls.createOrder := fun symbol _ q => Ok (order symbol q);
     HedgeControls.closePosition :=
       fun symbol _ q => Ok (order (default ""%string symbol) (default (Decimal.of_Z 0) q));
     HedgeControls.getTotalBalance := Ok (Decimal.of_Z 1000);
     HedgeControls.getAvailableBalance := Ok (Decimal.of_Z 1000) |}.

Definition riskExchanges : JsObject.t HedgeControls.HedgeExchangeAdapter :=
  [("X"%string, riskX)].

(** An instance whose stored exposure is 0.3. *)
Definition riskControls : HedgeControls.Controls :=
  HedgeControls.with_exposure HedgeControls.constructor (Decimal.dec 3 1).

Definition flat (symbol : string) (pnl : Z) : HedgeControls.FlatPosition :=
  {| HedgeControls.fp_exchange := "X";
     HedgeControls.fp_symbol := Some symbol;
     HedgeControls.fp_side := HedgeControls.Long;
     HedgeControls.fp_size := Decimal.of_Z 1;
     HedgeControls.fp_markPrice := Decimal.of_Z 100;
     HedgeControls.fp_unrealizedPnl := Decimal.of_Z pnl |}.

End Scenario.

(** * Properties *)

(** ** decimal.js arithmetic on examples *)

Example ndigits_ex :
  map Decimal.ndigits [1; 9; 10; 99; 100; 12345678; 99999999; 100000000]
  = [1; 1; 2; 2; 3; 8; 8; 9].
Proof. vm_compute. reflexivity. Qed.

Example div_keeps_8_digits :
  Decimal.div (Decimal.of_Z 500) (Decimal.of_Z 3) = Decimal.dec 16666666 5.
Proof. vm_compute. reflexivity. Qed.

Example div_small_quotient :
  Decimal.div (Decimal.of_Z 1) (Decimal.of_Z 3000) = Decimal.dec 33333333 11.
Proof. vm_compute. reflexivity. Qed.

Example div_rounds_toward_zero :
  Decimal.div (Decimal.of_Z (-2)) (Decimal.of_Z 3) = Decimal.dec (-66666666) 8.
Proof. vm_compute. reflexivity. Qed.

Example sub_exact :
  Decimal.sub (Decimal.dec 15 4) (Decimal.dec (-1) 3) = Decimal.dec 25 4.
Proof. vm_compute. reflexivity. Qed.

Example mul_drops_ninth_digit :
  Decimal.mul (Decimal.of_Z 123456789) (Decimal.of_Z 10) = Decimal.of_Z 1234567800.
Proof. vm_compute. reflexivity. Qed.

Example toDecimalPlaces_truncates :
  Decimal.toDecimalPlaces 8 (Decimal.dec 123456789012 11) = Decimal.dec 123456789 8.
Proof. vm_compute. reflexivity. Qed.

(** ** Objects *)

Lemma JsObject_get_set_eq {V} (o : JsObject.t V) k v :
  JsObject.get (JsObject.set o k v) k = Some v.
Proof.
  induction o as [|[k' v'] o IH]; simpl.
  - now rewrite String.eqb_refl.
  - destruct (String.eqb k' k) eqn:E; simpl; rewrite E; auto.
Qed.

Lemma JsObject_get_set_ne {V} (o : JsObject.t V) k k' v :
  k <> k' -> JsObject.get (JsObject.set o k v) k' = JsObject.get o k'.
Proof.
  intros Hne. induction o as [|[k0 v0] o IH]; simpl.
  - destruct (String.eqb k k') eqn:E; auto.
    apply String.eqb_eq in E. contradiction.
  - destruct (String.eqb k0 k) eqn:E; simpl.
    + apply String.eqb_eq in E. subst k0.
      destruct (String.eqb k k') eqn:E'; auto.
      apply String.eqb_eq in E'. contradiction.
    + destruct (String.eqb k0 k'); auto.
Qed.

(** ** Balance of the trade asset *)

Lemma findAsset_head tradeAsset item rest :
  findAsset tradeAsset (item :: rest) = Some item.
Proof.
  unfold findAsset. simpl.
  destruct (strict_eq (asset item) tradeAsset); reflexivity.
Qed.

(** C9. The balance queries do not look for the configured quote asset:
    whatever [tradeAsset] is, [getTotalBalance], [getAvailableBalance]
    and [getBalance] return the amounts of the first row of the venue's
    response. *)
Theorem balance_queries_return_first_row :
  forall (tradeAsset : option string) (item : BalanceItem) (rest : list BalanceItem),
    BinanceHedgeAdapter.getTotalBalance tradeAsset (Ok (item :: rest))
      = Ok (balance item)
    /\ BinanceHedgeAdapter.getAvailableBalance tradeAsset (Ok (item :: rest))
      = Ok (availableBalance item)
    /\ BinanceAdapter.getBalance tradeAsset (Ok (item :: rest))
      = Ok {| FundingRateMonitor.total := balance item;
              FundingRateMonitor.available := availableBalance item |}.
Proof.
  intros. unfold BinanceHedgeAdapter.getTotalBalance,
    BinanceHedgeAdapter.getAvailableBalance, BinanceAdapter.getBalance.
  rewrite findAsset_head. auto.
Qed.

(** With BNB listed before USDT and ["USDT"] configured, the queries
    answer with the BNB amounts, not with those of the USDT row. *)
Example balance_queries_bnb_first :
  let response := [Scenario.bnbRow; Scenario.usdtRow] in
  BinanceHedgeAdapter.getTotalBalance (Some "USDT"%string) (Ok response)
    = Ok (Decimal.of_Z 5)
  /\ BinanceHedgeAdapter.getAvailableBalance (Some "USDT"%string) (Ok response)
    = Ok (Decimal.of_Z 4)
  /\ quoteAssetRow (Some "USDT"%string) response = Some Scenario.usdtRow
  /\ BinanceHedgeAdapter.getTotalBalance (Some "USDT"%string)
       (Ok [Scenario.usdtRow; Scenario.bnbRow])
    = Ok (Decimal.of_Z 1000).
Proof. vm_compute. repeat split; reflexivity. Qed.

(** ** The hedge table of the controls *)

Section ControlsTable.
Import HedgeControls.
Variable config : Config.
Variable exchanges : JsObject.t HedgeExchangeAdapter.

Lemma bind_ok_inv {E A B} (m : M E A) (f : A -> M E B) tr b :
  bind m f = (tr, Ok b) ->
  exists tr1 a tr2, m = (tr1, Ok a) /\ f a = (tr2, Ok b) /\ tr = tr1 ++ tr2.
Proof.
  unfold bind. destruct m as [tr1 [a|e]]; [|discriminate].
  destruct (f a) as [tr2 r] eqn:Hf. intros H. inversion H; subst.
  exists tr1, a, tr2. auto.
Qed.

Lemma calculateRiskExposure_activeHedges st :
  activeHedges (_calculateRiskExposure config exchanges st).1 = activeHedges st.
Proof.
  unfold _calculateRiskExposure.
  match goal with |- context [match ?b with _ => _ end] => destruct b as [tr [st'|e]] eqn:Hb end;
    [|reflexivity].
  simpl.
  apply bind_ok_inv in Hb as (tr1 & ps & tr2 & _ & Hb & _).
  apply bind_ok_inv in Hb as (tr3 & ex & tr4 & _ & Hb & _).
  apply bind_ok_inv in Hb as (tr5 & u & tr6 & _ & Hb & _).
  unfold ret in Hb. inversion Hb; subst. reflexivity.
Qed.

Lemma reachable_activeHedges st :
  reachable config exchanges st -> activeHedges st = None.
Proof.
  induction 1 as [|st opp now _ IH|st now _ IH|st _ IH|st _ IH|st _ IH|st _ IH].
  - reflexivity.
  - unfold _executeHedge. rewrite IH. exact IH.
  - unfold _monitorActiveHedges. rewrite IH. exact IH.
  - rewrite calculateRiskExposure_activeHedges. exact IH.
  - exact IH.
  - exact IH.
  - unfold emergencyShutdown. simpl.
    destruct (_getAllPositions exchanges) as [calls ps]. exact IH.
Qed.

(** C10. The constructor leaves [activeHedges] undefined and no
    method creates it: in every state the instance reaches on its
    own, [_executeHedge] is rejected with a TypeError for every
    opportunity before any adapter call or event, and
    [_monitorActiveHedges] and [getStatus] throw the same way. *)
Theorem activeHedges_never_initialized :
  forall (st : Controls) (opportunity : Opportunity) (now : Z),
    reachable config exchanges st ->
    activeHedges st = None
    /\ _executeHedge exchanges st opportunity now = (st, [], Throw TypeError)
    /\ _monitorActiveHedges config exchanges st now = (st, [], Throw TypeError)
    /\ getStatus st = Throw TypeError.
Proof.
  intros st opportunity now Hr.
  pose proof (reachable_activeHedges st Hr) as Hn.
  unfold _executeHedge, _monitorActiveHedges, getStatus. rewrite Hn. auto.
Qed.

End ControlsTable.

Lemma activeHedges_never_initialized_witness :
  let st := (HedgeControls.startHedging HedgeControls.constructor).1 in
  HedgeControls.reachable HedgeControls.defaultConfig Scenario.hcExchanges st
  /\ HedgeControls._executeHedge Scenario.hcExchanges st Scenario.opportunity 0
    = (st, [], Throw TypeError)
  /\ HedgeControls.getStatus st = Throw TypeError.
Proof.
  assert (Hr : HedgeControls.reachable HedgeControls.defaultConfig Scenario.hcExchanges
                 (HedgeControls.startHedging HedgeControls.constructor).1).
  { apply HedgeControls.reach_startHedging. apply HedgeControls.reach_constructor. }
  split; [exact Hr|].
  destruct (activeHedges_never_initialized HedgeControls.defaultConfig
              Scenario.hcExchanges _ Scenario.opportunity 0 Hr) as (_ & He & _ & Hs).
  split; assumption.
Defined.

(** ** The monitor's hedge table *)

Section MonitorTable.
Import FundingRateMonitor.
Variable exchanges : JsObject.t ExchangeAdapter.

Lemma nonTerminal_truthy v : nonTerminal v -> truthy (Some v) = true.
Proof. intros [->|(h & -> & _)]; reflexivity. Qed.

Lemma executeHedge_present st symbol longExchange shortExchange now :
  truthy (positionStatus st !! hedgeKey symbol longExchange shortExchange) = true ->
  _executeHedge exchanges st symbol longExchange shortExchange now = (st, []).
Proof. intros H. unfold _executeHedge. rewrite H. reflexivity. Qed.

(** After an open attempt the key holds a truthy value, whatever the
    attempt did. *)
Lemma executeHedge_marks_key st symbol longExchange shortExchange now :
  truthy (positionStatus (_executeHedge exchanges st symbol longExchange shortExchange now).1
            !! hedgeKey symbol longExchange shortExchange) = true.
Proof.
  unfold _executeHedge.
  destruct (truthy (positionStatus st !! hedgeKey symbol longExchange shortExchange)) eqn:Ht.
  - exact Ht.
  - destruct (openHedge exchanges symbol longExchange shortExchange now) as [tr [h|e]];
      simpl; rewrite lookup_insert_eq; reflexivity.
Qed.

(** The controls' open returns as early for a key that has an entry. *)
Lemma controls_executeHedge_present
    (cExchanges : JsObject.t HedgeControls.HedgeExchangeAdapter)
    (cst : HedgeControls.Controls) (hedges : JsObject.t HedgeControls.Hedge)
    (opportunity : HedgeControls.Opportunity) (h : HedgeControls.Hedge) (now : Z) :
  HedgeControls.activeHedges cst = Some hedges ->
  JsObject.get hedges (HedgeControls.hedgeKey opportunity) = Some h ->
  HedgeControls._executeHedge cExchanges cst opportunity now = (cst, [], Ok tt).
Proof.
  intros Ha Hk. unfold HedgeControls._executeHedge. rewrite Ha, Hk. reflexivity.
Qed.

(** C4. An open attempt on a key that already holds a non-terminal
    value performs no adapter call (no balance or price query, no
    order), emits nothing and leaves the state as it is; and whatever
    a first attempt did, the same opportunity re-emitted right after
    it performs nothing. The controls' open, the one that emits
    [hedgeOpened], does the same for a key that has an entry. *)
Theorem executeHedge_idempotent :
  forall (st : Monitor) (symbol longExchange shortExchange : string) (now : Z)
         (v : PositionStatus),
    positionStatus st !! hedgeKey symbol longExchange shortExchange = Some v ->
    nonTerminal v ->
    _executeHedge exchanges st symbol longExchange shortExchange now = (st, [])
    /\ (forall (st0 : Monitor) (now0 : Z),
          let st1 := (_executeHedge exchanges st0 symbol longExchange shortExchange now0).1 in
          _executeHedge exchanges st1 symbol longExchange shortExchange now = (st1, []))
    /\ (forall cExchanges cst hedges opportunity h,
          HedgeControls.activeHedges cst = Some hedges ->
          JsObject.get hedges (HedgeControls.hedgeKey opportunity) = Some h ->
          HedgeControls._executeHedge cExchanges cst opportunity now = (cst, [], Ok tt)).
Proof.
  intros st symbol longExchange shortExchange now v Hv Hnt. split; [|split].
  - apply executeHedge_present. rewrite Hv. now apply nonTerminal_truthy.
  - intros st0 now0 st1. apply executeHedge_present.
    apply executeHedge_marks_key.
  - intros. eapply controls_executeHedge_present; eassumption.
Qed.

End MonitorTable.

Lemma executeHedge_idempotent_witness :
  FundingRateMonitor._executeHedge Scenario.monExchanges Scenario.monOpening
    "BTCUSDT" "X" "Y" 7 = (Scenario.monOpening, []).
Proof.
  apply (executeHedge_idempotent Scenario.monExchanges Scenario.monOpening
           "BTCUSDT" "X" "Y" 7 (FundingRateMonitor.StatusString "opening")).
  - unfold Scenario.monOpening, FundingRateMonitor.set_positionStatus. simpl.
    apply lookup_insert_eq.
  - left. reflexivity.
Defined.

(** ** History and alert counters *)

Section Ingest.
Import FundingRateMonitor.
Variable config : Config.

Lemma processRate_history exchange now st tr hc rateInfo :
  history (processRate config exchange now (st, tr, hc) rateInfo).1.1
  = history st ++ [{| he_exchange := exchange; he_symbol := ri_symbol rateInfo;
                      he_rate := ri_rate rateInfo; he_timestamp := now;
                      he_nextTime := ri_nextTime rateInfo |}].
Proof.
  unfold processRate.
  destruct (Decimal.gt (Decimal.abs (ri_rate rateInfo)) (critical (thresholds config)));
    [reflexivity|].
  destruct (Decimal.gt (Decimal.abs (ri_rate rateInfo)) (warning (thresholds config)));
    reflexivity.
Qed.

Lemma fold_processRate_history exchange now rateInfos :
  forall acc,
    history (fold_left (processRate config exchange now) rateInfos acc).1.1
    = history acc.1.1
        ++ map (fun rateInfo =>
                  {| he_exchange := exchange; he_symbol := ri_symbol rateInfo;
                     he_rate := ri_rate rateInfo; he_timestamp := now;
                     he_nextTime := ri_nextTime rateInfo |})
               rateInfos.
Proof.
  induction rateInfos as [|r rs IH]; intros [[st tr] hc]; cbn [fold_left map].
  - now rewrite app_nil_r.
  - rewrite IH, processRate_history, <- app_assoc. reflexivity.
Qed.

Lemma processRates_history st exchange now rateInfos :
  history (_processRates config st exchange now rateInfos).1
  = history st
      ++ map (fun rateInfo =>
                {| he_exchange := exchange; he_symbol := ri_symbol rateInfo;
                   he_rate := ri_rate rateInfo; he_timestamp := now;
                   he_nextTime := ri_nextTime rateInfo |})
             rateInfos.
Proof.
  unfold _processRates.
  pose proof (fold_processRate_history exchange now rateInfos (st, [], false)) as H.
  destruct (fold_left (processRate config exchange now) rateInfos (st, [], false))
    as [[st1 tr1] hc1].
  exact H.
Qed.

(** C6, as the code has it. Every ingested observation is appended
    to the history and nothing is removed: after a batch the history
    is the old history followed by one entry per observation, in
    order, so its length grows by the size of the batch. *)
Theorem history_appended_never_evicted :
  forall (st : Monitor) (exchange : string) (now : Z) (rateInfos : list RateInfo),
    history (_processRates config st exchange now rateInfos).1
    = history st
        ++ map (fun rateInfo =>
                  {| he_exchange := exchange; he_symbol := ri_symbol rateInfo;
                     he_rate := ri_rate rateInfo; he_timestamp := now;
                     he_nextTime := ri_nextTime rateInfo |})
               rateInfos
    /\ length (history (_processRates config st exchange now rateInfos).1)
       = (length (history st) + length rateInfos)%nat.
Proof.
  intros st exchange now rateInfos.
  split; [apply processRates_history|].
  rewrite processRates_history, length_app, length_map. reflexivity.
Qed.

End Ingest.

(** C6, as stated, fails: 201 observations ingested into the empty
    history leave 201 entries, more than the cap of 200, and the oldest
    one is still the first. *)
Lemma history_exceeds_cap :
  let observations :=
    Scenario.rateInfo (Decimal.dec 1 4) :: repeat (Scenario.rateInfo (Decimal.dec 2 4)) 200 in
  let st := (FundingRateMonitor._processRates FundingRateMonitor.defaultConfig
               FundingRateMonitor.initial "binance" 0 observations).1 in
  ~ (length (FundingRateMonitor.history st) <= 200)%nat
  /\ FundingRateMonitor.he_rate <$> head (FundingRateMonitor.history st)
     = Some (Decimal.dec 1 4).
Proof.
  intros observations st. subst st.
  rewrite processRates_history. split.
  - rewrite length_app, length_map. subst observations.
    cbn [length]. rewrite repeat_length. simpl. lia.
  - reflexivity.
Qed.

Lemma Decimal_lte_not_gt x y : Decimal.lte x y = true -> Decimal.gt x y = false.
Proof.
  unfold Decimal.lte, Decimal.gt.
  destruct (Decimal.cmp x y) as [[| |]|]; congruence.
Qed.

Section AlertCounters.
Import FundingRateMonitor.
Variable config : Config.

Lemma processRate_alertCounts exchange now st tr hc rateInfo :
  alertCounts (processRate config exchange now (st, tr, hc) rateInfo).1.1
  = let key := alertKey exchange (ri_symbol rateInfo) in
    if Decimal.gt (Decimal.abs (ri_rate rateInfo)) (warning (thresholds config))
    then <[key := default 0 (alertCounts st !! key) + 1]> (alertCounts st)
    else <[key := 0]> (alertCounts st).
Proof.
  unfold processRate.
  destruct (Decimal.gt (Decimal.abs (ri_rate rateInfo)) (critical (thresholds config)));
    [reflexivity|].
  destruct (Decimal.gt (Decimal.abs (ri_rate rateInfo)) (warning (thresholds config)));
    reflexivity.
Qed.

Lemma processRate_countsNonneg exchange now st tr hc rateInfo :
  countsNonneg st ->
  countsNonneg (processRate config exchange now (st, tr, hc) rateInfo).1.1.
Proof.
  intros Hnn. unfold countsNonneg. rewrite processRate_alertCounts. cbv zeta.
  destruct (Decimal.gt _ _).
  - apply map_Forall_insert_2; [|exact Hnn].
    destruct (alertCounts st !! alertKey exchange (ri_symbol rateInfo)) as [c|] eqn:Hc;
      simpl; [|lia].
    specialize (Hnn _ _ Hc). simpl in Hnn. lia.
  - apply map_Forall_insert_2; [lia|exact Hnn].
Qed.

Lemma fold_processRate_countsNonneg exchange now rateInfos :
  forall acc,
    countsNonneg acc.1.1 ->
    countsNonneg (fold_left (processRate config exchange now) rateInfos acc).1.1.
Proof.
  induction rateInfos as [|r rs IH]; intros [[st tr] hc] Hnn; cbn [fold_left].
  - exact Hnn.
  - apply IH.
    pose proof (processRate_countsNonneg exchange now st tr hc r Hnn) as H.
    destruct (processRate config exchange now (st, tr, hc) r) as [[st' tr'] hc'].
    exact H.
Qed.

Lemma processRates_countsNonneg st exchange now rateInfos :
  countsNonneg st -> countsNonneg (_processRates config st exchange now rateInfos).1.
Proof.
  intros Hnn. unfold _processRates.
  pose proof (fold_processRate_countsNonneg exchange now rateInfos (st, [], false) Hnn) as H.
  destruct (fold_left (processRate config exchange now) rateInfos (st, [], false))
    as [[st1 tr1] hc1].
  exact H.
Qed.

Lemma processRates_snoc_alertCounts st exchange now rateInfos rateInfo :
  alertCounts (_processRates config st exchange now (rateInfos ++ [rateInfo])).1
  = let before := alertCounts (_processRates config st exchange now rateInfos).1 in
    let key := alertKey exchange (ri_symbol rateInfo) in
    if Decimal.gt (Decimal.abs (ri_rate rateInfo)) (warning (thresholds config))
    then <[key := default 0 (before !! key) + 1]> before
    else <[key := 0]> before.
Proof.
  unfold _processRates. rewrite fold_left_app. cbn [fold_left].
  destruct (fold_left (processRate config exchange now) rateInfos (st, [], false))
    as [[st1 tr1] hc1].
  pose proof (processRate_alertCounts exchange now st1 tr1 hc1 rateInfo) as H.
  destruct (processRate config exchange now (st1, tr1, hc1) rateInfo) as [[st2 tr2] hc2].
  exact H.
Qed.

(** C8. In [_processRates], each observation of a batch sets the
    alert counter of its exchange and symbol: to 0 when the absolute
    rate is at most the warning threshold, and to the value the
    counter had after the observations before it (0 when there was
    none) plus 1 when it is above; the other counters are as they
    were; an empty batch changes nothing; and the counters, which
    start out empty, stay non-negative through every batch. *)
Theorem alert_counter_update :
  forall (st : Monitor) (exchange : string) (now : Z)
         (rateInfos : list RateInfo) (rateInfo : RateInfo),
    countsNonneg st ->
    let before := (_processRates config st exchange now rateInfos).1 in
    let after := (_processRates config st exchange now (rateInfos ++ [rateInfo])).1 in
    let key := alertKey exchange (ri_symbol rateInfo) in
    let absRate := Decimal.abs (ri_rate rateInfo) in
    (Decimal.lte absRate (warning (thresholds config)) = true ->
       alertCounts after !! key = Some 0)
    /\ (Decimal.gt absRate (warning (thresholds config)) = true ->
       alertCounts after !! key = Some (default 0 (alertCounts before !! key) + 1))
    /\ (forall k, k <> key -> alertCounts after !! k = alertCounts before !! k)
    /\ (_processRates config st exchange now []).1 = st
    /\ countsNonneg before
    /\ countsNonneg after
    /\ countsNonneg initial.
Proof.
  intros st exchange now rateInfos rateInfo Hnn before after key absRate.
  subst before after. rewrite processRates_snoc_alertCounts. cbv zeta. fold key absRate.
  repeat split.
  - intros Hle. rewrite (Decimal_lte_not_gt _ _ Hle). apply lookup_insert_eq.
  - intros Hgt. rewrite Hgt. apply lookup_insert_eq.
  - intros k Hk. destruct (Decimal.gt absRate _); now apply lookup_insert_ne.
  - now apply processRates_countsNonneg.
  - now apply processRates_countsNonneg.
  - unfold countsNonneg, initial. simpl. apply map_Forall_empty.
Qed.

End AlertCounters.

Lemma alert_counter_update_witness :
  let st := Scenario.monAfterRates in
  let before :=
    (FundingRateMonitor._processRates Scenario.autoHedgeConfig st "X" 1
       [Scenario.rateInfo (Decimal.dec 12 4)]).1 in
  let after :=
    (FundingRateMonitor._processRates Scenario.autoHedgeConfig st "X" 1
       ([Scenario.rateInfo (Decimal.dec 12 4)] ++ [Scenario.rateInfo (Decimal.dec 13 4)])).1 in
  FundingRateMonitor.countsNonneg st
  /\ FundingRateMonitor.alertCounts after !! FundingRateMonitor.alertKey "X" "BTCUSDT"
     = Some (default 0 (FundingRateMonitor.alertCounts before
                          !! FundingRateMonitor.alertKey "X" "BTCUSDT") + 1)
  /\ FundingRateMonitor.alertCounts after !! FundingRateMonitor.alertKey "X" "BTCUSDT"
     = Some 3.
Proof.
  intros st before after.
  assert (Hnn : FundingRateMonitor.countsNonneg Scenario.monAfterRates).
  { unfold Scenario.monAfterRates.
    apply processRates_countsNonneg, processRates_countsNonneg.
    unfold FundingRateMonitor.countsNonneg. simpl. apply map_Forall_empty. }
  split; [exact Hnn|].
  destruct (alert_counter_update Scenario.autoHedgeConfig Scenario.monAfterRates
              "X" 1 [Scenario.rateInfo (Decimal.dec 12 4)]
              (Scenario.rateInfo (Decimal.dec 13 4)) Hnn)
    as (_ & Hgt & _).
  split; [apply Hgt; vm_compute; reflexivity|].
  vm_compute. reflexivity.
Defined.

(** ** The risk tick and the un-awaited portfolio total *)

Section RiskTick.
Import HedgeControls.
Variable config : Config.
Variable exchanges : JsObject.t HedgeExchangeAdapter.

Lemma onAllExchanges_calls {A} (P : Effect -> bool) (c : string -> Effect)
    (f : HedgeExchangeAdapter -> result A) :
  (forall name, P (c name) = true) ->
  forallb P (onAllExchanges exchanges c f).1 = true.
Proof.
  intros Hc. unfold onAllExchanges. simpl.
  induction exchanges as [|[name ex] exs IH]; simpl; [reflexivity|].
  now rewrite Hc, IH.
Qed.

Lemma getTotalPortfolioValue_promise :
  exists settles, (_getTotalPortfolioValue exchanges).2 = VPromise settles.
Proof.
  unfold _getTotalPortfolioValue.
  destruct (onAllExchanges exchanges CallGetTotalBalance getTotalBalance) as [calls r].
  simpl. eauto.
Qed.

Lemma getTotalPortfolioValue_calls (P : Effect -> bool) :
  (forall name, P (CallGetTotalBalance name) = true) ->
  forallb P (_getTotalPortfolioValue exchanges).1 = true.
Proof.
  intros HP. unfold _getTotalPortfolioValue.
  pose proof (onAllExchanges_calls P CallGetTotalBalance getTotalBalance HP) as H.
  destruct (onAllExchanges exchanges CallGetTotalBalance getTotalBalance) as [calls r].
  exact H.
Qed.

Lemma calculateNetExposure_throws positions :
  (_calculateNetExposure exchanges positions).2 = Throw DecimalError.
Proof.
  unfold _calculateNetExposure.
  destruct getTotalPortfolioValue_promise as [settles Hs].
  destruct (_getTotalPortfolioValue exchanges) as [calls total].
  simpl in Hs. subst total. reflexivity.
Qed.

Lemma calculateNetExposure_calls (P : Effect -> bool) positions :
  (forall name, P (CallGetTotalBalance name) = true) ->
  forallb P (_calculateNetExposure exchanges positions).1 = true.
Proof.
  intros HP. unfold _calculateNetExposure.
  pose proof (getTotalPortfolioValue_calls P HP) as H.
  destruct (_getTotalPortfolioValue exchanges) as [calls total].
  exact H.
Qed.

(** C3, on the code. The divisor of the exposure ratio is the promise
    that [_getTotalPortfolioValue()] returns, not its awaited value:
    [_calculateNetExposure] throws decimal.js's invalid-argument
    error for every set of positions, so a risk tick never computes a
    ratio, never emits [riskExceeded], leaves the stored exposure
    as it was and ends by emitting an error. *)
Theorem risk_tick_divides_by_promise :
  forall (st : Controls) (positions : JsObject.t (JsObject.t Position)),
    (_calculateNetExposure exchanges positions).2 = Throw DecimalError
    /\ (_calculateRiskExposure config exchanges st).1 = st
    /\ forallb (fun e => negb (isRiskExceeded e))
               (_calculateRiskExposure config exchanges st).2 = true
    /\ exists e, last (_calculateRiskExposure config exchanges st).2 = Some (EmitError e).
Proof.
  intros st positions. split; [apply calculateNetExposure_throws|].
  unfold _calculateRiskExposure.
  pose proof (onAllExchanges_calls (fun e => negb (isRiskExceeded e))
                CallGetPositions getPositions (fun _ => eq_refl)) as Hp.
  unfold _getAllPositions.
  destruct (onAllExchanges exchanges CallGetPositions getPositions) as [tr1 [ps|e1]];
    simpl in Hp.
  - cbn [bind].
    pose proof (calculateNetExposure_throws ps) as Ht.
    pose proof (calculateNetExposure_calls (fun e => negb (isRiskExceeded e)) ps
                  (fun _ => eq_refl)) as Hc.
    destruct (_calculateNetExposure exchanges ps) as [tr2 r]. simpl in Ht, Hc.
    subst r. cbn [bind]. simpl.
    repeat split.
    + rewrite !forallb_app, Hp, Hc. reflexivity.
    + exists DecimalError. apply last_snoc.
  - cbn [bind]. simpl. repeat split.
    + rewrite forallb_app, Hp. reflexivity.
    + exists e1. apply last_snoc.
Qed.

End RiskTick.

(** On X's three long positions worth 300 against a total balance of
    1000 the ratio asked for is 0.3, above the ceiling of 0.1; the tick
    queries the positions and the balance and emits the error. *)
Example risk_tick_positions_worth_300 :
  HedgeControls.exposureRatio_spec
    (HedgeControls.netValue [("X"%string, Scenario.riskPositions)]) (Decimal.of_Z 1000)
  = Decimal.dec 3 1
  /\ HedgeControls._calculateRiskExposure HedgeControls.defaultConfig
       Scenario.riskExchanges HedgeControls.constructor
     = (HedgeControls.constructor,
        [HedgeControls.CallGetPositions "X"; HedgeControls.CallGetTotalBalance "X";
         HedgeControls.EmitError DecimalError]).
Proof. vm_compute. split; reflexivity. Qed.

(** ** De-risking *)

Section DeRisk.
Import HedgeControls.
Variable config : Config.
Variable exchanges : JsObject.t HedgeExchangeAdapter.

Lemma reduceBody_throws st :
  exists tr e,
    reduceBody config exchanges st = (tr, Throw e)
    /\ forallb (fun e => negb (isClosePosition e)) tr = true.
Proof.
  unfold reduceBody, _getAllPositions.
  pose proof (onAllExchanges_calls exchanges (fun e => negb (isClosePosition e))
                CallGetPositions getPositions (fun _ => eq_refl)) as Hp.
  destruct (onAllExchanges exchanges CallGetPositions getPositions) as [tr1 [ps|e1]];
    simpl in Hp; cbn [bind].
  - destruct (getTotalPortfolioValue_promise exchanges) as [settles Hs].
    pose proof (getTotalPortfolioValue_calls exchanges
                  (fun e => negb (isClosePosition e)) (fun _ => eq_refl)) as Hc.
    destruct (_getTotalPortfolioValue exchanges) as [calls total].
    simpl in Hs, Hc. subst total. cbn [toDecimal bind].
    exists (tr1 ++ calls), DecimalError. split; [reflexivity|].
    now rewrite forallb_app, Hp, Hc.
  - exists tr1, e1. auto.
Qed.

(** C7, on the code. [_reduceExposure] multiplies the target by the
    promise that [_getTotalPortfolioValue()] returns, which decimal.js
    rejects, so the loop that closes positions is never entered: no
    de-risk invocation issues a close, and unless the emergency stop
    is set it ends by emitting the wrapped error. *)
Theorem reduceExposure_never_closes :
  forall (st : Controls),
    forallb (fun e => negb (isClosePosition e)) (_reduceExposure config exchanges st) = true
    /\ if emergencyStop st
       then _reduceExposure config exchanges st = []
       else exists e,
           last (_reduceExposure config exchanges st)
           = Some (EmitError (Wrapped "降低风险失败: " e)).
Proof.
  intros st. unfold _reduceExposure.
  destruct (emergencyStop st); [split; reflexivity|].
  destruct (reduceBody_throws st) as (tr & e & Hb & Hc). rewrite Hb. split.
  - rewrite forallb_app, Hc. reflexivity.
  - exists e. apply last_snoc.
Qed.

End DeRisk.

(** With exposure 0.3 and X's three long positions, the candidates are
    sorted A (-50), C (-10), B (+30), and the closing loop, given the
    target of 220, would sell 1 of A, 1 of C and 0.2 of B in that order;
    the invocation itself queries the positions and the balance and
    emits the error without a single close. *)
Example deRisk_three_longs :
  HedgeControls.reduceCandidates Scenario.riskControls
    [Scenario.flat "A" (-50); Scenario.flat "B" 30; Scenario.flat "C" (-10)]
  = [Scenario.flat "A" (-50); Scenario.flat "C" (-10); Scenario.flat "B" 30]
  /\ HedgeControls._closePositionsUntilTarget Scenario.riskExchanges
       [Scenario.flat "A" (-50); Scenario.flat "C" (-10); Scenario.flat "B" 30]
       (Decimal.of_Z 220)
     = [HedgeControls.CallClosePosition "X" (Some "A"%string) Sell (Some (Decimal.of_Z 1));
        HedgeControls.CallClosePosition "X" (Some "C"%string) Sell (Some (Decimal.of_Z 1));
        HedgeControls.CallClosePosition "X" (Some "B"%string) Sell (Some (Decimal.dec 2 1))]
  /\ HedgeControls._reduceExposure HedgeControls.defaultConfig Scenario.riskExchanges
       Scenario.riskControls
     = [HedgeControls.CallGetPositions "X"; HedgeControls.CallGetTotalBalance "X";
        HedgeControls.EmitError (Wrapped "降低风险失败: " DecimalError)].
Proof. vm_compute. repeat split; reflexivity. Qed.

(** ** Opening a hedge from the monitor *)

Section MonitorOpen.
Import FundingRateMonitor.
Variable exchanges : JsObject.t ExchangeAdapter.

Lemma openHedge_insufficient symbol longExchange shortExchange now exL exS longBal shortBal :
  JsObject.get exchanges longExchange = Some exL ->
  JsObject.get exchanges shortExchange = Some exS ->
  getBalance exL = Ok longBal ->
  getBalance exS = Ok shortBal ->
  Decimal.lte (maxSizeFor longBal shortBal) (Decimal.of_Z 0) = true ->
  openHedge exchanges symbol longExchange shortExchange now
  = ([CallGetBalance longExchange; CallGetBalance shortExchange],
     Throw (Error "可用资金不足")).
Proof.
  intros HL HS HbL HbS Hle.
  unfold openHedge, callOn. rewrite HL, HS, HbL, HbS.
  cbn [promiseAll2 bind]. fold (maxSizeFor longBal shortBal). rewrite Hle.
  reflexivity.
Qed.

Lemma openHedge_orders symbol longExchange shortExchange now exL exS longBal shortBal
    longPrice shortPrice :
  JsObject.get exchanges longExchange = Some exL ->
  JsObject.get exchanges shortExchange = Some exS ->
  getBalance exL = Ok longBal ->
  getBalance exS = Ok shortBal ->
  Decimal.lte (maxSizeFor longBal shortBal) (Decimal.of_Z 0) = false ->
  getPrice exL symbol = Ok longPrice ->
  getPrice exS symbol = Ok shortPrice ->
  let maxSize := maxSizeFor longBal shortBal in
  let longQty := quantityFor maxSize longPrice in
  let shortQty := quantityFor maxSize shortPrice in
  openHedge exchanges symbol longExchange shortExchange now
  = ([CallGetBalance longExchange; CallGetBalance shortExchange;
      CallGetPrice longExchange symbol; CallGetPrice shortExchange symbol;
      CallCreateOrder longExchange symbol Buy longQty;
      CallCreateOrder shortExchange symbol Sell shortQty],
     match createOrder exL symbol Buy longQty, createOrder exS symbol Sell shortQty with
     | Ok longOrder, Ok shortOrder =>
         Ok {| status := "opened";
               longExchange := longExchange; longOrder := longOrder;
               shortExchange := shortExchange; shortOrder := shortOrder;
               openedAt := now |}
     | Throw e, _ => Throw e
     | _, Throw e => Throw e
     end).
Proof.
  intros HL HS HbL HbS Hle HpL HpS maxSize longQty shortQty.
  unfold openHedge, callOn. rewrite HL, HS, HbL, HbS.
  cbn [promiseAll2 bind]. fold (maxSizeFor longBal shortBal). rewrite Hle.
  rewrite HpL, HpS. cbn [promiseAll2 bind].
  fold maxSize. fold (quantityFor maxSize longPrice) (quantityFor maxSize shortPrice).
  fold longQty shortQty.
  destruct (createOrder exL symbol Buy longQty) as [lo|e1],
           (createOrder exS symbol Sell shortQty) as [so|e2]; reflexivity.
Qed.

(** The open path only queries balances and prices and creates
    orders. *)
Lemma openHedge_no_close symbol longExchange shortExchange now :
  forallb (fun e => negb (isClosePosition e))
          (openHedge exchanges symbol longExchange shortExchange now).1 = true.
Proof.
  unfold openHedge, callOn.
  destruct (JsObject.get exchanges longExchange) as [exL|]; [|reflexivity].
  destruct (JsObject.get exchanges shortExchange) as [exS|]; [|reflexivity].
  destruct (getBalance exL) as [bl|e1]; [|reflexivity].
  destruct (getBalance exS) as [bs|e2]; [|reflexivity].
  cbn [promiseAll2 bind].
  destruct (Decimal.lte _ _); [reflexivity|].
  destruct (getPrice exL symbol) as [pl|e3]; [|reflexivity].
  destruct (getPrice exS symbol) as [ps|e4]; [|reflexivity].
  cbn [promiseAll2 bind].
  destruct (createOrder exL symbol Buy _) as [lo|e5]; [|reflexivity].
  destruct (createOrder exS symbol Sell _) as [so|e6]; reflexivity.
Qed.

Lemma executeHedge_no_close st symbol longExchange shortExchange now :
  forallb (fun e => negb (isClosePosition e))
          (_executeHedge exchanges st symbol longExchange shortExchange now).2 = true.
Proof.
  unfold _executeHedge.
  destruct (truthy _); [reflexivity|].
  pose proof (openHedge_no_close symbol longExchange shortExchange now) as H.
  destruct (openHedge exchanges symbol longExchange shortExchange now) as [tr [h|e]];
    exact H.
Qed.

Lemma openHedge_order_sides symbol longExchange shortExchange now :
  Forall (orderOnSide longExchange shortExchange)
         (openHedge exchanges symbol longExchange shortExchange now).1.
Proof.
  unfold openHedge, callOn.
  destruct (JsObject.get exchanges longExchange) as [exL|]; [|constructor].
  destruct (JsObject.get exchanges shortExchange) as [exS|];
    [|repeat constructor].
  destruct (getBalance exL) as [bl|e1]; [|repeat constructor].
  destruct (getBalance exS) as [bs|e2]; [|repeat constructor].
  cbn [promiseAll2 bind].
  destruct (Decimal.lte _ _); [repeat constructor|].
  destruct (getPrice exL symbol) as [pl|e3]; [|repeat constructor].
  destruct (getPrice exS symbol) as [ps|e4]; [|repeat constructor].
  cbn [promiseAll2 bind].
  destruct (createOrder exL symbol Buy _) as [lo|e5]; [|repeat constructor].
  destruct (createOrder exS symbol Sell _) as [so|e6]; repeat constructor.
Qed.

Lemma executeHedge_order_sides st symbol longExchange shortExchange now :
  Forall (orderOnSide longExchange shortExchange)
         (_executeHedge exchanges st symbol longExchange shortExchange now).2.
Proof.
  unfold _executeHedge.
  destruct (truthy _); [constructor|].
  pose proof (openHedge_order_sides symbol longExchange shortExchange now) as H.
  destruct (openHedge exchanges symbol longExchange shortExchange now) as [tr [h|e]];
    exact H.
Qed.

Lemma executeHedge_failed st symbol longExchange shortExchange now tr e :
  truthy (positionStatus st !! hedgeKey symbol longExchange shortExchange) = false ->
  openHedge exchanges symbol longExchange shortExchange now = (tr, Throw e) ->
  positionStatus (_executeHedge exchanges st symbol longExchange shortExchange now).1
    !! hedgeKey symbol longExchange shortExchange = Some (StatusString "failed")
  /\ (_executeHedge exchanges st symbol longExchange shortExchange now).2 = tr.
Proof.
  intros Ht Ho. unfold _executeHedge. rewrite Ht, Ho. simpl.
  split; [apply lookup_insert_eq|reflexivity].
Qed.

End MonitorOpen.

(** ** Opening a hedge from the controls *)

Section ControlsOpen.
Import HedgeControls.
Variable exchanges : JsObject.t HedgeExchangeAdapter.

Lemma controls_openHedge_orders opportunity now exL exS longBalance shortBalance :
  JsObject.get exchanges (op_longExchange opportunity) = Some exL ->
  JsObject.get exchanges (op_shortExchange opportunity) = Some exS ->
  getAvailableBalance exL = Ok longBalance ->
  getAvailableBalance exS = Ok shortBalance ->
  let symbol := op_symbol opportunity in
  let size := hedgeSizeFor opportunity longBalance shortBalance in
  openHedge exchanges opportunity now
  = ([CallGetAvailableBalance (op_longExchange opportunity);
      CallGetAvailableBalance (op_shortExchange opportunity);
      CallCreateOrder (op_longExchange opportunity) symbol Buy size;
      CallCreateOrder (op_shortExchange opportunity) symbol Sell size],
     match createOrder exL symbol Buy size, createOrder exS symbol Sell size with
     | Ok longOrder, Ok shortOrder =>
         Ok {| h_opportunity := opportunity; h_status := "active";
               h_longOrder := Some longOrder; h_shortOrder := Some shortOrder;
               h_size := Some size; h_entryTime := Some now;
               h_currentSpread := None; h_currentRatio := None;
               h_pnl := None; h_exitTime := None; h_closeReason := None;
               h_finalPnl := None |}
     | Throw e, _ => Throw e
     | _, Throw e => Throw e
     end).
Proof.
  intros HL HS HbL HbS symbol size.
  unfold openHedge, _calculateHedgeSize, callOn. rewrite HL, HS, HbL, HbS.
  cbn [promiseAll2 bind ret app].
  fold (hedgeSizeFor opportunity longBalance shortBalance). fold size. fold symbol.
  destruct (createOrder exL symbol Buy size) as [lo|e1],
           (createOrder exS symbol Sell size) as [so|e2]; reflexivity.
Qed.

Lemma controls_openHedge_no_close opportunity now :
  forallb (fun e => negb (isClosePosition e)) (openHedge exchanges opportunity now).1 = true.
Proof.
  unfold openHedge, _calculateHedgeSize, callOn.
  destruct (JsObject.get exchanges (op_longExchange opportunity)) as [exL|]; [|reflexivity].
  destruct (JsObject.get exchanges (op_shortExchange opportunity)) as [exS|]; [|reflexivity].
  destruct (getAvailableBalance exL) as [bl|e1]; [|reflexivity].
  destruct (getAvailableBalance exS) as [bs|e2]; [|reflexivity].
  cbn [promiseAll2 bind ret app].
  destruct (createOrder exL _ Buy _) as [lo|e5]; [|reflexivity].
  destruct (createOrder exS _ Sell _) as [so|e6]; reflexivity.
Qed.

Lemma controls_executeHedge_no_close st opportunity now :
  forallb (fun e => negb (isClosePosition e))
          (_executeHedge exchanges st opportunity now).1.2 = true.
Proof.
  unfold _executeHedge.
  destruct (activeHedges st) as [hedges|]; [|reflexivity].
  destruct (JsObject.get hedges (hedgeKey opportunity)); [reflexivity|].
  pose proof (controls_openHedge_no_close opportunity now) as H.
  destruct (openHedge exchanges opportunity now) as [tr [h|e]]; simpl in *;
    rewrite forallb_app, H; reflexivity.
Qed.

Lemma controls_executeHedge_failed st hedges opportunity now tr e :
  activeHedges st = Some hedges ->
  JsObject.get hedges (hedgeKey opportunity) = None ->
  openHedge exchanges opportunity now = (tr, Throw e) ->
  let r := _executeHedge exchanges st opportunity now in
  hedgeStatus r.1.1 (hedgeKey opportunity) = Some "failed"%string
  /\ r.1.2 = tr ++ [EmitHedgeFailed (hedgeKey opportunity) e]
  /\ r.2 = Ok tt.
Proof.
  intros Ha Hk Ho r. subst r. unfold _executeHedge. rewrite Ha, Hk, Ho. simpl.
  unfold hedgeStatus. simpl. rewrite JsObject_get_set_eq. auto.
Qed.

End ControlsOpen.

(** ** One leg filled, the other rejected *)

(** C2, as the code has it. When the two orders of an open have been
    submitted and exactly one of them is rejected, the hedge ends in
    state failed and no close order is issued for the leg that was
    filled: the monitor performs nothing after the two orders, and the
    controls emit [hedgeFailed] with the key and the rejection, and
    nothing else. *)
Theorem partial_fill_not_reconciled :
  forall (mExchanges : JsObject.t FundingRateMonitor.ExchangeAdapter)
         (st : FundingRateMonitor.Monitor) (symbol longExchange shortExchange : string)
         (now : Z) (mL mS : FundingRateMonitor.ExchangeAdapter)
         (longBal shortBal : FundingRateMonitor.Balance) (longPrice shortPrice : Decimal.t)
         (cExchanges : JsObject.t HedgeControls.HedgeExchangeAdapter)
         (cst : HedgeControls.Controls) (hedges : JsObject.t HedgeControls.Hedge)
         (opportunity : HedgeControls.Opportunity)
         (cL cS : HedgeControls.HedgeExchangeAdapter) (longBalance shortBalance : Decimal.t),
    let key := FundingRateMonitor.hedgeKey symbol longExchange shortExchange in
    let maxSize := FundingRateMonitor.maxSizeFor longBal shortBal in
    let longQty := FundingRateMonitor.quantityFor maxSize longPrice in
    let shortQty := FundingRateMonitor.quantityFor maxSize shortPrice in
    let size := HedgeControls.hedgeSizeFor opportunity longBalance shortBalance in
    let ckey := HedgeControls.hedgeKey opportunity in
    (* the monitor reaches the orders, and one of them is rejected *)
    FundingRateMonitor.truthy (FundingRateMonitor.positionStatus st !! key) = false ->
    JsObject.get mExchanges longExchange = Some mL ->
    JsObject.get mExchanges shortExchange = Some mS ->
    FundingRateMonitor.getBalance mL = Ok longBal ->
    FundingRateMonitor.getBalance mS = Ok shortBal ->
    Decimal.lte maxSize (Decimal.of_Z 0) = false ->
    FundingRateMonitor.getPrice mL symbol = Ok longPrice ->
    FundingRateMonitor.getPrice mS symbol = Ok shortPrice ->
    is_ok (FundingRateMonitor.createOrder mL symbol Buy longQty)
      = negb (is_ok (FundingRateMonitor.createOrder mS symbol Sell shortQty)) ->
    (* the controls reach the orders, and one of them is rejected *)
    HedgeControls.activeHedges cst = Some hedges ->
    JsObject.get hedges ckey = None ->
    JsObject.get cExchanges (HedgeControls.op_longExchange opportunity) = Some cL ->
    JsObject.get cExchanges (HedgeControls.op_shortExchange opportunity) = Some cS ->
    HedgeControls.getAvailableBalance cL = Ok longBalance ->
    HedgeControls.getAvailableBalance cS = Ok shortBalance ->
    is_ok (HedgeControls.createOrder cL (HedgeControls.op_symbol opportunity) Buy size)
      = negb (is_ok (HedgeControls.createOrder cS (HedgeControls.op_symbol opportunity)
                       Sell size)) ->
    let m := FundingRateMonitor._executeHedge mExchanges st symbol longExchange shortExchange
               now in
    let c := HedgeControls._executeHedge cExchanges cst opportunity now in
    (FundingRateMonitor.positionStatus m.1 !! key
       = Some (FundingRateMonitor.StatusString "failed")
     /\ m.2 = [FundingRateMonitor.CallGetBalance longExchange;
               FundingRateMonitor.CallGetBalance shortExchange;
               FundingRateMonitor.CallGetPrice longExchange symbol;
               FundingRateMonitor.CallGetPrice shortExchange symbol;
               FundingRateMonitor.CallCreateOrder longExchange symbol Buy longQty;
               FundingRateMonitor.CallCreateOrder shortExchange symbol Sell shortQty])
    /\ (HedgeControls.hedgeStatus c.1.1 ckey = Some "failed"%string
        /\ exists e,
            c.1.2 = [HedgeControls.CallGetAvailableBalance
                       (HedgeControls.op_longExchange opportunity);
                     HedgeControls.CallGetAvailableBalance
                       (HedgeControls.op_shortExchange opportunity);
                     HedgeControls.CallCreateOrder
                       (HedgeControls.op_longExchange opportunity)
                       (HedgeControls.op_symbol opportunity) Buy size;
                     HedgeControls.CallCreateOrder
                       (HedgeControls.op_shortExchange opportunity)
                       (HedgeControls.op_symbol opportunity) Sell size;
                     HedgeControls.EmitHedgeFailed ckey e]).
Proof.
  intros mExchanges st symbol longExchange shortExchange now mL mS longBal shortBal
    longPrice shortPrice cExchanges cst hedges opportunity cL cS longBalance shortBalance
    key maxSize longQty shortQty size ckey
    Ht HmL HmS HbL HbS Hle HpL HpS Hone Ha Hk HcL HcS HaL HaS Hcone m c.
  split.
  - pose proof (openHedge_orders mExchanges symbol longExchange shortExchange now
                  mL mS longBal shortBal longPrice shortPrice
                  HmL HmS HbL HbS Hle HpL HpS) as Ho.
    cbv zeta in Ho. fold maxSize longQty shortQty in Ho.
    assert (He : exists e,
               FundingRateMonitor.openHedge mExchanges symbol longExchange shortExchange now
               = ([FundingRateMonitor.CallGetBalance longExchange;
                   FundingRateMonitor.CallGetBalance shortExchange;
                   FundingRateMonitor.CallGetPrice longExchange symbol;
                   FundingRateMonitor.CallGetPrice shortExchange symbol;
                   FundingRateMonitor.CallCreateOrder longExchange symbol Buy longQty;
                   FundingRateMonitor.CallCreateOrder shortExchange symbol Sell shortQty],
                  Throw e)).
    { rewrite Ho.
      destruct (FundingRateMonitor.createOrder mL symbol Buy longQty) as [lo|e1],
               (FundingRateMonitor.createOrder mS symbol Sell shortQty) as [so|e2];
        simpl in Hone; try discriminate; eauto. }
    destruct He as [e He].
    destruct (executeHedge_failed mExchanges st symbol longExchange shortExchange now
                _ e Ht He) as [Hs Htr].
    subst m. split; assumption.
  - pose proof (controls_openHedge_orders cExchanges opportunity now cL cS
                  longBalance shortBalance HcL HcS HaL HaS) as Ho.
    cbv zeta in Ho. fold size in Ho.
    assert (He : exists e,
               HedgeControls.openHedge cExchanges opportunity now
               = ([HedgeControls.CallGetAvailableBalance
                     (HedgeControls.op_longExchange opportunity);
                   HedgeControls.CallGetAvailableBalance
                     (HedgeControls.op_shortExchange opportunity);
                   HedgeControls.CallCreateOrder
                     (HedgeControls.op_longExchange opportunity)
                     (HedgeControls.op_symbol opportunity) Buy size;
                   HedgeControls.CallCreateOrder
                     (HedgeControls.op_shortExchange opportunity)
                     (HedgeControls.op_symbol opportunity) Sell size],
                  Throw e)).
    { rewrite Ho.
      destruct (HedgeControls.createOrder cL _ Buy size) as [lo|e1],
               (HedgeControls.createOrder cS _ Sell size) as [so|e2];
        simpl in Hcone; try discriminate; eauto. }
    destruct He as [e He].
    destruct (controls_executeHedge_failed cExchanges cst hedges opportunity now
                _ e Ha Hk He) as (Hs & Htr & _).
    subst c. split; [exact Hs|]. exists e. rewrite Htr. reflexivity.
Qed.

Lemma partial_fill_not_reconciled_witness :
  FundingRateMonitor.positionStatus
    (FundingRateMonitor._executeHedge Scenario.monExchangesRejectY
       FundingRateMonitor.initial "BTCUSDT" "X" "Y" 0).1
    !! FundingRateMonitor.hedgeKey "BTCUSDT" "X" "Y"
  = Some (FundingRateMonitor.StatusString "failed")
  /\ HedgeControls.hedgeStatus
       (HedgeControls._executeHedge Scenario.hcExchanges Scenario.hcWithTable
          Scenario.opportunity 0).1.1
       (HedgeControls.hedgeKey Scenario.opportunity)
     = Some "failed"%string.
Proof.
  pose proof (partial_fill_not_reconciled
                Scenario.monExchangesRejectY FundingRateMonitor.initial
                "BTCUSDT" "X" "Y" 0 Scenario.monX Scenario.monRejecting
                {| FundingRateMonitor.total := Decimal.of_Z 1000;
                   FundingRateMonitor.available := Decimal.of_Z 1000 |}
                {| FundingRateMonitor.total := Decimal.of_Z 1000;
                   FundingRateMonitor.available := Decimal.of_Z 1000 |}
                (Decimal.of_Z 50000) (Decimal.of_Z 50000)
                Scenario.hcExchanges Scenario.hcWithTable [] Scenario.opportunity
                Scenario.hcX Scenario.hcY (Decimal.of_Z 1000) (Decimal.of_Z 1000)) as H.
  cbv zeta in H.
  destruct H as [[Hm _] [Hc _]]; try reflexivity.
  split; assumption.
Defined.

(** C2, as stated, fails. X fills the buy and Y rejects the sell: the
    hedge ends failed, but neither manager issues a close order on X,
    and the only event is [hedgeFailed] with the key and the error. *)
Lemma partial_fill_no_close_order :
  let m := FundingRateMonitor._executeHedge Scenario.monExchangesRejectY
             FundingRateMonitor.initial "BTCUSDT" "X" "Y" 0 in
  let c := HedgeControls._executeHedge Scenario.hcExchanges Scenario.hcWithTable
             Scenario.opportunity 0 in
  existsb FundingRateMonitor.isClosePosition m.2 = false
  /\ m.2 = [FundingRateMonitor.CallGetBalance "X"; FundingRateMonitor.CallGetBalance "Y";
            FundingRateMonitor.CallGetPrice "X" "BTCUSDT";
            FundingRateMonitor.CallGetPrice "Y" "BTCUSDT";
            FundingRateMonitor.CallCreateOrder "X" "BTCUSDT" Buy (Decimal.dec 1 2);
            FundingRateMonitor.CallCreateOrder "Y" "BTCUSDT" Sell (Decimal.dec 1 2)]
  /\ existsb HedgeControls.isClosePosition c.1.2 = false
  /\ c.1.2 = [HedgeControls.CallGetAvailableBalance "X";
              HedgeControls.CallGetAvailableBalance "Y";
              HedgeControls.CallCreateOrder "X" "BTCUSDT" Buy (Decimal.dec 2 3);
              HedgeControls.CallCreateOrder "Y" "BTCUSDT" Sell (Decimal.dec 2 3);
              HedgeControls.EmitHedgeFailed "BTCUSDT:X:Y" (Error "rejected")].
Proof. vm_compute. repeat split; reflexivity. Qed.

(** ** Rounding toward zero: bounds *)

Lemma Qtrunc_nonneg (x : Q) : (0 <= x)%Q -> Decimal.Qtrunc x = Qfloor x.
Proof.
  destruct x as [n d]. unfold Qle, Decimal.Qtrunc, Qfloor. simpl. intros H.
  apply Z.quot_div_nonneg; lia.
Qed.

Lemma ten_pow_pos (e : Z) : (0 < Qpower 10 e)%Q.
Proof. apply Qpower_0_lt. reflexivity. Qed.

Lemma round_dp_bounds (dp : Z) (q : Q) :
  (0 <= q)%Q ->
  (0 <= Decimal.round_dp dp q)%Q
  /\ (Decimal.round_dp dp q <= q)%Q
  /\ (q < Decimal.round_dp dp q + Qpower 10 (- dp))%Q.
Proof.
  intros Hq. unfold Decimal.round_dp. cbv zeta.
  pose proof (ten_pow_pos dp) as Hs.
  set (s := Qpower 10 dp) in *.
  assert (Hx : (0 <= q * s)%Q) by (apply Qmult_le_0_compat; [exact Hq|apply Qlt_le_weak, Hs]).
  rewrite Qred_correct, (Qtrunc_nonneg _ Hx).
  pose proof (Qfloor_le (q * s)) as Hfl.
  pose proof (Qlt_floor (q * s)) as Hfu.
  assert (H0 : (0 <= inject_Z (Qfloor (q * s)))%Q).
  { change 0%Q with (inject_Z 0). rewrite <- Zle_Qle.
    rewrite <- (Qfloor_Z 0). apply Qfloor_resp_le. exact Hx. }
  assert (Hne : ~ (s == 0)%Q) by (intros E; rewrite E in Hs; discriminate).
  repeat split.
  - apply Qle_shift_div_l; [exact Hs|]. now rewrite Qmult_0_l.
  - apply Qle_shift_div_r; [exact Hs|exact Hfl].
  - rewrite Qpower_opp. fold s.
    rewrite inject_Z_plus in Hfu.
    apply Qmult_lt_r with (z := s); [exact Hs|].
    rewrite Qmult_plus_distr_l.
    assert (E1 : (inject_Z (Qfloor (q * s)) / s * s == inject_Z (Qfloor (q * s)))%Q)
      by (field; exact Hne).
    assert (E2 : (/ s * s == 1)%Q) by (field; exact Hne).
    rewrite E1, E2. exact Hfu.
Qed.

Lemma round_sd_bounds (sd : Z) (q : Q) :
  (0 <= q)%Q ->
  (0 <= Decimal.round_sd sd q)%Q /\ (Decimal.round_sd sd q <= q)%Q.
Proof.
  intros Hq. unfold Decimal.round_sd.
  destruct (Qeq_bool q 0) eqn:E.
  - split; [apply Qle_refl|exact Hq].
  - destruct (round_dp_bounds (sd - 1 - Decimal.exponent q) q Hq) as (H1 & H2 & _).
    split; assumption.
Qed.

Lemma ndigits_fuel_spec (fuel : nat) :
  forall n, 0 < n -> n < 2 ^ Z.of_nat fuel ->
    10 ^ (Decimal.ndigits_fuel fuel n - 1) <= n < 10 ^ Decimal.ndigits_fuel fuel n
    /\ 1 <= Decimal.ndigits_fuel fuel n.
Proof.
  induction fuel as [|f IH]; intros n Hn Hlt.
  - simpl in Hlt. lia.
  - cbn [Decimal.ndigits_fuel]. destruct (n <? 10) eqn:E.
    + apply Z.ltb_lt in E. simpl. lia.
    + apply Z.ltb_ge in E.
      assert (Hd : 0 < n / 10) by (apply Z.div_str_pos; lia).
      assert (Hl : n / 10 < 2 ^ Z.of_nat f).
      { rewrite Nat2Z.inj_succ, Z.pow_succ_r in Hlt by lia.
        apply Z.div_lt_upper_bound; lia. }
      destruct (IH _ Hd Hl) as [[H1 H2] H3].
      set (k := Decimal.ndigits_fuel f (n / 10)) in *.
      replace (1 + k - 1) with (Z.succ (k - 1)) by lia.
      replace (1 + k) with (Z.succ k) by lia.
      rewrite !Z.pow_succ_r by lia.
      pose proof (Z.div_mod n 10 ltac:(lia)) as Hdm.
      pose proof (Z.mod_pos_bound n 10 ltac:(lia)) as Hm.
      lia.
Qed.

Lemma ndigits_spec n : 0 < n ->
  10 ^ (Decimal.ndigits n - 1) <= n < 10 ^ Decimal.ndigits n /\ 1 <= Decimal.ndigits n.
Proof.
  intros Hn. unfold Decimal.ndigits. apply ndigits_fuel_spec; [exact Hn|].
  rewrite Nat2Z.inj_succ, Z2Nat.id by apply Z.log2_nonneg.
  apply Z.log2_spec. exact Hn.
Qed.

Lemma inject_pow10 (n : Z) : 0 <= n -> (inject_Z (10 ^ n) == Qpower 10 n)%Q.
Proof. intros H. now rewrite Zpower_Qpower. Qed.

Lemma Qden_inject_pos (q : Q) : (0 < inject_Z (Zpos (Qden q)))%Q.
Proof. change 0%Q with (inject_Z 0). rewrite <- Zlt_Qlt. lia. Qed.

Lemma exponent_spec (q : Q) :
  (0 < q)%Q ->
  (Qpower 10 (Decimal.exponent q) <= q)%Q /\ (q < Qpower 10 (Decimal.exponent q + 1))%Q.
Proof.
  intros Hq.
  assert (Ha : 0 < Qnum q) by (destruct q as [n d]; unfold Qlt in Hq; simpl in *; lia).
  destruct (ndigits_spec (Qnum q) Ha) as [[Ha1 Ha2] Ha3].
  destruct (ndigits_spec (Zpos (Qden q)) ltac:(lia)) as [[Hb1 Hb2] Hb3].
  unfold Decimal.exponent. cbv zeta.
  rewrite (Z.abs_eq (Qnum q)) by lia.
  set (da := Decimal.ndigits (Qnum q)) in *.
  set (db := Decimal.ndigits (Zpos (Qden q))) in *.
  assert (Eabs : (Qabs q == q)%Q) by (apply Qabs_pos, Qlt_le_weak, Hq).
  assert (Eq : (q == inject_Z (Qnum q) / inject_Z (Zpos (Qden q)))%Q).
  { destruct q as [n d]. simpl. apply Qmake_Qdiv. }
  pose proof (Qden_inject_pos q) as HB.
  set (A := inject_Z (Qnum q)) in *. set (B := inject_Z (Zpos (Qden q))) in *.
  assert (Hne : ~ (10 == 0)%Q) by discriminate.
  assert (HA1 : (Qpower 10 (da - 1) <= A)%Q).
  { rewrite <- inject_pow10 by lia. unfold A. now rewrite <- Zle_Qle. }
  assert (HA2 : (A < Qpower 10 da)%Q).
  { rewrite <- inject_pow10 by lia. unfold A. now rewrite <- Zlt_Qlt. }
  assert (HB1 : (Qpower 10 (db - 1) <= B)%Q).
  { rewrite <- inject_pow10 by lia. unfold B. now rewrite <- Zle_Qle. }
  assert (HB2 : (B < Qpower 10 db)%Q).
  { rewrite <- inject_pow10 by lia. unfold B. now rewrite <- Zlt_Qlt. }
  assert (Hup : (q < Qpower 10 (da - db + 1))%Q).
  { rewrite Eq. apply Qlt_shift_div_r; [exact HB|].
    replace (da - db + 1) with (da - (db - 1)) by lia.
    rewrite Qpower_minus by exact Hne.
    pose proof (ten_pow_pos (db - 1)) as Hp. pose proof (ten_pow_pos da) as Hpa.
    apply Qlt_le_trans with (y := Qpower 10 da); [exact HA2|].
    unfold Qdiv. rewrite <- Qmult_assoc.
    rewrite <- (Qmult_1_r (Qpower 10 da)) at 1.
    apply Qmult_le_l; [exact Hpa|].
    rewrite Qmult_comm. apply Qle_shift_div_l; [exact Hp|]. now rewrite Qmult_1_l. }
  assert (Hlow : (Qpower 10 (da - db - 1) <= q)%Q).
  { rewrite Eq. apply Qle_shift_div_l; [exact HB|].
    replace (da - db - 1) with (da - 1 - db) by lia.
    rewrite Qpower_minus by exact Hne.
    pose proof (ten_pow_pos db) as Hp. pose proof (ten_pow_pos (da - 1)) as Hpa.
    apply Qle_trans with (y := Qpower 10 (da - 1)); [|exact HA1].
    unfold Qdiv. rewrite <- Qmult_assoc.
    rewrite <- (Qmult_1_r (Qpower 10 (da - 1))) at 2.
    apply Qmult_le_l; [exact Hpa|].
    rewrite Qmult_comm. apply Qle_shift_div_r; [exact Hp|].
    rewrite Qmult_1_l. apply Qlt_le_weak, HB2. }
  destruct (Qle_bool (Qpower 10 (da - db)) (Qabs q)) eqn:E.
  - apply Qle_bool_iff in E. rewrite Eabs in E. split; [exact E|exact Hup].
  - split.
    + exact Hlow.
    + replace (da - db - 1 + 1) with (da - db) by lia.
      apply Qnot_le_lt. intros Hc. rewrite <- Eabs in Hc.
      apply Qle_bool_iff in Hc. congruence.
Qed.

Lemma finalise_bounds (q : Q) :
  (0 < q)%Q ->
  (0 < Decimal.finalise q)%Q
  /\ (Decimal.finalise q <= q)%Q
  /\ (q - Decimal.finalise q < q * Qpower 10 (-7))%Q.
Proof.
  intros Hq. unfold Decimal.finalise, Decimal.round_sd, Decimal.precision.
  destruct (Qeq_bool q 0) eqn:E.
  { apply Qeq_bool_eq in E. rewrite E in Hq. discriminate. }
  destruct (exponent_spec q Hq) as [He1 He2].
  set (e := Decimal.exponent q) in *.
  destruct (round_dp_bounds (8 - 1 - e) q (Qlt_le_weak _ _ Hq)) as (H0 & H1 & H2).
  set (r := Decimal.round_dp (8 - 1 - e) q) in *.
  assert (Hne : ~ (10 == 0)%Q) by discriminate.
  assert (Hstep : (Qpower 10 (- (8 - 1 - e)) <= q * Qpower 10 (-7))%Q).
  { replace (- (8 - 1 - e)) with (e + -7) by lia.
    rewrite Qpower_plus by exact Hne.
    apply Qmult_le_compat_r; [exact He1|]. apply Qlt_le_weak, ten_pow_pos. }
  assert (Hpos : (0 < q * Qpower 10 (-7))%Q).
  { apply Qmult_lt_0_compat; [exact Hq|apply ten_pow_pos]. }
  repeat split.
  - (* r > 0 : q >= 10^e means q * 10^(7-e) >= 10^7 >= 1 *)
    unfold r, Decimal.round_dp. cbv zeta. rewrite Qred_correct.
    pose proof (ten_pow_pos (8 - 1 - e)) as Hs.
    apply Qlt_shift_div_l; [exact Hs|]. rewrite Qmult_0_l.
    assert (Hx : (1 <= q * Qpower 10 (8 - 1 - e))%Q).
    { apply Qle_trans with (y := (Qpower 10 e * Qpower 10 (8 - 1 - e))%Q).
      - rewrite <- Qpower_plus by exact Hne. apply Qpower_1_le; [discriminate|lia].
      - apply Qmult_le_compat_r; [exact He1|apply Qlt_le_weak, Hs]. }
    rewrite Qtrunc_nonneg by (apply Qle_trans with (y := 1%Q); [discriminate|exact Hx]).
    change 0%Q with (inject_Z 0). rewrite <- Zlt_Qlt.
    apply Z.lt_le_trans with (m := 1); [lia|].
    rewrite <- (Qfloor_Z 1). apply Qfloor_resp_le. exact Hx.
  - exact H1.
  - lra.
Qed.

(** ** Sizing an open *)

Lemma Decimal_min_fin (a b : Q) :
  exists c, Decimal.min (Decimal.Fin a) (Decimal.Fin b) = Decimal.Fin c
            /\ (c <= a)%Q /\ (c <= b)%Q /\ (c = a \/ c = b).
Proof.
  unfold Decimal.min, Decimal.gt, Decimal.cmp.
  destruct (Qcompare_spec a b) as [E|E|E].
  - exists a. repeat split; [apply Qle_refl|rewrite E; apply Qle_refl|now left].
  - exists a. repeat split; [apply Qle_refl|apply Qlt_le_weak, E|now left].
  - exists b. repeat split; [apply Qlt_le_weak, E|apply Qle_refl|now right].
Qed.

Lemma maxSizeFor_bounds (longBal shortBal : FundingRateMonitor.Balance) (a b : Q) :
  FundingRateMonitor.available longBal = Decimal.Fin a ->
  FundingRateMonitor.available shortBal = Decimal.Fin b ->
  (0 <= a)%Q -> (0 <= b)%Q ->
  exists m, FundingRateMonitor.maxSizeFor longBal shortBal = Decimal.Fin m
            /\ (0 <= m)%Q /\ (m <= a * (1 # 2))%Q /\ (m <= b * (1 # 2))%Q.
Proof.
  intros Ha Hb Ha0 Hb0. unfold FundingRateMonitor.maxSizeFor. rewrite Ha, Hb.
  destruct (Decimal_min_fin a b) as (c & -> & Hca & Hcb & Hc).
  assert (Hc0 : (0 <= c)%Q) by (destruct Hc; subst c; assumption).
  change (Decimal.dec 5 1) with (Decimal.Fin (1 # 2)).
  cbn [Decimal.mul Decimal.toDecimalPlaces].
  assert (Hh : (0 <= c * (1 # 2))%Q) by lra.
  destruct (round_sd_bounds Decimal.precision (c * (1 # 2)) Hh) as [H1 H2].
  fold (Decimal.finalise (c * (1 # 2))) in H1, H2.
  destruct (round_dp_bounds 8 _ H1) as (H3 & H4 & _).
  eexists. split; [reflexivity|]. repeat split; [exact H3|lra|lra].
Qed.

Lemma quantityFor_bounds (m p : Q) :
  (0 < m)%Q -> (0 < p)%Q ->
  exists r, FundingRateMonitor.quantityFor (Decimal.Fin m) (Decimal.Fin p) = Decimal.Fin r
            /\ (0 <= r)%Q /\ (r <= m / p)%Q
            /\ (m / p - r < m / p * Qpower 10 (-7) + Qpower 10 (-8))%Q.
Proof.
  intros Hm Hp. unfold FundingRateMonitor.quantityFor.
  assert (Hz : Decimal.is_zero p = false).
  { unfold Decimal.is_zero. destruct (Qeq_bool p 0) eqn:E; [|reflexivity].
    apply Qeq_bool_eq in E. rewrite E in Hp. discriminate. }
  cbn [Decimal.div]. rewrite Hz. cbn [Decimal.toDecimalPlaces].
  assert (Hq : (0 < m / p)%Q) by (apply Qlt_shift_div_l; [exact Hp|now rewrite Qmult_0_l]).
  destruct (finalise_bounds (m / p) Hq) as (H1 & H2 & H3).
  destruct (round_dp_bounds 8 _ (Qlt_le_weak _ _ H1)) as (H4 & H5 & H6).
  eexists. split; [reflexivity|].
  change (- (8))%Z with (-8)%Z in H6.
  set (q := (m / p)%Q) in *.
  set (f := Decimal.finalise q) in *.
  set (r := Decimal.round_dp 8 f) in *.
  set (u := Qpower 10 (-7)) in *. set (v := Qpower 10 (-8)) in *.
  clearbody q f r u v.
  repeat split.
  - exact H4.
  - apply Qle_trans with (y := f); assumption.
  - apply Qlt_trans with (y := (q - f + v)%Q).
    + apply Qplus_lt_r with (z := (r - q)%Q). ring_simplify. lra.
    + lra.
Qed.

Section Sizing.
Import FundingRateMonitor.
Variable exchanges : JsObject.t ExchangeAdapter.

Lemma executeHedge_trace st symbol longExchange shortExchange now :
  truthy (positionStatus st !! hedgeKey symbol longExchange shortExchange) = false ->
  (_executeHedge exchanges st symbol longExchange shortExchange now).2
  = (openHedge exchanges symbol longExchange shortExchange now).1.
Proof.
  intros Ht. unfold _executeHedge. rewrite Ht.
  destruct (openHedge exchanges symbol longExchange shortExchange now) as [tr [h|e]];
    reflexivity.
Qed.

(** C5, as the code has it. For an opportunity whose key is free and
    whose two balances have arrived, the size is half of the smaller
    available balance, and each quantity is the size divided by the
    venue's price, every operation keeping 8 significant digits
    (rounding toward zero) before the result is cut to 8 decimals.
    A size of 0 or less ends the open with the insufficient-funds
    error after the two balance queries: no price is asked, no order
    placed, and the hedge is failed. Otherwise a buy of the long
    quantity and a sell of the short quantity are submitted. The size
    never exceeds half of either balance; a quantity never exceeds
    the exact quotient and falls short of it by less than one part in
    10^7 plus 10^-8. With balances of 1000 and prices of 50000 the
    size is 500 and both quantities are 0.01. *)
Theorem open_sizes_and_quantities :
  forall (st : Monitor) (symbol longExchange shortExchange : string) (now : Z)
         (exL exS : ExchangeAdapter) (longBal shortBal : Balance),
    truthy (positionStatus st !! hedgeKey symbol longExchange shortExchange) = false ->
    JsObject.get exchanges longExchange = Some exL ->
    JsObject.get exchanges shortExchange = Some exS ->
    getBalance exL = Ok longBal ->
    getBalance exS = Ok shortBal ->
    let maxSize := maxSizeFor longBal shortBal in
    let r := _executeHedge exchanges st symbol longExchange shortExchange now in
    (Decimal.lte maxSize (Decimal.of_Z 0) = true ->
       openHedge exchanges symbol longExchange shortExchange now
       = ([CallGetBalance longExchange; CallGetBalance shortExchange],
          Throw (Error "可用资金不足"))
       /\ r.2 = [CallGetBalance longExchange; CallGetBalance shortExchange]
       /\ positionStatus r.1 !! hedgeKey symbol longExchange shortExchange
          = Some (StatusString "failed"))
    /\ (Decimal.lte maxSize (Decimal.of_Z 0) = false ->
        forall longPrice shortPrice,
          getPrice exL symbol = Ok longPrice ->
          getPrice exS symbol = Ok shortPrice ->
          r.2 = [CallGetBalance longExchange; CallGetBalance shortExchange;
                 CallGetPrice longExchange symbol; CallGetPrice shortExchange symbol;
                 CallCreateOrder longExchange symbol Buy (quantityFor maxSize longPrice);
                 CallCreateOrder shortExchange symbol Sell
                   (quantityFor maxSize shortPrice)])
    /\ (forall a b,
          available longBal = Decimal.Fin a -> available shortBal = Decimal.Fin b ->
          (0 <= a)%Q -> (0 <= b)%Q ->
          exists m, maxSize = Decimal.Fin m
                    /\ (0 <= m)%Q /\ (m <= a * (1 # 2))%Q /\ (m <= b * (1 # 2))%Q)
    /\ (forall m p,
          (0 < m)%Q -> (0 < p)%Q ->
          exists q, quantityFor (Decimal.Fin m) (Decimal.Fin p) = Decimal.Fin q
                    /\ (0 <= q)%Q /\ (q <= m / p)%Q
                    /\ (m / p - q < m / p * Qpower 10 (-7) + Qpower 10 (-8))%Q)
    /\ maxSizeFor {| total := Decimal.of_Z 1000; available := Decimal.of_Z 1000 |}
                  {| total := Decimal.of_Z 1000; available := Decimal.of_Z 1000 |}
       = Decimal.of_Z 500
    /\ quantityFor (Decimal.of_Z 500) (Decimal.of_Z 50000) = Decimal.dec 1 2.
Proof.
  intros st symbol longExchange shortExchange now exL exS longBal shortBal
    Ht HL HS HbL HbS maxSize r.
  split; [|split; [|split; [|split; [|split]]]].
  - intros Hle.
    pose proof (openHedge_insufficient exchanges symbol longExchange shortExchange now
                  exL exS longBal shortBal HL HS HbL HbS Hle) as Ho.
    split; [exact Ho|].
    destruct (executeHedge_failed exchanges st symbol longExchange shortExchange now
                _ _ Ht Ho) as [Hs Htr].
    split; assumption.
  - intros Hle longPrice shortPrice HpL HpS. subst r.
    rewrite (executeHedge_trace st symbol longExchange shortExchange now Ht).
    rewrite (openHedge_orders exchanges symbol longExchange shortExchange now
               exL exS longBal shortBal longPrice shortPrice
               HL HS HbL HbS Hle HpL HpS).
    reflexivity.
  - intros a b Ha Hb Ha0 Hb0. now apply maxSizeFor_bounds.
  - intros m p Hm Hp. now apply quantityFor_bounds.
  - vm_compute. reflexivity.
  - vm_compute. reflexivity.
Qed.

End Sizing.

Lemma open_sizes_and_quantities_witness :
  (FundingRateMonitor._executeHedge Scenario.monExchanges FundingRateMonitor.initial
     "BTCUSDT" "X" "Y" 0).2
  = [FundingRateMonitor.CallGetBalance "X"; FundingRateMonitor.CallGetBalance "Y";
     FundingRateMonitor.CallGetPrice "X" "BTCUSDT";
     FundingRateMonitor.CallGetPrice "Y" "BTCUSDT";
     FundingRateMonitor.CallCreateOrder "X" "BTCUSDT" Buy (Decimal.dec 1 2);
     FundingRateMonitor.CallCreateOrder "Y" "BTCUSDT" Sell (Decimal.dec 1 2)].
Proof.
  pose proof (open_sizes_and_quantities Scenario.monExchanges FundingRateMonitor.initial
                "BTCUSDT" "X" "Y" 0 Scenario.monX Scenario.monX
                {| FundingRateMonitor.total := Decimal.of_Z 1000;
                   FundingRateMonitor.available := Decimal.of_Z 1000 |}
                {| FundingRateMonitor.total := Decimal.of_Z 1000;
                   FundingRateMonitor.available := Decimal.of_Z 1000 |}
                eq_refl eq_refl eq_refl eq_refl eq_refl) as H.
  cbv zeta in H. destruct H as (_ & Hq & _).
  exact (Hq eq_refl (Decimal.of_Z 50000) (Decimal.of_Z 50000) eq_refl eq_refl).
Defined.

(** C5, as stated, fails. With 1000 available on both venues and a
    price of 3 on the long venue, the size is 500 and the buy is for
    166.66666, the quotient cut to 8 significant digits, not for
    166.66666666, the quotient rounded down to 8 decimals. *)
Lemma open_quantity_keeps_8_significant_digits :
  (FundingRateMonitor._executeHedge Scenario.monExchangesCheapX FundingRateMonitor.initial
     "BTCUSDT" "X" "Y" 0).2
  = [FundingRateMonitor.CallGetBalance "X"; FundingRateMonitor.CallGetBalance "Y";
     FundingRateMonitor.CallGetPrice "X" "BTCUSDT";
     FundingRateMonitor.CallGetPrice "Y" "BTCUSDT";
     FundingRateMonitor.CallCreateOrder "X" "BTCUSDT" Buy (Decimal.dec 16666666 5);
     FundingRateMonitor.CallCreateOrder "Y" "BTCUSDT" Sell (Decimal.dec 1 2)]
  /\ Decimal.Fin (quantity_spec (sizeUsd_spec 1000 1000) 3) = Decimal.dec 16666666666 8
  /\ Decimal.dec 16666666 5 <> Decimal.dec 16666666666 8.
Proof.
  split; [vm_compute; reflexivity|]. split; [vm_compute; reflexivity|].
  vm_compute. discriminate.
Qed.

(** ** The arbitrage scan *)

Lemma Decimal_gt_fin (a b : Q) : Decimal.gt (Decimal.Fin a) (Decimal.Fin b) = true <-> (b < a)%Q.
Proof.
  unfold Decimal.gt, Decimal.cmp. rewrite Qgt_alt.
  destruct (a ?= b)%Q; split; congruence.
Qed.

Lemma Decimal_lt_fin (a b : Q) : Decimal.lt (Decimal.Fin a) (Decimal.Fin b) = true <-> (a < b)%Q.
Proof.
  unfold Decimal.lt, Decimal.cmp. rewrite Qlt_alt.
  destruct (a ?= b)%Q; split; congruence.
Qed.

Lemma Decimal_lte_fin (a b : Q) : Decimal.lte (Decimal.Fin a) (Decimal.Fin b) = true <-> (a <= b)%Q.
Proof.
  unfold Decimal.lte, Decimal.cmp. rewrite Qle_alt.
  destruct (a ?= b)%Q; split; congruence.
Qed.

Section Extremes.
Import FundingRateMonitor.

Lemma fold_max_spec (rs : JsObject.t Decimal.t) :
  forall ex m,
    forallb (fun x => Decimal.is_finite x.2) rs = true ->
    exists bex b,
      fold_left (fun max '(exchange, rate) =>
                   if Decimal.gt rate (snd max) then (exchange, rate) else max)
                rs (ex, Decimal.Fin m) = (bex, Decimal.Fin b)
      /\ ((bex, Decimal.Fin b) = (ex, Decimal.Fin m) \/ In (bex, Decimal.Fin b) rs)
      /\ (m <= b)%Q
      /\ forall ex' r, In (ex', Decimal.Fin r) rs -> (r <= b)%Q.
Proof.
  induction rs as [|[ex0 r0] rs IH]; intros ex m Hfin; cbn [fold_left].
  - exists ex, m. split; [reflexivity|]. split; [now left|].
    split; [apply Qle_refl|intros ? ? []].
  - cbn [forallb] in Hfin. apply andb_true_iff in Hfin as [Hr0 Hfin].
    destruct r0 as [| |q0]; try discriminate. cbn [snd].
    destruct (Decimal.gt (Decimal.Fin q0) (Decimal.Fin m)) eqn:E.
    + apply Decimal_gt_fin in E.
      destruct (IH ex0 q0 Hfin) as (bex & b & Hb & Hin & Hge & Hall).
      exists bex, b. split; [exact Hb|].
      split; [right; destruct Hin as [->|Hin]; [now left|now right]|].
      split; [lra|].
      intros ex' r [Heq|Hin']; [|now apply (Hall ex')].
      inversion Heq; subst. exact Hge.
    + assert (Hle : (q0 <= m)%Q).
      { apply Qnot_lt_le. intros Hc. apply Decimal_gt_fin in Hc. congruence. }
      destruct (IH ex m Hfin) as (bex & b & Hb & Hin & Hge & Hall).
      exists bex, b. split; [exact Hb|].
      split; [destruct Hin as [->|Hin]; [now left|right; now right]|].
      split; [exact Hge|].
      intros ex' r [Heq|Hin']; [|now apply (Hall ex')].
      inversion Heq; subst. lra.
Qed.

Lemma fold_min_spec (rs : JsObject.t Decimal.t) :
  forall ex m,
    forallb (fun x => Decimal.is_finite x.2) rs = true ->
    exists bex b,
      fold_left (fun min '(exchange, rate) =>
                   if Decimal.lt rate (snd min) then (exchange, rate) else min)
                rs (ex, Decimal.Fin m) = (bex, Decimal.Fin b)
      /\ ((bex, Decimal.Fin b) = (ex, Decimal.Fin m) \/ In (bex, Decimal.Fin b) rs)
      /\ (b <= m)%Q
      /\ forall ex' r, In (ex', Decimal.Fin r) rs -> (b <= r)%Q.
Proof.
  induction rs as [|[ex0 r0] rs IH]; intros ex m Hfin; cbn [fold_left].
  - exists ex, m. split; [reflexivity|]. split; [now left|].
    split; [apply Qle_refl|intros ? ? []].
  - cbn [forallb] in Hfin. apply andb_true_iff in Hfin as [Hr0 Hfin].
    destruct r0 as [| |q0]; try discriminate. cbn [snd].
    destruct (Decimal.lt (Decimal.Fin q0) (Decimal.Fin m)) eqn:E.
    + apply Decimal_lt_fin in E.
      destruct (IH ex0 q0 Hfin) as (bex & b & Hb & Hin & Hge & Hall).
      exists bex, b. split; [exact Hb|].
      split; [right; destruct Hin as [->|Hin]; [now left|now right]|].
      split; [lra|].
      intros ex' r [Heq|Hin']; [|now apply (Hall ex')].
      inversion Heq; subst. exact Hge.
    + assert (Hle : (m <= q0)%Q).
      { apply Qnot_lt_le. intros Hc. apply Decimal_lt_fin in Hc. congruence. }
      destruct (IH ex m Hfin) as (bex & b & Hb & Hin & Hge & Hall).
      exists bex, b. split; [exact Hb|].
      split; [destruct Hin as [->|Hin]; [now left|right; now right]|].
      split; [exact Hge|].
      intros ex' r [Heq|Hin']; [|now apply (Hall ex')].
      inversion Heq; subst. lra.
Qed.

(** On finite rates, [_findMaxRate] returns an entry of the object
    whose rate no other entry exceeds, and [_findMinRate] one that no
    other entry undercuts. *)
Lemma findMaxRate_spec (rs : JsObject.t Decimal.t) :
  rs <> [] ->
  forallb (fun x => Decimal.is_finite x.2) rs = true ->
  exists bex b,
    _findMaxRate rs = (bex, Decimal.Fin b)
    /\ In (bex, Decimal.Fin b) rs
    /\ forall ex' r, In (ex', Decimal.Fin r) rs -> (r <= b)%Q.
Proof.
  destruct rs as [|[ex0 r0] rs]; [congruence|]. intros _ Hfin.
  cbn [forallb] in Hfin. apply andb_true_iff in Hfin as [Hr0 Hfin].
  destruct r0 as [| |q0]; try discriminate.
  unfold _findMaxRate. cbn [fold_left snd].
  change (Decimal.gt (Decimal.Fin q0) (Decimal.Inf true)) with true. cbv iota.
  destruct (fold_max_spec rs ex0 q0 Hfin) as (bex & b & Hb & Hin & Hge & Hall).
  exists bex, b. split; [exact Hb|].
  split; [destruct Hin as [->|Hin]; [now left|now right]|].
  intros ex' r [Heq|Hin']; [|now apply (Hall ex')].
  inversion Heq; subst. exact Hge.
Qed.

Lemma findMinRate_spec (rs : JsObject.t Decimal.t) :
  rs <> [] ->
  forallb (fun x => Decimal.is_finite x.2) rs = true ->
  exists bex b,
    _findMinRate rs = (bex, Decimal.Fin b)
    /\ In (bex, Decimal.Fin b) rs
    /\ forall ex' r, In (ex', Decimal.Fin r) rs -> (b <= r)%Q.
Proof.
  destruct rs as [|[ex0 r0] rs]; [congruence|]. intros _ Hfin.
  cbn [forallb] in Hfin. apply andb_true_iff in Hfin as [Hr0 Hfin].
  destruct r0 as [| |q0]; try discriminate.
  unfold _findMinRate. cbn [fold_left snd].
  change (Decimal.lt (Decimal.Fin q0) (Decimal.Inf false)) with true. cbv iota.
  destruct (fold_min_spec rs ex0 q0 Hfin) as (bex & b & Hb & Hin & Hge & Hall).
  exists bex, b. split; [exact Hb|].
  split; [destruct Hin as [->|Hin]; [now left|now right]|].
  intros ex' r [Heq|Hin']; [|now apply (Hall ex')].
  inversion Heq; subst. exact Hge.
Qed.
End Extremes.

Section ArbitrageScan.
Import FundingRateMonitor.
Variable config : Config.
Variable exchanges : JsObject.t ExchangeAdapter.

(** What the callback of the scan does for one symbol whose spread
    exceeds the threshold. *)
Lemma checkSymbol_long_is_max st tr symbol now :
  let rs := collectRates exchanges st symbol in
  (2 <= length rs)%nat ->
  forallb (fun x => Decimal.is_finite x.2) rs = true ->
  Decimal.gt (Decimal.sub (_findMaxRate rs).2 (_findMinRate rs).2)
             (arbitrage (thresholds config)) = true ->
  exists longEx longRate shortEx shortRate rest,
    (checkSymbol config exchanges now (st, tr) symbol).2
    = tr ++ EmitArbitrage
              {| arb_symbol := symbol;
                 arb_longExchange := longEx; arb_longRate := Decimal.Fin longRate;
                 arb_shortExchange := shortEx; arb_shortRate := Decimal.Fin shortRate;
                 arb_spread := Decimal.sub (Decimal.Fin longRate)
                                           (Decimal.Fin shortRate) |}
            :: rest
    /\ In (longEx, Decimal.Fin longRate) rs
    /\ In (shortEx, Decimal.Fin shortRate) rs
    /\ (forall ex r, In (ex, Decimal.Fin r) rs -> (shortRate <= r <= longRate)%Q)
    /\ rest = if autoHedge config
              then (_executeHedge exchanges st symbol longEx shortEx now).2
              else [].
Proof.
  intros rs Hlen Hfin Hgt.
  assert (Hne : rs <> []) by (destruct rs; simpl in Hlen; [lia|discriminate]).
  destruct (findMaxRate_spec rs Hne Hfin) as (maxEx & maxRate & Hmax & HinMax & HallMax).
  destruct (findMinRate_spec rs Hne Hfin) as (minEx & minRate & Hmin & HinMin & HallMin).
  exists maxEx, maxRate, minEx, minRate.
  unfold checkSymbol. fold rs.
  apply Nat.leb_le in Hlen. rewrite Hlen, Hmax, Hmin.
  rewrite Hmax, Hmin in Hgt. cbn [snd] in Hgt. rewrite Hgt.
  unfold _triggerArbitrageAlert.
  destruct (autoHedge config).
  - destruct (_executeHedge exchanges st symbol maxEx minEx now) as [st' tr'] eqn:He.
    exists tr'. cbn [snd]. repeat split; auto.
    + now apply (HallMin ex).
    + now apply (HallMax ex).
  - exists []. cbn [snd]. repeat split; auto.
    + now apply (HallMin ex).
    + now apply (HallMax ex).
Qed.

Lemma executeHedge_rates st symbol longExchange shortExchange now :
  rates (_executeHedge exchanges st symbol longExchange shortExchange now).1 = rates st.
Proof.
  unfold _executeHedge. destruct (truthy _); [reflexivity|].
  destruct (openHedge exchanges symbol longExchange shortExchange now) as [tr [h|e]];
    reflexivity.
Qed.

(** The callback leaves the stored rates alone and only adds effects. *)
Lemma checkSymbol_frame st tr symbol now :
  rates (checkSymbol config exchanges now (st, tr) symbol).1 = rates st
  /\ exists tr', (checkSymbol config exchanges now (st, tr) symbol).2 = tr ++ tr'.
Proof.
  unfold checkSymbol.
  destruct (2 <=? length (collectRates exchanges st symbol))%nat;
    [|split; [reflexivity|exists []; now rewrite app_nil_r]].
  destruct (_findMaxRate _) as [maxEx maxRate].
  destruct (_findMinRate _) as [minEx minRate].
  destruct (Decimal.gt _ _); [|split; [reflexivity|exists []; now rewrite app_nil_r]].
  unfold _triggerArbitrageAlert. destruct (autoHedge config).
  - pose proof (executeHedge_rates st symbol maxEx minEx now) as Hr.
    destruct (_executeHedge exchanges st symbol maxEx minEx now) as [st' tr'].
    split; [exact Hr|]. eexists. reflexivity.
  - split; [reflexivity|]. eexists. reflexivity.
Qed.

Lemma fold_checkSymbol_frame symbols now :
  forall st tr,
    rates (fold_left (checkSymbol config exchanges now) symbols (st, tr)).1 = rates st
    /\ exists tr', (fold_left (checkSymbol config exchanges now) symbols (st, tr)).2
                   = tr ++ tr'.
Proof.
  induction symbols as [|s symbols IH]; intros st tr; cbn [fold_left].
  - split; [reflexivity|exists []; now rewrite app_nil_r].
  - destruct (checkSymbol_frame st tr s now) as [Hr [tr1 Ht]].
    destruct (checkSymbol config exchanges now (st, tr) s) as [st1 tr1'] eqn:E.
    cbn [fst snd] in Hr, Ht. subst tr1'.
    destruct (IH st1 (tr ++ tr1)) as [Hr' [tr2 Ht']].
    split; [now rewrite Hr', Hr|].
    exists (tr1 ++ tr2). now rewrite Ht', app_assoc.
Qed.

Lemma collectRates_rates st st' symbol :
  rates st = rates st' -> collectRates exchanges st symbol = collectRates exchanges st' symbol.
Proof. intros H. unfold collectRates. now rewrite H. Qed.

Lemma fold_checkSymbol_emits st symbol now symbols :
  let rs := collectRates exchanges st symbol in
  In symbol symbols ->
  (2 <= length rs)%nat ->
  forallb (fun x => Decimal.is_finite x.2) rs = true ->
  Decimal.gt (Decimal.sub (_findMaxRate rs).2 (_findMinRate rs).2)
             (arbitrage (thresholds config)) = true ->
  forall st0 tr,
    rates st0 = rates st ->
    exists longEx longRate shortEx shortRate,
      In (EmitArbitrage
            {| arb_symbol := symbol;
               arb_longExchange := longEx; arb_longRate := Decimal.Fin longRate;
               arb_shortExchange := shortEx; arb_shortRate := Decimal.Fin shortRate;
               arb_spread := Decimal.sub (Decimal.Fin longRate)
                                         (Decimal.Fin shortRate) |})
         (fold_left (checkSymbol config exchanges now) symbols (st0, tr)).2
      /\ In (longEx, Decimal.Fin longRate) rs
      /\ In (shortEx, Decimal.Fin shortRate) rs
      /\ (forall ex r, In (ex, Decimal.Fin r) rs -> (shortRate <= r <= longRate)%Q)
      /\ (autoHedge config = true ->
          exists st1,
            incl (_executeHedge exchanges st1 symbol longEx shortEx now).2
                 (fold_left (checkSymbol config exchanges now) symbols (st0, tr)).2
            /\ Forall (orderOnSide longEx shortEx)
                      (_executeHedge exchanges st1 symbol longEx shortEx now).2).
Proof.
  intros rs Hin Hlen Hfin Hgt.
  induction symbols as [|s symbols IH]; [destruct Hin|].
  intros st0 tr Hrs. cbn [fold_left].
  destruct Hin as [->|Hin].
  - assert (Ers : collectRates exchanges st0 symbol = rs)
      by now apply collectRates_rates.
    pose proof (checkSymbol_long_is_max st0 tr symbol now) as Hc.
    cbv zeta in Hc. rewrite Ers in Hc.
    destruct (Hc Hlen Hfin Hgt)
      as (longEx & longRate & shortEx & shortRate & rest & Htr & H1 & H2 & H3 & H4).
    exists longEx, longRate, shortEx, shortRate.
    destruct (checkSymbol config exchanges now (st0, tr) symbol) as [st1 tr1] eqn:E.
    cbn [snd] in Htr. subst tr1.
    match goal with
    | |- context [fold_left _ symbols (st1, ?t)] =>
        destruct (fold_checkSymbol_frame symbols now st1 t) as [_ [tr2 Ht2]]
    end.
    rewrite Ht2.
    split; [|split; [exact H1|split; [exact H2|split; [exact H3|]]]].
    + apply in_or_app. left. apply in_or_app. right. now left.
    + intros Ha. rewrite Ha in H4. exists st0. subst rest.
      split; [|apply executeHedge_order_sides].
      intros e He. apply in_or_app. left. apply in_or_app. right. now right.
  - destruct (checkSymbol_frame st0 tr s now) as [Hr _].
    destruct (checkSymbol config exchanges now (st0, tr) s) as [st1 tr1] eqn:E.
    cbn [fst] in Hr. apply (IH Hin st1 tr1). congruence.
Qed.

(** C1, on the code. In a scan, for a common symbol with finite rates
    on two venues or more and a spread above the arbitrage threshold,
    the opportunity emitted names as long venue one that holds the
    maximum rate and as short venue one that holds the minimum rate,
    with spread = long rate - short rate; and with auto-hedge on, the
    hedge that follows is opened with that long venue and that short
    venue, and every order it places is a buy on the long venue or a
    sell on the short venue: the buy goes to the maximum-rate venue
    and the sell to the minimum-rate one. *)
Theorem arbitrage_long_is_max_rate_venue :
  forall (st : Monitor) (symbol : string) (now : Z),
    let rs := collectRates exchanges st symbol in
    let scan := _checkArbitrageOpportunities config exchanges st now in
    In symbol (_findCommonSymbols st) ->
    (2 <= length rs)%nat ->
    forallb (fun x => Decimal.is_finite x.2) rs = true ->
    Decimal.gt (Decimal.sub (_findMaxRate rs).2 (_findMinRate rs).2)
               (arbitrage (thresholds config)) = true ->
    exists longEx longRate shortEx shortRate,
      In (EmitArbitrage
            {| arb_symbol := symbol;
               arb_longExchange := longEx; arb_longRate := Decimal.Fin longRate;
               arb_shortExchange := shortEx; arb_shortRate := Decimal.Fin shortRate;
               arb_spread := Decimal.sub (Decimal.Fin longRate)
                                         (Decimal.Fin shortRate) |})
         scan.2
      /\ In (longEx, Decimal.Fin longRate) rs
      /\ In (shortEx, Decimal.Fin shortRate) rs
      /\ (forall ex r, In (ex, Decimal.Fin r) rs -> (shortRate <= r <= longRate)%Q)
      /\ (autoHedge config = true ->
          exists st0,
            incl (_executeHedge exchanges st0 symbol longEx shortEx now).2 scan.2
            /\ Forall (orderOnSide longEx shortEx)
                      (_executeHedge exchanges st0 symbol longEx shortEx now).2).
Proof.
  intros st symbol now rs scan Hin Hlen Hfin Hgt. subst scan.
  unfold _checkArbitrageOpportunities.
  now apply (fold_checkSymbol_emits st symbol now (_findCommonSymbols st)
               Hin Hlen Hfin Hgt st []).
Qed.

End ArbitrageScan.

Lemma arbitrage_long_is_max_rate_venue_witness :
  exists longEx longRate shortEx shortRate,
    In (FundingRateMonitor.EmitArbitrage
          {| FundingRateMonitor.arb_symbol := "BTCUSDT";
             FundingRateMonitor.arb_longExchange := longEx;
             FundingRateMonitor.arb_longRate := Decimal.Fin longRate;
             FundingRateMonitor.arb_shortExchange := shortEx;
             FundingRateMonitor.arb_shortRate := Decimal.Fin shortRate;
             FundingRateMonitor.arb_spread :=
               Decimal.sub (Decimal.Fin longRate) (Decimal.Fin shortRate) |})
       (FundingRateMonitor._checkArbitrageOpportunities Scenario.autoHedgeConfig
          Scenario.monExchanges Scenario.monAfterRates 0).2
    /\ (forall ex r,
          In (ex, Decimal.Fin r)
             (FundingRateMonitor.collectRates Scenario.monExchanges
                Scenario.monAfterRates "BTCUSDT") ->
          (shortRate <= r <= longRate)%Q).
Proof.
  destruct (arbitrage_long_is_max_rate_venue Scenario.autoHedgeConfig
              Scenario.monExchanges Scenario.monAfterRates "BTCUSDT" 0)
    as (longEx & longRate & shortEx & shortRate & Htr & _ & _ & Hall & _).
  - vm_compute. left. reflexivity.
  - vm_compute. lia.
  - vm_compute. reflexivity.
  - vm_compute. reflexivity.
  - exists longEx, longRate, shortEx, shortRate. split; assumption.
Defined.

(** X reports -0.001 and Y +0.0015 for BTCUSDT, a spread of 0.0025 over
    the threshold of 0.002: the opportunity names Y, the venue with the
    higher rate, as long venue and X as short venue, and the hedge buys
    on Y and sells on X. *)
Example arbitrage_scan_two_venues :
  (FundingRateMonitor._checkArbitrageOpportunities Scenario.autoHedgeConfig
     Scenario.monExchanges Scenario.monAfterRates 0).2
  = [FundingRateMonitor.EmitArbitrage
       {| FundingRateMonitor.arb_symbol := "BTCUSDT";
          FundingRateMonitor.arb_longExchange := "Y";
          FundingRateMonitor.arb_longRate := Decimal.dec 15 4;
          FundingRateMonitor.arb_shortExchange := "X";
          FundingRateMonitor.arb_shortRate := Decimal.dec (-1) 3;
          FundingRateMonitor.arb_spread := Decimal.dec 25 4 |};
     FundingRateMonitor.CallGetBalance "Y"; FundingRateMonitor.CallGetBalance "X";
     FundingRateMonitor.CallGetPrice "Y" "BTCUSDT";
     FundingRateMonitor.CallGetPrice "X" "BTCUSDT";
     FundingRateMonitor.CallCreateOrder "Y" "BTCUSDT" Buy (Decimal.dec 1 2);
     FundingRateMonitor.CallCreateOrder "X" "BTCUSDT" Sell (Decimal.dec 1 2)].
Proof. vm_compute. reflexivity. Qed.

(** * Further properties of the code *)

(** ** Further properties: the monitor's store *)

Section Store.
Import FundingRateMonitor.
Variable config : Config.

Lemma processRate_rates exchange now st tr hc rateInfo :
  rates (processRate config exchange now (st, tr, hc) rateInfo).1.1
  = JsObject.set (rates st) exchange
      (JsObject.set (default [] (JsObject.get (rates st) exchange)) (ri_symbol rateInfo)
         {| re_rate := ri_rate rateInfo; re_nextTime := ri_nextTime rateInfo;
            re_timestamp := now |}).
Proof.
  unfold processRate.
  destruct (Decimal.gt (Decimal.abs (ri_rate rateInfo)) (critical (thresholds config)));
    [reflexivity|].
  destruct (Decimal.gt (Decimal.abs (ri_rate rateInfo)) (warning (thresholds config)));
    reflexivity.
Qed.

Lemma processRate_positionStatus exchange now st tr hc rateInfo :
  positionStatus (processRate config exchange now (st, tr, hc) rateInfo).1.1
  = positionStatus st.
Proof.
  unfold processRate.
  destruct (Decimal.gt (Decimal.abs (ri_rate rateInfo)) (critical (thresholds config)));
    [reflexivity|].
  destruct (Decimal.gt (Decimal.abs (ri_rate rateInfo)) (warning (thresholds config)));
    reflexivity.
Qed.

Lemma processRate_latest_eq exchange now st tr hc rateInfo :
  latestRate (processRate config exchange now (st, tr, hc) rateInfo).1.1
             exchange (ri_symbol rateInfo)
  = Some {| re_rate := ri_rate rateInfo; re_nextTime := ri_nextTime rateInfo;
            re_timestamp := now |}.
Proof.
  unfold latestRate. rewrite processRate_rates.
  rewrite JsObject_get_set_eq. apply JsObject_get_set_eq.
Qed.

Lemma processRate_latest_ne exchange now st tr hc rateInfo exchange' symbol' :
  (exchange', symbol') <> (exchange, ri_symbol rateInfo) ->
  latestRate (processRate config exchange now (st, tr, hc) rateInfo).1.1 exchange' symbol'
  = latestRate st exchange' symbol'.
Proof.
  intros Hne. unfold latestRate. rewrite processRate_rates.
  destruct (decide (exchange = exchange')) as [<-|He].
  - rewrite JsObject_get_set_eq.
    assert (Hs : ri_symbol rateInfo <> symbol') by congruence.
    rewrite JsObject_get_set_ne by exact Hs.
    destruct (JsObject.get (rates st) exchange); reflexivity.
  - now rewrite JsObject_get_set_ne.
Qed.


Lemma lastFor_snoc_eq h e :
  lastFor (h ++ [e]) (he_exchange e) (he_symbol e) = Some e.
Proof.
  unfold lastFor. rewrite List.filter_app. simpl.
  rewrite !String.eqb_refl. simpl. apply last_snoc.
Qed.

Lemma lastFor_snoc_ne h e exchange symbol :
  (exchange, symbol) <> (he_exchange e, he_symbol e) ->
  lastFor (h ++ [e]) exchange symbol = lastFor h exchange symbol.
Proof.
  intros Hne. unfold lastFor. rewrite List.filter_app. simpl.
  destruct (String.eqb (he_exchange e) exchange) eqn:E1;
    destruct (String.eqb (he_symbol e) symbol) eqn:E2; simpl;
    rewrite ?app_nil_r; try reflexivity.
  apply String.eqb_eq in E1, E2. subst. contradiction.
Qed.

Lemma processRate_latestAgrees exchange now st tr hc rateInfo :
  latestAgrees st ->
  latestAgrees (processRate config exchange now (st, tr, hc) rateInfo).1.1.
Proof.
  intros Hag exchange' symbol' e He.
  rewrite processRate_history.
  destruct (decide ((exchange', symbol') = (exchange, ri_symbol rateInfo))) as [Heq|Hne].
  - inversion Heq; subst. rewrite processRate_latest_eq in He. inversion He; subst.
    simpl. apply (lastFor_snoc_eq (history st)
                    {| he_exchange := exchange; he_symbol := ri_symbol rateInfo;
                       he_rate := ri_rate rateInfo; he_timestamp := now;
                       he_nextTime := ri_nextTime rateInfo |}).
  - rewrite processRate_latest_ne in He by exact Hne.
    rewrite lastFor_snoc_ne by exact Hne. now apply Hag.
Qed.

Lemma fold_processRate_latestAgrees exchange now rateInfos :
  forall acc,
    latestAgrees acc.1.1 ->
    latestAgrees (fold_left (processRate config exchange now) rateInfos acc).1.1.
Proof.
  induction rateInfos as [|r rs IH]; intros [[st tr] hc] H; cbn [fold_left].
  - exact H.
  - apply IH.
    pose proof (processRate_latestAgrees exchange now st tr hc r H) as H'.
    destruct (processRate config exchange now (st, tr, hc) r) as [[st' tr'] hc'].
    exact H'.
Qed.

(** X2. Latest agreement is an invariant of ingestion: it holds in the
    state the constructor leaves, and a batch of observations keeps
    it, so every stored latest rate is always the most recent history
    entry of its exchange and symbol. *)
Theorem processRates_keeps_latest_agreement :
  forall (st : Monitor) (exchange : string) (now : Z) (rateInfos : list RateInfo),
    latestAgrees st ->
    latestAgrees (_processRates config st exchange now rateInfos).1
    /\ latestAgrees initial.
Proof.
  intros st exchange now rateInfos H. split.
  - unfold _processRates.
    pose proof (fold_processRate_latestAgrees exchange now rateInfos (st, [], false) H) as H'.
    destruct (fold_left (processRate config exchange now) rateInfos (st, [], false))
      as [[st1 tr1] hc1].
    exact H'.
  - intros ex sym e He. discriminate.
Qed.

End Store.

Section Alerts.
Import FundingRateMonitor.
Variable config : Config.

Lemma Decimal_gt_trans_fin (x : Decimal.t) (w c : Q) :
  (w <= c)%Q ->
  Decimal.gt x (Decimal.Fin c) = true -> Decimal.gt x (Decimal.Fin w) = true.
Proof.
  intros Hwc. destruct x as [|n|q]; [discriminate|destruct n; auto|].
  rewrite !Decimal_gt_fin. lra.
Qed.

(** X3. With a warning threshold that does not exceed the critical
    one, alerts and counters agree: an observation either emits one
    alert (critical above the critical threshold, warning otherwise)
    and increments its counter, or emits nothing and resets its
    counter to 0. *)
Theorem alert_emitted_iff_counter_incremented :
  forall (exchange : string) (now : Z) (st : Monitor) (tr : list Effect) (hc : bool)
         (rateInfo : RateInfo) (w c : Q),
    warning (thresholds config) = Decimal.Fin w ->
    critical (thresholds config) = Decimal.Fin c ->
    (w <= c)%Q ->
    let out := processRate config exchange now (st, tr, hc) rateInfo in
    let key := alertKey exchange (ri_symbol rateInfo) in
    (exists level,
        out.1.2 = tr ++ _triggerAlert level exchange (ri_symbol rateInfo) (ri_rate rateInfo)
        /\ (level = LevelCritical
            <-> Decimal.gt (Decimal.abs (ri_rate rateInfo)) (Decimal.Fin c) = true)
        /\ alertCounts out.1.1 !! key = Some (default 0 (alertCounts st !! key) + 1))
    \/ (out.1.2 = tr /\ out.2 = hc /\ alertCounts out.1.1 !! key = Some 0).
Proof.
  intros exchange now st tr hc rateInfo w c Hw Hc Hwc out key.
  pose proof (processRate_alertCounts config exchange now st tr hc rateInfo) as Ha.
  cbv zeta in Ha. fold key in Ha. fold out in Ha. rewrite Hw in Ha.
  assert (Ht : out.1.2
               = tr ++ (if Decimal.gt (Decimal.abs (ri_rate rateInfo)) (Decimal.Fin c)
                        then _triggerAlert LevelCritical exchange (ri_symbol rateInfo)
                               (ri_rate rateInfo)
                        else if Decimal.gt (Decimal.abs (ri_rate rateInfo)) (Decimal.Fin w)
                        then _triggerAlert LevelWarning exchange (ri_symbol rateInfo)
                               (ri_rate rateInfo)
                        else [])
               /\ (Decimal.gt (Decimal.abs (ri_rate rateInfo)) (Decimal.Fin c) = false ->
                   out.2 = hc)).
  { subst out. unfold processRate. rewrite Hw, Hc.
    destruct (Decimal.gt (Decimal.abs (ri_rate rateInfo)) (Decimal.Fin c)).
    - split; [reflexivity|discriminate].
    - destruct (Decimal.gt (Decimal.abs (ri_rate rateInfo)) (Decimal.Fin w));
        split; reflexivity. }
  destruct Ht as [Ht Hh].
  destruct (Decimal.gt (Decimal.abs (ri_rate rateInfo)) (Decimal.Fin c)) eqn:Ec.
  - left. exists LevelCritical.
    rewrite (Decimal_gt_trans_fin _ w c Hwc Ec) in Ha.
    split; [exact Ht|]. split; [tauto|]. rewrite Ha. apply lookup_insert_eq.
  - destruct (Decimal.gt (Decimal.abs (ri_rate rateInfo)) (Decimal.Fin w)) eqn:Ew.
    + left. exists LevelWarning. split; [exact Ht|].
      split; [split; discriminate|]. rewrite Ha. apply lookup_insert_eq.
    + right. rewrite app_nil_r in Ht. split; [exact Ht|]. split; [now apply Hh|].
      rewrite Ha. apply lookup_insert_eq.
Qed.

End Alerts.

Lemma alert_emitted_iff_counter_incremented_witness :
  let out := FundingRateMonitor.processRate FundingRateMonitor.defaultConfig "X" 0
               (FundingRateMonitor.initial, [], false) (Scenario.rateInfo (Decimal.dec 6 4)) in
  (exists level,
      out.1.2 = [] ++ FundingRateMonitor._triggerAlert level "X" "BTCUSDT" (Decimal.dec 6 4)
      /\ (level = FundingRateMonitor.LevelCritical
          <-> Decimal.gt (Decimal.abs (Decimal.dec 6 4)) (Decimal.Fin (1 # 1000)) = true)
      /\ FundingRateMonitor.alertCounts out.1.1 !! FundingRateMonitor.alertKey "X" "BTCUSDT"
         = Some (default 0 (FundingRateMonitor.alertCounts FundingRateMonitor.initial
                              !! FundingRateMonitor.alertKey "X" "BTCUSDT") + 1))
  \/ (out.1.2 = [] /\ out.2 = false
      /\ FundingRateMonitor.alertCounts out.1.1 !! FundingRateMonitor.alertKey "X" "BTCUSDT"
         = Some 0).
Proof.
  apply (alert_emitted_iff_counter_incremented FundingRateMonitor.defaultConfig "X" 0
           FundingRateMonitor.initial [] false (Scenario.rateInfo (Decimal.dec 6 4))
           (1 # 2000) (1 # 1000)).
  - reflexivity.
  - reflexivity.
  - vm_compute. discriminate.
Defined.

Section Hedging.
Import FundingRateMonitor.
Variable config : Config.
Variable exchanges : JsObject.t ExchangeAdapter.

Lemma omap_all_None {A B} (f : A -> option B) (l : list A) :
  Forall (fun x => f x = None) l -> omap f l = [].
Proof.
  induction 1 as [|x l Hx _ IH]; [reflexivity|].
  cbn [omap list_omap]. now rewrite Hx, IH.
Qed.

Lemma checkHedging_nil st : noOpenedString st -> _checkHedging st = [].
Proof.
  intros Hno. unfold _checkHedging. apply omap_all_None.
  apply Forall_forall. intros [k v] Hin.
  apply elem_of_map_to_list in Hin.
  destruct v as [s|h]; [|reflexivity].
  destruct (String.eqb s "opened") eqn:E; [|reflexivity].
  apply String.eqb_eq in E. subst s. now apply Hno in Hin.
Qed.

Lemma executeHedge_noOpenedString st symbol longExchange shortExchange now :
  noOpenedString st ->
  noOpenedString (_executeHedge exchanges st symbol longExchange shortExchange now).1.
Proof.
  intros Hno. unfold _executeHedge. destruct (truthy _); [exact Hno|].
  destruct (openHedge exchanges symbol longExchange shortExchange now) as [tr [h|e]];
    intros key; simpl;
    (destruct (decide (hedgeKey symbol longExchange shortExchange = key)) as [<-|Hk];
     [rewrite lookup_insert_eq; discriminate
     |rewrite !lookup_insert_ne by exact Hk; apply Hno]).
Qed.

Lemma fold_processRate_positionStatus exchange now rateInfos :
  forall acc,
    positionStatus (fold_left (processRate config exchange now) rateInfos acc).1.1
    = positionStatus acc.1.1.
Proof.
  induction rateInfos as [|r rs IH]; intros [[st tr] hc]; cbn [fold_left];
    [reflexivity|].
  rewrite IH. apply processRate_positionStatus.
Qed.

Lemma processRates_positionStatus st exchange now rateInfos :
  positionStatus (_processRates config st exchange now rateInfos).1 = positionStatus st.
Proof.
  unfold _processRates.
  pose proof (fold_processRate_positionStatus exchange now rateInfos (st, [], false)) as H.
  destruct (fold_left (processRate config exchange now) rateInfos (st, [], false))
    as [[st1 tr1] hc1].
  exact H.
Qed.

Lemma processRate_no_monitor exchange now st tr hc rateInfo :
  forallb (fun e => negb (isMonitorHedgePosition e)) tr = true ->
  forallb (fun e => negb (isMonitorHedgePosition e))
          (processRate config exchange now (st, tr, hc) rateInfo).1.2 = true.
Proof.
  intros Htr. unfold processRate.
  destruct (Decimal.gt (Decimal.abs (ri_rate rateInfo)) (critical (thresholds config))).
  - simpl. rewrite forallb_app, Htr. reflexivity.
  - destruct (Decimal.gt (Decimal.abs (ri_rate rateInfo)) (warning (thresholds config)));
      simpl; rewrite forallb_app, Htr; reflexivity.
Qed.

Lemma fold_processRate_no_monitor exchange now rateInfos :
  forall acc,
    forallb (fun e => negb (isMonitorHedgePosition e)) acc.1.2 = true ->
    forallb (fun e => negb (isMonitorHedgePosition e))
            (fold_left (processRate config exchange now) rateInfos acc).1.2 = true.
Proof.
  induction rateInfos as [|r rs IH]; intros [[st tr] hc] H; cbn [fold_left];
    [exact H|].
  apply IH.
  pose proof (processRate_no_monitor exchange now st tr hc r H) as H'.
  destruct (processRate config exchange now (st, tr, hc) r) as [[st' tr'] hc'].
  exact H'.
Qed.

Lemma checkSymbol_noOpenedString st tr symbol now :
  noOpenedString st ->
  noOpenedString (checkSymbol config exchanges now (st, tr) symbol).1.
Proof.
  intros Hno. unfold checkSymbol.
  destruct (2 <=? length (collectRates exchanges st symbol))%nat; [|exact Hno].
  destruct (_findMaxRate _) as [maxEx maxRate].
  destruct (_findMinRate _) as [minEx minRate].
  destruct (Decimal.gt _ _); [|exact Hno].
  unfold _triggerArbitrageAlert. destruct (autoHedge config); [|exact Hno].
  pose proof (executeHedge_noOpenedString st symbol maxEx minEx now Hno) as H.
  destruct (_executeHedge exchanges st symbol maxEx minEx now) as [st' tr'].
  exact H.
Qed.

Lemma scan_noOpenedString st now :
  noOpenedString st ->
  noOpenedString (_checkArbitrageOpportunities config exchanges st now).1.
Proof.
  unfold _checkArbitrageOpportunities. generalize (@nil Effect) as tr.
  generalize (_findCommonSymbols st) as symbols. intros symbols. revert st.
  induction symbols as [|s symbols IH]; intros st tr Hno; cbn [fold_left];
    [exact Hno|].
  pose proof (checkSymbol_noOpenedString st tr s now Hno) as H.
  destruct (checkSymbol config exchanges now (st, tr) s) as [st1 tr1].
  now apply IH.
Qed.

Lemma openHedge_status symbol longExchange shortExchange now :
  forall h, (openHedge exchanges symbol longExchange shortExchange now).2 = Ok h ->
    status h = "opened"%string
    /\ FundingRateMonitor.longExchange h = longExchange
    /\ FundingRateMonitor.shortExchange h = shortExchange.
Proof.
  unfold openHedge, callOn.
  destruct (JsObject.get exchanges longExchange) as [exL|]; [|discriminate].
  destruct (JsObject.get exchanges shortExchange) as [exS|]; [|discriminate].
  destruct (getBalance exL) as [bl|e1]; [|discriminate].
  destruct (getBalance exS) as [bs|e2]; [|discriminate].
  cbn [promiseAll2 bind].
  destruct (Decimal.lte _ _); [discriminate|].
  destruct (getPrice exL symbol) as [pl|e3]; [|discriminate].
  destruct (getPrice exS symbol) as [ps|e4]; [|discriminate].
  cbn [promiseAll2 bind].
  destruct (createOrder exL symbol Buy _) as [lo|e5]; [|discriminate].
  destruct (createOrder exS symbol Sell _) as [so|e6]; [|discriminate].
  intros h Hh. simpl in Hh. inversion Hh; subst. auto.
Qed.

(** X4. The hedge check that follows a critical alert never starts a
    monitor: no value that the monitor writes to [positionStatus] is
    the string ['opened'] ([_executeHedge] stores ['opening'],
    ['failed'] or an object), the property holds initially and is kept
    by ingestion, by opens and by scans, and under it [_checkHedging]
    selects no key, so a batch of observations only emits alerts. *)
Theorem checkHedging_never_monitors :
  forall (st : Monitor) (exchange : string) (now : Z) (rateInfos : list RateInfo)
         (symbol longExchange shortExchange : string),
    noOpenedString st ->
    _checkHedging st = []
    /\ forallb (fun e => negb (isMonitorHedgePosition e))
               (_processRates config st exchange now rateInfos).2 = true
    /\ noOpenedString (_processRates config st exchange now rateInfos).1
    /\ noOpenedString (_executeHedge exchanges st symbol longExchange shortExchange now).1
    /\ noOpenedString (_checkArbitrageOpportunities config exchanges st now).1
    /\ noOpenedString initial.
Proof.
  intros st exchange now rateInfos symbol longExchange shortExchange Hno.
  assert (Hp : noOpenedString (_processRates config st exchange now rateInfos).1).
  { intros key. rewrite processRates_positionStatus. apply Hno. }
  split; [now apply checkHedging_nil|]. split; [|split; [exact Hp|split; [|split]]].
  - pose proof (checkHedging_nil _ Hp) as Hc. revert Hc. unfold _processRates.
    pose proof (fold_processRate_no_monitor exchange now rateInfos (st, [], false)
                  eq_refl) as H.
    destruct (fold_left (processRate config exchange now) rateInfos (st, [], false))
      as [[st1 tr1] hc1].
    simpl in *. intros Hc. destruct hc1; [|exact H].
    rewrite Hc, app_nil_r. exact H.
  - now apply executeHedge_noOpenedString.
  - now apply scan_noOpenedString.
  - intros key. unfold initial. simpl. rewrite lookup_empty. discriminate.
Qed.

(** X7. An open touches one key only: the rates, the history, the
    alert counters and every other entry of [positionStatus] are as
    before. When the key held a truthy value nothing changes at all;
    otherwise the key never stays ['opening']: it ends as ['failed'] or
    as the object of an opened hedge naming the two exchanges. *)
Theorem executeHedge_settles_its_key :
  forall (st : Monitor) (symbol longExchange shortExchange : string) (now : Z),
    let key := hedgeKey symbol longExchange shortExchange in
    let st' := (_executeHedge exchanges st symbol longExchange shortExchange now).1 in
    rates st' = rates st /\ history st' = history st /\ alertCounts st' = alertCounts st
    /\ (forall k, k <> key -> positionStatus st' !! k = positionStatus st !! k)
    /\ if truthy (positionStatus st !! key)
       then st' = st
       else positionStatus st' !! key = Some (StatusString "failed")
            \/ exists h, positionStatus st' !! key = Some (StatusObject h)
                         /\ status h = "opened"%string
                         /\ FundingRateMonitor.longExchange h = longExchange
                         /\ FundingRateMonitor.shortExchange h = shortExchange.
Proof.
  intros st symbol longExchange shortExchange now key st'. subst st'.
  unfold _executeHedge. fold key.
  destruct (truthy (positionStatus st !! key)) eqn:Ht.
  - simpl. repeat split; auto.
  - pose proof (openHedge_status symbol longExchange shortExchange now) as Hs.
    destruct (openHedge exchanges symbol longExchange shortExchange now) as [tr [h|e]];
      simpl; repeat split; auto;
      try (intros k Hk; now rewrite !lookup_insert_ne by congruence).
    + right. exists h. rewrite lookup_insert_eq. split; [reflexivity|]. now apply Hs.
    + left. apply lookup_insert_eq.
Qed.

End Hedging.

Section Scan.
Import FundingRateMonitor.
Variable config : Config.
Variable exchanges : JsObject.t ExchangeAdapter.

Lemma fold_intersect (rest : list (list string)) :
  forall (a : list string) (x : string),
    x ∈ fold_left (fun a b => filter (fun x => bool_decide (x ∈ b)) a) rest a
    <-> x ∈ a /\ forall b, b ∈ rest -> x ∈ b.
Proof.
  induction rest as [|b rest IH]; intros a x; cbn [fold_left].
  - split; [intros H; split; [exact H|intros b Hb; inversion Hb]|tauto].
  - rewrite IH, list_elem_of_filter, bool_decide_spec. split.
    + intros [[Hb Ha] Hall]. split; [exact Ha|].
      intros b' Hb'. apply elem_of_cons in Hb' as [->|Hb']; auto.
    + intros [Ha Hall]. split; [split; [|exact Ha]|].
      * apply Hall. left.
      * intros b' Hb'. apply Hall. now right.
Qed.

(** X5. The common symbols are exactly the symbols that every
    exchange with stored rates lists, and there are none while no
    exchange has reported. *)
Theorem findCommonSymbols_is_intersection :
  forall (st : Monitor) (symbol : string),
    symbol ∈ _findCommonSymbols st
    <-> rates st <> []
        /\ forall exchangeRates, exchangeRates ∈ JsObject.values (rates st) ->
                                 symbol ∈ JsObject.keys exchangeRates.
Proof.
  intros st symbol. unfold _findCommonSymbols, JsObject.values.
  destruct (rates st) as [|[ex0 o0] rs]; cbn [map].
  - split; [intros H; inversion H|intros [H _]; congruence].
  - rewrite fold_intersect. split.
    + intros [H0 Hall]. split; [discriminate|].
      intros o Ho. apply elem_of_cons in Ho as [->|Ho]; [exact H0|].
      apply Hall. apply list_elem_of_fmap in Ho as (p & -> & Hp).
      apply list_elem_of_fmap. exists p.2. split; [reflexivity|].
      apply list_elem_of_fmap. now exists p.
    + intros [_ Hall]. split; [apply Hall; left|].
      intros b Hb. apply list_elem_of_fmap in Hb as (o & -> & Ho).
      apply Hall. now right.
Qed.

Lemma openHedge_adapter_calls symbol longExchange shortExchange now :
  forallb isAdapterCall (openHedge exchanges symbol longExchange shortExchange now).1 = true.
Proof.
  unfold openHedge, callOn.
  destruct (JsObject.get exchanges longExchange) as [exL|]; [|reflexivity].
  destruct (JsObject.get exchanges shortExchange) as [exS|]; [|reflexivity].
  destruct (getBalance exL) as [bl|e1]; [|reflexivity].
  destruct (getBalance exS) as [bs|e2]; [|reflexivity].
  cbn [promiseAll2 bind].
  destruct (Decimal.lte _ _); [reflexivity|].
  destruct (getPrice exL symbol) as [pl|e3]; [|reflexivity].
  destruct (getPrice exS symbol) as [ps|e4]; [|reflexivity].
  cbn [promiseAll2 bind].
  destruct (createOrder exL symbol Buy _) as [lo|e5]; [|reflexivity].
  destruct (createOrder exS symbol Sell _) as [so|e6]; reflexivity.
Qed.

Lemma executeHedge_adapter_calls st symbol longExchange shortExchange now :
  forallb isAdapterCall
          (_executeHedge exchanges st symbol longExchange shortExchange now).2 = true.
Proof.
  unfold _executeHedge. destruct (truthy _); [reflexivity|].
  pose proof (openHedge_adapter_calls symbol longExchange shortExchange now) as H.
  destruct (openHedge exchanges symbol longExchange shortExchange now) as [tr [h|e]];
    exact H.
Qed.

Lemma adapterCall_scanEffect e :
  autoHedge config = true -> isAdapterCall e = true -> scanEffect config e.
Proof.
  intros Ha He. split; [|right; auto]. destruct e; try exact I. discriminate.
Qed.

Lemma checkSymbol_effects st tr symbol now :
  Forall (scanEffect config) tr ->
  Forall (scanEffect config) (checkSymbol config exchanges now (st, tr) symbol).2
  /\ (autoHedge config = false ->
      (checkSymbol config exchanges now (st, tr) symbol).1 = st).
Proof.
  intros Htr. unfold checkSymbol.
  destruct (2 <=? length (collectRates exchanges st symbol))%nat; [|split; auto].
  destruct (_findMaxRate _) as [maxEx maxRate].
  destruct (_findMinRate _) as [minEx minRate].
  destruct (Decimal.gt (Decimal.sub maxRate minRate) (arbitrage (thresholds config)))
    eqn:Hgt; [|split; auto].
  unfold _triggerArbitrageAlert.
  destruct (autoHedge config) eqn:Ha.
  - pose proof (executeHedge_adapter_calls st symbol maxEx minEx now) as Hc.
    destruct (_executeHedge exchanges st symbol maxEx minEx now) as [st' tr'].
    simpl in *. split; [|discriminate].
    apply Forall_app. split; [exact Htr|]. constructor.
    + split; [split; [reflexivity|exact Hgt]|now left].
    + apply Forall_forall. intros e He.
      apply adapterCall_scanEffect; [exact Ha|].
      rewrite forallb_forall in Hc. apply Hc. now apply list_elem_of_In.
  - simpl. split; [|reflexivity].
    apply Forall_app. split; [exact Htr|]. constructor; [|constructor].
    split; [split; [reflexivity|exact Hgt]|now left].
Qed.

Lemma fold_checkSymbol_effects symbols now :
  forall st tr,
    Forall (scanEffect config) tr ->
    Forall (scanEffect config) (fold_left (checkSymbol config exchanges now) symbols (st, tr)).2
    /\ (autoHedge config = false ->
        (fold_left (checkSymbol config exchanges now) symbols (st, tr)).1 = st).
Proof.
  induction symbols as [|s symbols IH]; intros st tr Htr; cbn [fold_left].
  - split; auto.
  - destruct (checkSymbol_effects st tr s now Htr) as [H1 H2].
    destruct (checkSymbol config exchanges now (st, tr) s) as [st1 tr1].
    simpl in H1, H2. destruct (IH st1 tr1 H1) as [H3 H4].
    split; [exact H3|]. intros Ha. rewrite H4 by exact Ha. now apply H2.
Qed.

(** X6. Every opportunity that a scan emits has spread = long rate -
    short rate above the arbitrage threshold, and a scan does nothing
    else than emitting opportunities and, with auto-hedge on, making
    the adapter calls of the hedges it starts: with auto-hedge off it
    calls no adapter and leaves the monitor's state as it is. *)
Theorem scan_emits_only_spreads_above_threshold :
  forall (st : Monitor) (now : Z),
    let scan := _checkArbitrageOpportunities config exchanges st now in
    Forall (scanEffect config) scan.2
    /\ if autoHedge config then True
       else scan.1 = st /\ forallb isArbitrage scan.2 = true.
Proof.
  intros st now scan. subst scan. unfold _checkArbitrageOpportunities.
  destruct (fold_checkSymbol_effects (_findCommonSymbols st) now st [] (List.Forall_nil _))
    as [H1 H2].
  split; [exact H1|].
  destruct (autoHedge config) eqn:Ha; [exact I|].
  split; [now apply H2|].
  apply forallb_forall. intros e He.
  rewrite Forall_forall in H1. apply list_elem_of_In in He.
  destruct (H1 e He) as [_ [Hb|[Hc _]]]; [exact Hb|].
  rewrite Ha in Hc. discriminate.
Qed.

End Scan.

Section Orders.
Import FundingRateMonitor.
Variable exchanges : JsObject.t ExchangeAdapter.

(** X8. The monitor places orders only as a pair and only after
    everything before them succeeded: if an open creates any order,
    the key was free, both adapters exist, both balance queries and
    both price queries were fulfilled, the size is above 0, and the
    effects are exactly the two balance queries, the two price
    queries, the buy and the sell. A rejected query or a missing
    adapter therefore leaves no order behind. *)
Theorem orders_only_after_balances_and_prices :
  forall (st : Monitor) (symbol longExchange shortExchange : string) (now : Z),
    existsb isCreateOrder
      (_executeHedge exchanges st symbol longExchange shortExchange now).2 = true ->
    exists exL exS longBal shortBal longPrice shortPrice,
      truthy (positionStatus st !! hedgeKey symbol longExchange shortExchange) = false
      /\ JsObject.get exchanges longExchange = Some exL
      /\ JsObject.get exchanges shortExchange = Some exS
      /\ getBalance exL = Ok longBal /\ getBalance exS = Ok shortBal
      /\ Decimal.lte (maxSizeFor longBal shortBal) (Decimal.of_Z 0) = false
      /\ getPrice exL symbol = Ok longPrice /\ getPrice exS symbol = Ok shortPrice
      /\ (_executeHedge exchanges st symbol longExchange shortExchange now).2
         = [CallGetBalance longExchange; CallGetBalance shortExchange;
            CallGetPrice longExchange symbol; CallGetPrice shortExchange symbol;
            CallCreateOrder longExchange symbol Buy
              (quantityFor (maxSizeFor longBal shortBal) longPrice);
            CallCreateOrder shortExchange symbol Sell
              (quantityFor (maxSizeFor longBal shortBal) shortPrice)].
Proof.
  intros st symbol longExchange shortExchange now.
  destruct (truthy (positionStatus st !! hedgeKey symbol longExchange shortExchange))
    eqn:Ht.
  { unfold _executeHedge. rewrite Ht. discriminate. }
  rewrite (executeHedge_trace exchanges st symbol longExchange shortExchange now Ht).
  destruct (JsObject.get exchanges longExchange) as [exL|] eqn:HL;
    [|unfold openHedge, callOn; rewrite HL; discriminate].
  destruct (JsObject.get exchanges shortExchange) as [exS|] eqn:HS;
    [|unfold openHedge, callOn; rewrite HL, HS; discriminate].
  destruct (getBalance exL) as [bl|e1] eqn:HbL;
    [|unfold openHedge, callOn; rewrite HL, HS, HbL;
      destruct (getBalance exS); discriminate].
  destruct (getBalance exS) as [bs|e2] eqn:HbS;
    [|unfold openHedge, callOn; rewrite HL, HS, HbL, HbS; discriminate].
  destruct (Decimal.lte (maxSizeFor bl bs) (Decimal.of_Z 0)) eqn:Hle.
  { rewrite (openHedge_insufficient exchanges symbol longExchange shortExchange now
               exL exS bl bs HL HS HbL HbS Hle). discriminate. }
  destruct (getPrice exL symbol) as [pl|e3] eqn:HpL.
  2:{ unfold openHedge, callOn. rewrite HL, HS, HbL, HbS. cbn [promiseAll2 bind].
      fold (maxSizeFor bl bs). rewrite Hle, HpL.
      destruct (getPrice exS symbol); discriminate. }
  destruct (getPrice exS symbol) as [ps|e4] eqn:HpS.
  2:{ unfold openHedge, callOn. rewrite HL, HS, HbL, HbS. cbn [promiseAll2 bind].
      fold (maxSizeFor bl bs). rewrite Hle, HpL, HpS. discriminate. }
  intros _. exists exL, exS, bl, bs, pl, ps.
  rewrite (openHedge_orders exchanges symbol longExchange shortExchange now
             exL exS bl bs pl ps HL HS HbL HbS Hle HpL HpS).
  repeat split; auto.
Qed.

End Orders.

Lemma orders_only_after_balances_and_prices_witness :
  exists exL exS longBal shortBal longPrice shortPrice,
    FundingRateMonitor.truthy
      (FundingRateMonitor.positionStatus FundingRateMonitor.initial
         !! FundingRateMonitor.hedgeKey "BTCUSDT" "X" "Y") = false
    /\ JsObject.get Scenario.monExchanges "X" = Some exL
    /\ JsObject.get Scenario.monExchanges "Y" = Some exS
    /\ FundingRateMonitor.getBalance exL = Ok longBal
    /\ FundingRateMonitor.getBalance exS = Ok shortBal
    /\ Decimal.lte (FundingRateMonitor.maxSizeFor longBal shortBal) (Decimal.of_Z 0) = false
    /\ FundingRateMonitor.getPrice exL "BTCUSDT" = Ok longPrice
    /\ FundingRateMonitor.getPrice exS "BTCUSDT" = Ok shortPrice
    /\ (FundingRateMonitor._executeHedge Scenario.monExchanges FundingRateMonitor.initial
          "BTCUSDT" "X" "Y" 0).2
       = [FundingRateMonitor.CallGetBalance "X"; FundingRateMonitor.CallGetBalance "Y";
          FundingRateMonitor.CallGetPrice "X" "BTCUSDT";
          FundingRateMonitor.CallGetPrice "Y" "BTCUSDT";
          FundingRateMonitor.CallCreateOrder "X" "BTCUSDT" Buy
            (FundingRateMonitor.quantityFor
               (FundingRateMonitor.maxSizeFor longBal shortBal) longPrice);
          FundingRateMonitor.CallCreateOrder "Y" "BTCUSDT" Sell
            (FundingRateMonitor.quantityFor
               (FundingRateMonitor.maxSizeFor longBal shortBal) shortPrice)].
Proof.
  apply (orders_only_after_balances_and_prices Scenario.monExchanges
           FundingRateMonitor.initial "BTCUSDT" "X" "Y" 0).
  vm_compute. reflexivity.
Defined.

(** ** Further properties: the Binance adapter *)

Lemma Decimal_eq_fin_zero (q : Q) :
  Decimal.eq (Decimal.Fin q) (Decimal.of_Z 0) = true <-> (q == 0)%Q.
Proof.
  unfold Decimal.eq, Decimal.of_Z, Decimal.cmp.
  change (inject_Z 0) with 0%Q. rewrite Qeq_alt.
  destruct (q ?= 0)%Q; split; congruence.
Qed.

(** X9. [closePosition] never submits an order for a flat or missing
    position: it throws after the position query. For a long position
    (amount above 0) it submits exactly one sell of the amount, for a
    short position exactly one buy of the absolute amount. *)
Theorem closePosition_opposite_side_or_throws :
  forall (order : string -> Side -> Decimal.t -> result BinanceAdapter.ClientOrderResult)
         (symbol : string) (q : Q) (rest : list Decimal.t) (e : JsError),
    let r := BinanceAdapter.closePosition (Ok (Decimal.Fin q :: rest)) order symbol in
    match (q ?= 0)%Q with
    | Eq => r = ([BinanceAdapter.ClientPositionRisk symbol],
                 Throw (Error ("仓位已平: " ++ symbol)))
    | Gt => r.1 = [BinanceAdapter.ClientPositionRisk symbol;
                   BinanceAdapter.ClientOrder symbol Sell (Decimal.Fin (Qred q))]
    | Lt => r.1 = [BinanceAdapter.ClientPositionRisk symbol;
                   BinanceAdapter.ClientOrder symbol Buy (Decimal.Fin (Qred (- q)))]
    end
    /\ BinanceAdapter.closePosition (Ok []) order symbol
       = ([BinanceAdapter.ClientPositionRisk symbol],
          Throw (Error ("未找到仓位: " ++ symbol)))
    /\ BinanceAdapter.closePosition (Throw e) order symbol
       = ([BinanceAdapter.ClientPositionRisk symbol], Throw e).
Proof.
  intros order symbol q rest e r. split; [|split; reflexivity].
  subst r. unfold BinanceAdapter.closePosition.
  destruct (Qcompare_spec q 0) as [E|E|E].
  - apply Decimal_eq_fin_zero in E. rewrite E. reflexivity.
  - assert (Hz : Decimal.eq (Decimal.Fin q) (Decimal.of_Z 0) = false).
    { destruct (Decimal.eq _ _) eqn:Ez; [|reflexivity].
      apply Decimal_eq_fin_zero in Ez. rewrite Ez in E. discriminate. }
    rewrite Hz.
    assert (Hg : Decimal.gt (Decimal.Fin q) (Decimal.of_Z 0) = false).
    { destruct (Decimal.gt _ _) eqn:Eg; [|reflexivity].
      apply Decimal_gt_fin in Eg. change (inject_Z 0) with 0%Q in Eg. lra. }
    rewrite Hg. unfold BinanceAdapter.createOrder. cbn [fst Decimal.abs].
    do 4 f_equal. apply Qred_complete. apply Qabs_neg. lra.
  - assert (Hz : Decimal.eq (Decimal.Fin q) (Decimal.of_Z 0) = false).
    { destruct (Decimal.eq _ _) eqn:Ez; [|reflexivity].
      apply Decimal_eq_fin_zero in Ez. rewrite Ez in E. discriminate. }
    rewrite Hz.
    assert (Hg : Decimal.gt (Decimal.Fin q) (Decimal.of_Z 0) = true).
    { apply Decimal_gt_fin. exact E. }
    rewrite Hg. unfold BinanceAdapter.createOrder. cbn [fst Decimal.abs].
    do 4 f_equal. apply Qred_complete. apply Qabs_pos. lra.
Qed.

Lemma fold_add_bounds (m : Q) (rates : list Decimal.t) :
  Forall (fun r => exists q, r = Decimal.Fin q /\ (0 <= q <= m)%Q) rates ->
  forall a0, (0 <= a0)%Q ->
    exists a, fold_left (fun acc item => Decimal.add acc item) rates (Decimal.Fin a0)
              = Decimal.Fin a
              /\ (0 <= a)%Q
              /\ (a <= a0 + inject_Z (Z.of_nat (length rates)) * m)%Q.
Proof.
  induction 1 as [|r rates (q & -> & Hq) _ IH]; intros a0 Ha0.
  - exists a0. split; [reflexivity|]. split; [exact Ha0|].
    cbn [length Z.of_nat]. change (inject_Z 0) with 0%Q.
    rewrite Qmult_0_l, Qplus_0_r. apply Qle_refl.
  - cbn [fold_left Decimal.add].
    assert (Hs : (0 <= a0 + q)%Q) by lra.
    destruct (round_sd_bounds Decimal.precision (a0 + q) Hs) as [H1 H2].
    fold (Decimal.finalise (a0 + q)) in H1, H2.
    destruct (IH _ H1) as (a & Ha & Ha1 & Ha2).
    exists a. split; [exact Ha|]. split; [exact Ha1|].
    cbn [length]. rewrite Nat2Z.inj_succ, <- Z.add_1_r, inject_Z_plus.
    change (inject_Z 1) with 1%Q.
    set (n := inject_Z (Z.of_nat (length rates))) in *.
    set (f := Decimal.finalise (a0 + q)) in *. clearbody f n.
    lra.
Qed.

(** X10. The average of funding rates that are all finite and between
    0 and a bound is a finite decimal between 0 and that bound; it is
    0 for an empty history. Rounding toward zero keeps the sum and the
    quotient from exceeding their exact values. *)
Theorem getAvgFundingRate_within_bounds :
  forall (rates : list Decimal.t) (m : Q),
    (0 <= m)%Q ->
    Forall (fun r => exists q, r = Decimal.Fin q /\ (0 <= q <= m)%Q) rates ->
    BinanceAdapter.getAvgFundingRate (Ok []) = Ok (Decimal.of_Z 0)
    /\ exists a, BinanceAdapter.getAvgFundingRate (Ok rates) = Ok (Decimal.Fin a)
                 /\ (0 <= a <= m)%Q.
Proof.
  intros rates m Hm Hall. split; [reflexivity|].
  unfold BinanceAdapter.getAvgFundingRate.
  destruct rates as [|r rates].
  - exists 0%Q. split; [reflexivity|]. lra.
  - change ((length (r :: rates) =? 0)%nat) with false. cbv iota.
    destruct (fold_add_bounds m (r :: rates) Hall 0%Q ltac:(lra)) as (a & Ha & Ha1 & Ha2).
    change (Decimal.of_Z 0) with (Decimal.Fin 0). rewrite Ha.
    set (n := Z.of_nat (length (r :: rates))) in *.
    assert (Hn : (0 < inject_Z n)%Q).
    { change 0%Q with (inject_Z 0). rewrite <- Zlt_Qlt. subst n. simpl. lia. }
    unfold Decimal.of_Z. cbn [Decimal.div].
    assert (Hz : Decimal.is_zero (inject_Z n) = false).
    { unfold Decimal.is_zero. destruct (Qeq_bool (inject_Z n) 0) eqn:E; [|reflexivity].
      apply Qeq_bool_eq in E. rewrite E in Hn. discriminate. }
    rewrite Hz.
    assert (Hq : (0 <= a / inject_Z n)%Q).
    { apply Qle_shift_div_l; [exact Hn|]. now rewrite Qmult_0_l. }
    destruct (round_sd_bounds Decimal.precision _ Hq) as [H1 H2].
    eexists. split; [reflexivity|]. split; [exact H1|].
    apply Qle_trans with (y := (a / inject_Z n)%Q); [exact H2|].
    apply Qle_shift_div_r; [exact Hn|]. lra.
Qed.

Lemma getAvgFundingRate_within_bounds_witness :
  exists a, BinanceAdapter.getAvgFundingRate
              (Ok [Decimal.Fin (1 # 1000); Decimal.Fin (3 # 1000)]) = Ok (Decimal.Fin a)
            /\ (0 <= a <= 3 # 1000)%Q.
Proof.
  apply (getAvgFundingRate_within_bounds
           [Decimal.Fin (1 # 1000); Decimal.Fin (3 # 1000)] (3 # 1000)).
  - vm_compute. discriminate.
  - repeat constructor.
    + exists (1 # 1000). split; [reflexivity|]. split; vm_compute; discriminate.
    + exists (3 # 1000). split; [reflexivity|]. split; vm_compute; discriminate.
Defined.

(** ** Further properties: the analyzer's data window *)

Section Window.
Import MarketCondition.
Variable config : Config.

Lemma addData_window marketData newData :
  (addData config marketData newData).1
  = if historyLength config <? Z.of_nat (length marketData) + 1
    then tail (marketData ++ [toCandle newData])
    else marketData ++ [toCandle newData].
Proof.
  unfold addData, toCandle. cbn [fst].
  rewrite length_app. cbn [length].
  replace (Z.of_nat (length marketData + 1)) with (Z.of_nat (length marketData) + 1) by lia.
  reflexivity.
Qed.

Lemma tail_app_nonempty {A} (l1 l2 : list A) : l1 <> [] -> tail (l1 ++ l2) = tail l1 ++ l2.
Proof. destruct l1; [congruence|reflexivity]. Qed.

Lemma addAll_spec (items : list NewData) :
  forall marketData,
    0 <= historyLength config ->
    Z.of_nat (length marketData) <= historyLength config ->
    let all := marketData ++ map toCandle items in
    addAll config marketData items
    = drop (length all - Z.to_nat (historyLength config)) all.
Proof.
  induction items as [|x items IH]; intros marketData Hc Hlen all; subst all.
  - unfold addAll. cbn [fold_left map]. rewrite app_nil_r.
    replace (length marketData - Z.to_nat (historyLength config))%nat with 0%nat by lia.
    reflexivity.
  - unfold addAll. cbn [fold_left map]. fold (addAll config (addData config marketData x).1 items).
    rewrite addData_window.
    destruct (historyLength config <? Z.of_nat (length marketData) + 1) eqn:E.
    + apply Z.ltb_lt in E.
      assert (Hl : Z.of_nat (length (tail (marketData ++ [toCandle x])))
                   = Z.of_nat (length marketData)).
      { destruct marketData; cbn [app tail length]; [lia|].
        rewrite length_app. cbn [length]. lia. }
      rewrite IH by lia. cbv zeta.
      rewrite <- tail_app_nonempty by (destruct marketData; discriminate).
      rewrite <- app_assoc. cbn [app].
      set (L := marketData ++ toCandle x :: map toCandle items).
      assert (HL : (1 <= length L)%nat).
      { subst L. rewrite length_app. cbn [length]. lia. }
      rewrite <- (drop_0 L) at 1 2.
      replace (tail (drop 0 L)) with (drop 1 L) by (destruct L; reflexivity).
      rewrite drop_drop, length_drop.
      f_equal. subst L. rewrite length_app in *. cbn [length] in *.
      rewrite length_map in *. lia.
    + apply Z.ltb_ge in E.
      rewrite IH; [|lia|rewrite length_app; cbn [length]; lia].
      cbv zeta. rewrite <- app_assoc. reflexivity.
Qed.

(** X11. The analyzer's window is a sliding window of the configured
    length: starting from a window that is not over the limit, after
    any sequence of [addData] calls the window holds exactly the most
    recent [historyLength] items of everything received (all of them
    while there are fewer), oldest first, so it never exceeds the
    limit. *)
Theorem addData_keeps_most_recent :
  forall (marketData : list Candle) (items : list NewData),
    0 <= historyLength config ->
    Z.of_nat (length marketData) <= historyLength config ->
    let all := marketData ++ map toCandle items in
    addAll config marketData items
    = drop (length all - Z.to_nat (historyLength config)) all
    /\ Z.of_nat (length (addAll config marketData items)) <= historyLength config.
Proof.
  intros marketData items Hc Hlen all.
  pose proof (addAll_spec items marketData Hc Hlen) as H. cbv zeta in H. fold all in H.
  split; [exact H|]. rewrite H, length_drop. lia.
Qed.

End Window.

Lemma addData_keeps_most_recent_witness :
  let item (t : Z) :=
    {| MarketCondition.nd_timestamp := t;
       MarketCondition.nd_open := Decimal.of_Z 1; MarketCondition.nd_high := Decimal.of_Z 1;
       MarketCondition.nd_low := Decimal.of_Z 1; MarketCondition.nd_close := Decimal.of_Z 1;
       MarketCondition.nd_volume := None |} in
  let config := {| MarketCondition.historyLength := 2;
                   MarketCondition.volatilityWindow := 20 |} in
  MarketCondition.addAll config [] [item 1; item 2; item 3]
  = drop (length ([] ++ map MarketCondition.toCandle [item 1; item 2; item 3])
          - Z.to_nat (MarketCondition.historyLength config))
         ([] ++ map MarketCondition.toCandle [item 1; item 2; item 3])
  /\ Z.of_nat (length (MarketCondition.addAll config [] [item 1; item 2; item 3]))
     <= MarketCondition.historyLength config.
Proof.
  intros item config.
  apply (addData_keeps_most_recent config [] [item 1; item 2; item 3]).
  - simpl. lia.
  - simpl. lia.
Defined.

(** ** Further properties: the controller's switches *)

Section Switches.
Import HedgeControls.
Variable config : Config.
Variable exchanges : JsObject.t HedgeExchangeAdapter.
Variable minHedgeSpread : option Decimal.t.

Lemma executeHedge_switches st opportunity now :
  let st' := (_executeHedge exchanges st opportunity now).1.1 in
  emergencyStop st' = emergencyStop st /\ pnl_daily st' = pnl_daily st.
Proof.
  unfold _executeHedge.
  destruct (activeHedges st) as [hedges|]; [|auto].
  destruct (JsObject.get hedges (hedgeKey opportunity)); [auto|].
  destruct (openHedge exchanges opportunity now) as [tr [h|e]]; auto.
Qed.

Lemma closeHedge_switches st hedges key reason now :
  let st' := (_closeHedge exchanges st hedges key reason now).1 in
  emergencyStop st' = emergencyStop st /\ pnl_daily st' = pnl_daily st.
Proof.
  unfold _closeHedge.
  destruct (JsObject.get hedges key) as [hedge|]; [|auto].
  destruct (negb (String.eqb (h_status hedge) "active")); [auto|].
  match goal with |- context [match ?b with (_, _) => _ end] => destruct b as [tr [pnl|e]] end;
    auto.
Qed.

Lemma monitorHedge_switches now acc entry :
  let st' := (monitorHedge config exchanges now acc entry).1 in
  emergencyStop st' = emergencyStop acc.1 /\ pnl_daily st' = pnl_daily acc.1.
Proof.
  destruct acc as [st tr], entry as [key hedge]. unfold monitorHedge. cbn [fst].
  destruct (negb (String.eqb (h_status hedge) "active")); [auto|].
  match goal with |- context [match ?b with (_, _) => _ end] =>
    destruct b as [calls [[longPrice shortPrice]|e]] end; [|auto].
  destruct (Decimal.gte _ _).
  { pose proof (closeHedge_switches st (default [] (activeHedges st)) key "take_profit" now) as H.
    destruct (_closeHedge _ _ _ _ _ _) as [st' tr']. exact H. }
  destruct (Decimal.lte _ _).
  { pose proof (closeHedge_switches st (default [] (activeHedges st)) key "stop_loss" now) as H.
    destruct (_closeHedge _ _ _ _ _ _) as [st' tr']. exact H. }
  destruct (_calculateHedgePnl _ _ _); auto.
Qed.

Lemma fold_monitorHedge_switches now hedges :
  forall acc,
    let st' := (fold_left (monitorHedge config exchanges now) hedges acc).1 in
    emergencyStop st' = emergencyStop acc.1 /\ pnl_daily st' = pnl_daily acc.1.
Proof.
  induction hedges as [|entry hedges IH]; intros acc; cbn [fold_left]; [auto|].
  destruct (IH (monitorHedge config exchanges now acc entry)) as [H1 H2].
  destruct (monitorHedge_switches now acc entry) as [H3 H4].
  cbv zeta. split; congruence.
Qed.

Lemma monitorActiveHedges_switches st now :
  let st' := (_monitorActiveHedges config exchanges st now).1.1 in
  emergencyStop st' = emergencyStop st /\ pnl_daily st' = pnl_daily st.
Proof.
  unfold _monitorActiveHedges.
  destruct (activeHedges st) as [hedges|]; [|auto].
  pose proof (fold_monitorHedge_switches now hedges (st, [])) as H.
  destruct (fold_left _ _ _) as [st' tr]. exact H.
Qed.

Lemma calculateRiskExposure_switches st :
  let st' := (_calculateRiskExposure config exchanges st).1 in
  emergencyStop st' = emergencyStop st /\ pnl_daily st' = pnl_daily st.
Proof.
  unfold _calculateRiskExposure, bind, ret.
  destruct (_getAllPositions exchanges) as [tr1 [ps|e]]; [|auto].
  destruct (_calculateNetExposure exchanges ps) as [tr2 [x|e]]; [|auto].
  destruct (Decimal.gt _ _); auto.
Qed.

Lemma bestStep_some acc entry :
  (exists a b, acc = (Some a, Some b)) \/ acc = (None, None) ->
  exists a b, bestStep acc entry = (Some a, Some b).
Proof.
  destruct entry as [exchange price].
  intros [(a & b & E)|E]; subst acc; cbn.
  - destruct a as [ea pa], b as [eb pb].
    destruct (Decimal.gt price pa), (Decimal.lt price pb); eauto.
  - eauto.
Qed.

Lemma fold_bestStep_some entries :
  forall acc, (exists a b, acc = (Some a, Some b)) ->
    exists a b, fold_left bestStep entries acc = (Some a, Some b).
Proof.
  induction entries as [|entry entries IH]; intros acc H; cbn [fold_left]; [exact H|].
  apply IH. apply bestStep_some. now left.
Qed.

Lemma checkHedgeOpportunity_switches st symbol now :
  let st' := (_checkHedgeOpportunity exchanges minHedgeSpread st symbol now).1 in
  emergencyStop st' = emergencyStop st /\ pnl_daily st' = pnl_daily st.
Proof.
  unfold _checkHedgeOpportunity.
  destruct (emergencyStop st) eqn:E; [cbn [fst]; auto|].
  destruct (_getAllPrices exchanges symbol) as [calls prices].
  destruct (_findBestHedgeOpportunity minHedgeSpread symbol prices) as [[op|]|e];
    [|cbn [fst]; auto..].
  pose proof (executeHedge_switches st op now) as H.
  destruct (_executeHedge exchanges st op now) as [[st' tr] [u|e]]; cbn [fst] in *;
    rewrite E in H; exact H.
Qed.

Lemma step_switches st st' :
  step config exchanges minHedgeSpread st st' ->
  (emergencyStop st = true -> emergencyStop st' = true)
  /\ (pnl_daily st' = pnl_daily st \/ pnl_daily st' = Decimal.of_Z 0).
Proof.
  intros H. destruct H.
  - destruct (executeHedge_switches st opportunity now) as [-> ->]; auto.
  - destruct (monitorActiveHedges_switches st now) as [-> ->]; auto.
  - destruct (calculateRiskExposure_switches st) as [-> ->]; auto.
  - destruct (checkHedgeOpportunity_switches st symbol now) as [-> ->]; auto.
  - unfold _updatePnL.
    destruct ((hours =? 0) && (minutes <? 10)); [|cbn; auto].
    destruct (negb dailyPnlReset); cbn; auto.
  - cbn; auto.
  - cbn; auto.
  - unfold emergencyShutdown. cbn.
    destruct (_getAllPositions exchanges). cbn; auto.
Qed.

(** X12. The emergency stop is a one-way switch: no method of the
    controller clears it, so once it is set it stays set through any
    sequence of calls (opening, monitoring, risk ticks, ticker checks,
    PnL ticks, start, stop, shutdown). *)
Theorem emergencyStop_never_cleared :
  forall st st',
    rtc (step config exchanges minHedgeSpread) st st' ->
    emergencyStop st = true ->
    emergencyStop st' = true.
Proof.
  intros st st' H. induction H as [|x y z Hxy _ IH]; [auto|].
  intros Hx. apply IH. now apply (step_switches x y).
Qed.

(** X13. No method adds to the daily PnL: the only write of
    [pnl.daily] is the reset to 0, so after any sequence of calls the
    field has the value it started with or 0, and on an instance
    fresh from the constructor it is 0 throughout. *)
Theorem pnl_daily_never_accumulated :
  forall st st',
    rtc (step config exchanges minHedgeSpread) st st' ->
    (pnl_daily st' = pnl_daily st \/ pnl_daily st' = Decimal.of_Z 0)
    /\ (st = constructor -> pnl_daily st' = Decimal.of_Z 0).
Proof.
  intros st st' H.
  assert (G : pnl_daily st' = pnl_daily st \/ pnl_daily st' = Decimal.of_Z 0).
  { induction H as [|x y z Hxy _ IH]; [auto|].
    destruct (step_switches x y Hxy) as [_ [E|E]]; destruct IH as [E'|E']; auto.
    - left; congruence.
    - right; congruence. }
  split; [exact G|]. intros ->. destruct G as [G|G]; rewrite G; reflexivity.
Qed.

End Switches.

(** ** Further properties: looking for a price spread *)

Section Opportunities.
Import HedgeControls.
Variable config : Config.
Variable exchanges : JsObject.t HedgeExchangeAdapter.

(** X14. Without [minHedgeSpread] in the configuration, which is the
    constructor's default, a ticker check never opens a hedge and
    never changes the instance: it queries every exchange's price
    and, as soon as two prices come back, ends in the
    invalid-argument error of the comparison, emitted as ['error']. *)
Theorem checkHedgeOpportunity_without_minHedgeSpread :
  forall st symbol now,
    _checkHedgeOpportunity exchanges None st symbol now
    = if emergencyStop st then (st, [])
      else let '(calls, prices) := _getAllPrices exchanges symbol in
           (st, calls ++ if (length prices <? 2)%nat then []
                         else [EmitError DecimalError]).
Proof.
  intros st symbol now. unfold _checkHedgeOpportunity.
  destruct (emergencyStop st); [reflexivity|].
  destruct (_getAllPrices exchanges symbol) as [calls prices].
  unfold _findBestHedgeOpportunity.
  destruct (length prices <? 2)%nat eqn:E; [now rewrite app_nil_r|].
  destruct prices as [|entry prices]; [discriminate|].
  cbn [fold_left].
  destruct (bestStep_some (None, None) entry) as (a & b & Hs); [now right|].
  destruct (fold_bestStep_some prices (bestStep (None, None) entry)) as (a' & b' & Hf);
    [eauto|].
  rewrite Hf. destruct a', b'. reflexivity.
Qed.

Variable minHedgeSpread : option Decimal.t.

Lemma fold_bestStep_bounds entries :
  forall emax hi emin lo,
    Forall (fun e => Decimal.is_finite e.2 = true) entries ->
    exists emax' hi' emin' lo',
      fold_left bestStep entries (Some (emax, Decimal.Fin hi), Some (emin, Decimal.Fin lo))
      = (Some (emax', Decimal.Fin hi'), Some (emin', Decimal.Fin lo'))
      /\ (hi <= hi')%Q /\ (lo' <= lo)%Q
      /\ ((emax', Decimal.Fin hi') = (emax, Decimal.Fin hi)
          \/ (emax', Decimal.Fin hi') ∈ entries)
      /\ ((emin', Decimal.Fin lo') = (emin, Decimal.Fin lo)
          \/ (emin', Decimal.Fin lo') ∈ entries)
      /\ (forall n p, (n, Decimal.Fin p) ∈ entries -> (lo' <= p)%Q /\ (p <= hi')%Q).
Proof.
  induction entries as [|[name price] entries IH]; intros emax hi emin lo Hfin;
    cbn [fold_left].
  - exists emax, hi, emin, lo. repeat split; try apply Qle_refl; auto.
    all: intros; exfalso; eapply not_elem_of_nil; eauto.
  - apply Forall_cons in Hfin as [Hp Hfin]. cbn [snd] in Hp.
    destruct price as [| |p]; try discriminate. cbn [bestStep].
    destruct (Decimal.gt (Decimal.Fin p) (Decimal.Fin hi)) eqn:Eg;
      destruct (Decimal.lt (Decimal.Fin p) (Decimal.Fin lo)) eqn:El.
    all: try (apply Decimal_gt_fin in Eg).
    all: try (apply Decimal_lt_fin in El).
    all: try (assert (Eg' : (p <= hi)%Q)
                by (apply Qnot_lt_le; intros C; apply Decimal_gt_fin in C; congruence)).
    all: try (assert (El' : (lo <= p)%Q)
                by (apply Qnot_lt_le; intros C; apply Decimal_lt_fin in C; congruence)).
    all: match goal with
         | |- context [fold_left bestStep _ (Some (?a, Decimal.Fin ?x), Some (?b, Decimal.Fin ?y))] =>
             destruct (IH a x b y Hfin) as (emax' & hi' & emin' & lo' & Hf & H1 & H2 & H3 & H4 & H5)
         end.
    all: exists emax', hi', emin', lo'; split; [exact Hf|].
    all: split; [lra|]. all: split; [lra|].
    all: split;
      [destruct H3 as [H3|H3];
         [first [left; exact H3 | right; rewrite H3; apply list_elem_of_here]
         |right; apply list_elem_of_further; exact H3]|].
    all: split;
      [destruct H4 as [H4|H4];
         [first [left; exact H4 | right; rewrite H4; apply list_elem_of_here]
         |right; apply list_elem_of_further; exact H4]|].
    all: intros n q Hin; apply elem_of_cons in Hin as [Hin|Hin];
      [inversion Hin; subst; split; lra | apply (H5 n q Hin)].
Qed.

(** X15. An opportunity found among finite prices buys at the lowest
    price and sells at the highest: its long and short legs are
    entries of the price table, every price lies between the long and
    the short price, the spread fields are computed from these two,
    and the spread ratio is not below the configured minimum. *)
Theorem findBestHedgeOpportunity_buys_lowest_sells_highest :
  forall symbol prices op,
    Forall (fun e => Decimal.is_finite e.2 = true) prices ->
    _findBestHedgeOpportunity minHedgeSpread symbol prices = Ok (Some op) ->
    op_symbol op = symbol
    /\ (op_longExchange op, op_longPrice op) ∈ prices
    /\ (op_shortExchange op, op_shortPrice op) ∈ prices
    /\ (forall name price, (name, price) ∈ prices ->
          Decimal.lte (op_longPrice op) price = true
          /\ Decimal.lte price (op_shortPrice op) = true)
    /\ op_spread op = Decimal.sub (op_shortPrice op) (op_longPrice op)
    /\ op_spreadRatio op = Decimal.div (op_spread op) (op_longPrice op)
    /\ exists minSpread, minHedgeSpread = Some minSpread
                         /\ Decimal.lt (op_spreadRatio op) minSpread = false.
Proof.
  intros symbol prices op Hfin. unfold _findBestHedgeOpportunity.
  destruct (length prices <? 2)%nat; [discriminate|].
  destruct prices as [|[n0 p0] prices]; [discriminate|].
  pose proof Hfin as Hfin0.
  apply Forall_cons in Hfin as [Hp Hfin]. cbn [snd] in Hp.
  destruct p0 as [| |p0]; try discriminate.
  cbn [fold_left bestStep].
  destruct (fold_bestStep_bounds prices n0 p0 n0 p0 Hfin)
    as (emax & hi & emin & lo & Hf & H1 & H2 & H3 & H4 & H5).
  rewrite Hf.
  destruct minHedgeSpread as [minSpread|]; [|discriminate].
  destruct (Decimal.lt _ minSpread) eqn:El; [discriminate|].
  intros H. inversion H; subst op; clear H. cbn.
  split; [reflexivity|].
  split; [destruct H4 as [H4|H4]; [rewrite H4; apply list_elem_of_here
                                  |apply list_elem_of_further; exact H4]|].
  split; [destruct H3 as [H3|H3]; [rewrite H3; apply list_elem_of_here
                                  |apply list_elem_of_further; exact H3]|].
  split.
  { intros name price Hin.
    assert (Hpf : Decimal.is_finite price = true).
    { rewrite Forall_forall in Hfin0. apply (Hfin0 (name, price) Hin). }
    destruct price as [| |p]; try discriminate.
    rewrite !Decimal_lte_fin.
    apply elem_of_cons in Hin as [Hin|Hin].
    - inversion Hin; subst. split; lra.
    - apply (H5 name p Hin). }
  split; [reflexivity|]. split; [reflexivity|].
  exists minSpread. split; [reflexivity|exact El].
Qed.

(** X16. Orders leave a market update only through the whole chain
    of guards: the update is a ticker, hedging is switched on, the
    emergency stop is off, a minimum spread is configured and the
    table of active hedges exists. *)
Theorem handleMarketUpdate_orders_need_all_guards :
  forall st positions data now,
    existsb isCreateOrder
            (_handleMarketUpdate exchanges minHedgeSpread st positions data now).2 = true ->
    (exists symbol, data = UpdateTicker symbol)
    /\ isHedgingActive st = true
    /\ emergencyStop st = false
    /\ is_Some minHedgeSpread
    /\ is_Some (activeHedges st).
Proof.
  intros st positions data now. unfold _handleMarketUpdate.
  destruct data as [ex sym side size mp|symbol|]; [discriminate| |discriminate].
  destruct (isHedgingActive st); [|discriminate].
  unfold _checkHedgeOpportunity.
  destruct (emergencyStop st); [discriminate|].
  assert (Hcalls : forall calls other,
             calls = (_getAllPrices exchanges symbol).1 ->
             existsb isCreateOrder (calls ++ other) = existsb isCreateOrder other).
  { intros calls other ->. rewrite existsb_app. unfold _getAllPrices. cbn [fst].
    replace (existsb isCreateOrder (map _ exchanges)) with false; [reflexivity|].
    clear. induction exchanges as [|[n e] l IH]; [reflexivity|]. cbn. exact IH. }
  destruct (_getAllPrices exchanges symbol) as [calls prices]. cbn [fst] in Hcalls.
  destruct (_findBestHedgeOpportunity minHedgeSpread symbol prices) as [[op|]|e] eqn:Ef.
  - assert (Hm : is_Some minHedgeSpread).
    { unfold _findBestHedgeOpportunity in Ef.
      destruct (length prices <? 2)%nat; [discriminate|].
      destruct (fold_left bestStep prices (None, None)) as [[[]|] [[]|]]; try discriminate.
      destruct minHedgeSpread; [eauto|discriminate]. }
    unfold _executeHedge.
    destruct (activeHedges st) as [hedges|].
    + intros _. repeat split; eauto.
    + cbn [snd]. rewrite (Hcalls calls _ eq_refl). discriminate.
  - cbn [snd]. rewrite <- (app_nil_r calls), (Hcalls calls _ eq_refl). discriminate.
  - cbn [snd]. rewrite (Hcalls calls _ eq_refl). discriminate.
Qed.

(** X17. A position update writes exactly one cell of the position
    table: afterwards the cell of its exchange and symbol holds the
    reported side, size, mark price and time, or nothing when the
    size is 0, and every other cell reads as before. *)
Theorem updatePositionData_writes_one_cell :
  forall positions exchange symbol side size markPrice now exchange' symbol',
    positionAt (_updatePositionData positions exchange symbol side size markPrice now)
               exchange' symbol'
    = if decide (exchange' = exchange /\ symbol' = symbol)
      then if Decimal.eq size (Decimal.of_Z 0) then None
           else Some {| pd_side := side; pd_size := size;
                        pd_markPrice := markPrice; pd_updatedAt := now |}
      else positionAt positions exchange' symbol'.
Proof.
  intros positions exchange symbol side size markPrice now exchange' symbol'.
  unfold positionAt, _updatePositionData.
  destruct (decide (exchange' = exchange)) as [->|Hne].
  - destruct (decide (symbol' = symbol)) as [->|Hs].
    + rewrite decide_True by auto.
      destruct (Decimal.eq size (Decimal.of_Z 0)).
      * rewrite lookup_insert_eq. apply lookup_delete_eq.
      * rewrite lookup_insert_eq. apply lookup_insert_eq.
    + rewrite decide_False by (intros [_ ?]; contradiction).
      destruct (Decimal.eq size (Decimal.of_Z 0)); rewrite lookup_insert_eq.
      * rewrite lookup_delete_ne by auto.
        destruct (positions !! exchange); [reflexivity|apply lookup_empty].
      * rewrite lookup_insert_ne by auto.
        destruct (positions !! exchange); [reflexivity|apply lookup_empty].
  - rewrite decide_False by (intros [? _]; contradiction).
    destruct (Decimal.eq size (Decimal.of_Z 0)); rewrite lookup_insert_ne by auto;
      reflexivity.
Qed.

End Opportunities.

(** ** Further properties: opening, watching and closing hedges *)

Section HedgeLife.
Import HedgeControls.
Variable config : Config.
Variable exchanges : JsObject.t HedgeExchangeAdapter.

(** X18. Whatever the venues and balances, the orders of one open
    attempt are the two legs of its opportunity at one common size:
    every order is for the opportunity's symbol, a buy on its long
    exchange or a sell on its short exchange, and all carry the same
    quantity. *)
Theorem executeHedge_orders_are_equal_legs :
  forall st opportunity now,
    exists size,
      Forall (legOf opportunity size) (_executeHedge exchanges st opportunity now).1.2.
Proof.
  intros st opportunity now. unfold _executeHedge.
  destruct (activeHedges st) as [hedges|]; [|exists Decimal.NaN; constructor].
  destruct (JsObject.get hedges (hedgeKey opportunity));
    [exists Decimal.NaN; constructor|].
  assert (H : exists size, Forall (legOf opportunity size)
                                  (openHedge exchanges opportunity now).1).
  { unfold openHedge, _calculateHedgeSize, callOn.
    destruct (JsObject.get exchanges (op_longExchange opportunity)) as [exL|];
      [|exists Decimal.NaN; destruct (JsObject.get exchanges _);
        cbn; repeat constructor].
    destruct (JsObject.get exchanges (op_shortExchange opportunity)) as [exS|];
      [|exists Decimal.NaN; cbn; repeat constructor].
    destruct (getAvailableBalance exL) as [bl|e1];
      [|exists Decimal.NaN; destruct (getAvailableBalance exS);
        cbn; repeat constructor].
    destruct (getAvailableBalance exS) as [bs|e2];
      [|exists Decimal.NaN; cbn; repeat constructor].
    exists (hedgeSizeFor opportunity bl bs).
    cbn [promiseAll2 bind ret app fst].
    fold (hedgeSizeFor opportunity bl bs).
    destruct (createOrder exL _ Buy _); [destruct (createOrder exS _ Sell _)|]; cbn;
      repeat constructor. }
  destruct H as [size H]. exists size.
  destruct (openHedge exchanges opportunity now) as [tr [h|e]]; cbn [fst snd] in *;
    apply Forall_app; split; auto; repeat constructor.
Qed.

Lemma closeHedge_body_legs (hedge : Hedge) :
  let symbol := op_symbol (h_opportunity hedge) in
  let longExchange := op_longExchange (h_opportunity hedge) in
  let shortExchange := op_shortExchange (h_opportunity hedge) in
  forall (k : Decimal.t -> Decimal.t -> result Decimal.t),
  let body :=
    (let! _ :=
       promiseAll2
         (callOn exchanges longExchange
            (CallClosePosition longExchange (Some symbol) Sell (h_size hedge))
            (fun ex => closePosition ex (Some symbol) Sell (h_size hedge)))
         (callOn exchanges shortExchange
            (CallClosePosition shortExchange (Some symbol) Buy (h_size hedge))
            (fun ex => closePosition ex (Some symbol) Buy (h_size hedge))) in
     let! longPrice :=
       await1 (callOn exchanges longExchange (CallGetPrice longExchange symbol)
                      (fun ex => getPrice ex symbol)) in
     let! shortPrice :=
       await1 (callOn exchanges shortExchange (CallGetPrice shortExchange symbol)
                      (fun ex => getPrice ex symbol)) in
     ([], k longPrice shortPrice)) in
  (forall e, e ∈ body.1 -> submitsOrder e = true -> closingLeg hedge e)
  /\ (is_Some (JsObject.get exchanges longExchange) ->
      is_Some (JsObject.get exchanges shortExchange) ->
      exists rest,
        body.1 = [CallClosePosition longExchange (Some symbol) Sell (h_size hedge);
                  CallClosePosition shortExchange (Some symbol) Buy (h_size hedge)]
                 ++ rest
        /\ forallb (fun e => negb (submitsOrder e)) rest = true).
Proof.
  intros symbol longExchange shortExchange k body. subst body. unfold callOn.
  assert (Hlegs : forall rest,
            forallb (fun e => negb (submitsOrder e)) rest = true ->
            forall e,
              e ∈ [CallClosePosition longExchange (Some symbol) Sell (h_size hedge);
                   CallClosePosition shortExchange (Some symbol) Buy (h_size hedge)]
                  ++ rest ->
              submitsOrder e = true -> closingLeg hedge e).
  { intros rest Hrest e He Hs. cbn [app] in He.
    apply elem_of_cons in He as [->|He]; [now left|].
    apply elem_of_cons in He as [->|He]; [now right|].
    rewrite forallb_forall in Hrest. apply list_elem_of_In in He.
    specialize (Hrest e He). rewrite Hs in Hrest. discriminate. }
  destruct (JsObject.get exchanges longExchange) as [exL|].
  2:{ split; [|intros [? ?]; discriminate].
      destruct (JsObject.get exchanges shortExchange); cbn;
        intros e He; exfalso; eapply not_elem_of_nil; eauto. }
  destruct (JsObject.get exchanges shortExchange) as [exS|].
  2:{ split; [|intros _ [? ?]; discriminate].
      cbn. intros e He Hs. apply list_elem_of_singleton in He as ->. now left. }
  cbn [promiseAll2].
  assert (Hex : forall (r : result (Order * Order)),
    let body :=
      (let! _ := ([CallClosePosition longExchange (Some symbol) Sell (h_size hedge);
                   CallClosePosition shortExchange (Some symbol) Buy (h_size hedge)], r) in
       let! longPrice := await1 (Some (CallGetPrice longExchange symbol, getPrice exL symbol)) in
       let! shortPrice := await1 (Some (CallGetPrice shortExchange symbol, getPrice exS symbol)) in
       ([], k longPrice shortPrice)) in
    exists rest,
      body.1 = [CallClosePosition longExchange (Some symbol) Sell (h_size hedge);
                CallClosePosition shortExchange (Some symbol) Buy (h_size hedge)] ++ rest
      /\ forallb (fun e => negb (submitsOrder e)) rest = true).
  { intros [orders|e]; cbn [bind await1 fst snd app].
    - destruct (getPrice exL symbol); [destruct (getPrice exS symbol)|];
        cbn; eexists; (split; [reflexivity|reflexivity]).
    - exists []. split; reflexivity. }
  match goal with |- context [bind (_, ?r) _] => destruct (Hex r) as (rest & Hb & Hrest) end.
  cbv zeta in Hb. split.
  - rewrite Hb. apply Hlegs, Hrest.
  - intros _ _. exists rest. split; [exact Hb|exact Hrest].
Qed.

Lemma closeHedge_legs st hedges key reason now hedge :
  JsObject.get hedges key = Some hedge ->
  String.eqb (h_status hedge) "active" = true ->
  let r := _closeHedge exchanges st hedges key reason now in
  (forall e, e ∈ r.2 -> submitsOrder e = true -> closingLeg hedge e)
  /\ (is_Some (JsObject.get exchanges (op_longExchange (h_opportunity hedge))) ->
      is_Some (JsObject.get exchanges (op_shortExchange (h_opportunity hedge))) ->
      exists rest,
        r.2 = [CallClosePosition (op_longExchange (h_opportunity hedge))
                                 (Some (op_symbol (h_opportunity hedge))) Sell (h_size hedge);
               CallClosePosition (op_shortExchange (h_opportunity hedge))
                                 (Some (op_symbol (h_opportunity hedge))) Buy (h_size hedge)]
              ++ rest
        /\ forallb (fun e => negb (submitsOrder e)) rest = true).
Proof.
  intros Hk Ha r. subst r. unfold _closeHedge. rewrite Hk, Ha. cbn [negb].
  pose proof (closeHedge_body_legs hedge (_calculateHedgePnl hedge)) as H.
  cbv zeta in H.
  match goal with |- context [match ?b with (_, _) => _ end] =>
    change b with b in H; destruct b as [tr [pnl|e]] end;
    cbn [fst snd] in *; destruct H as [H1 H2].
  all: split.
  all: try (intros e0 He Hs; apply elem_of_app in He as [He|He];
            [now apply H1|apply list_elem_of_singleton in He as ->; discriminate]).
  all: intros HL HS; destruct (H2 HL HS) as (rest & -> & Hrest);
    eexists (rest ++ [_]); (split; [now rewrite app_assoc|]);
    rewrite forallb_app, Hrest; reflexivity.
Qed.

(** X19. Closing a hedge settles it and books PnL only on success: an
    entry that is not active is left alone without any call; an
    active one ends as closed, with its final PnL added to the total
    PnL, or as close_failed with the total unchanged. The only orders
    placed on the way are the hedge's two closing legs, a sell of its
    size on the long exchange and a buy of its size on the short
    exchange, and both are submitted first whenever both adapters
    exist. *)
Theorem closeHedge_settles_and_books :
  forall st hedges key reason now hedge,
    JsObject.get hedges key = Some hedge ->
    let r := _closeHedge exchanges st hedges key reason now in
    let symbol := op_symbol (h_opportunity hedge) in
    let longExchange := op_longExchange (h_opportunity hedge) in
    let shortExchange := op_shortExchange (h_opportunity hedge) in
    if String.eqb (h_status hedge) "active"
    then ((hedgeStatus r.1 key = Some "closed"%string
           /\ exists pnl closed,
                pnl_total r.1 = Decimal.add (pnl_total st) pnl
                /\ h_finalPnl closed = Some pnl
                /\ h_closeReason closed = Some reason
                /\ last r.2 = Some (EmitHedgeClosed closed))
          \/ (hedgeStatus r.1 key = Some "close_failed"%string
              /\ pnl_total r.1 = pnl_total st
              /\ exists e, last r.2 = Some (EmitHedgeCloseFailed key e)))
         /\ (forall e, e ∈ r.2 -> submitsOrder e = true -> closingLeg hedge e)
         /\ (is_Some (JsObject.get exchanges longExchange) ->
             is_Some (JsObject.get exchanges shortExchange) ->
             exists rest,
               r.2 = [CallClosePosition longExchange (Some symbol) Sell (h_size hedge);
                      CallClosePosition shortExchange (Some symbol) Buy (h_size hedge)]
                     ++ rest
               /\ forallb (fun e => negb (submitsOrder e)) rest = true)
    else r = (st, []).
Proof.
  intros st hedges key reason now hedge Hk r symbol longExchange shortExchange.
  destruct (String.eqb (h_status hedge) "active") eqn:Ha.
  2:{ subst r. unfold _closeHedge. rewrite Hk, Ha. reflexivity. }
  split; [|exact (closeHedge_legs st hedges key reason now hedge Hk Ha)].
  subst r. unfold _closeHedge. rewrite Hk, Ha. cbn [negb].
  match goal with |- context [match ?b with (_, _) => _ end] =>
    destruct b as [tr [pnl|e]] end; cbn [fst snd].
  - left. unfold hedgeStatus. cbn. rewrite JsObject_get_set_eq. split; [reflexivity|].
    eexists pnl, _. split; [reflexivity|].
    assert (G : forall A B C : Prop, C -> (C -> A) -> (C -> B) -> A /\ B /\ C) by tauto.
    apply G; [apply last_snoc|reflexivity..].
  - right. unfold hedgeStatus. cbn. rewrite JsObject_get_set_eq.
    split; [reflexivity|]. split; [reflexivity|]. exists e. apply last_snoc.
Qed.

Lemma fold_monitorHedge_idle now hedges :
  forall acc,
    Forall (fun entry => String.eqb (h_status entry.2) "active" = false) hedges ->
    fold_left (monitorHedge config exchanges now) hedges acc = acc.
Proof.
  induction hedges as [|[key hedge] hedges IH]; intros acc H; cbn [fold_left];
    [reflexivity|].
  apply Forall_cons in H as [Hh H]. cbn [snd] in Hh.
  rewrite <- (IH acc H) at 2. f_equal.
  destruct acc as [st tr]. unfold monitorHedge. now rewrite Hh.
Qed.

(** X21. Inside the reset window the daily-PnL event is latched: over
    any run of ticks that all fall between 00:00 and 00:09, the event
    is emitted once, at the first tick, when the latch was clear, and
    not at all when it was set; it carries the daily PnL of the
    instance at that tick. *)
Theorem dailyPnl_emitted_once_per_window :
  forall ticks st dailyPnlReset,
    Forall (fun tick => inResetWindow tick = true) ticks ->
    (pnlTicks ticks st dailyPnlReset).2
    = if dailyPnlReset then []
      else match ticks with
           | [] => []
           | _ :: _ => [EmitDailyPnl (pnl_daily st)]
           end.
Proof.
  induction ticks as [|[hours minutes] ticks IH]; intros st latch H.
  - cbn. now destruct latch.
  - apply Forall_cons in H as [Hw H]. unfold inResetWindow in Hw. cbn [fst snd] in Hw.
    cbn [pnlTicks]. unfold _updatePnL. rewrite Hw.
    destruct latch; cbn [negb].
    + specialize (IH st true H).
      destruct (pnlTicks ticks st true) as [[st2 latch2] tr2]. cbn [snd] in *. now subst.
    + match goal with |- context [pnlTicks ticks ?s true] =>
        specialize (IH s true H);
        destruct (pnlTicks ticks s true) as [[st2 latch2] tr2] end.
      cbn [snd] in *. now subst.
Qed.

End HedgeLife.

(** ** Watching the active hedges *)

Section Watch.
Import HedgeControls.
Variable config : Config.
Variable exchanges : JsObject.t HedgeExchangeAdapter.
(** The table when the pass starts. *)
Variable hedges0 : JsObject.t Hedge.

Lemma JsObject_get_elem {V} (o : JsObject.t V) k v :
  JsObject.get o k = Some v -> (k, v) ∈ o.
Proof.
  induction o as [|[k' v'] o IH]; cbn [JsObject.get]; [discriminate|].
  destruct (String.eqb k' k) eqn:E.
  - intros H. inversion H; subst. apply String.eqb_eq in E as ->. apply list_elem_of_here.
  - intros H. apply list_elem_of_further. auto.
Qed.

Lemma closingLeg_same (h h0 : Hedge) e :
  h_opportunity h = h_opportunity h0 -> h_size h = h_size h0 ->
  closingLeg h e -> closingLeg h0 e.
Proof. unfold closingLeg. intros -> ->. auto. Qed.

Lemma closeHedge_watch st key reason now :
  (forall k h, JsObject.get (default [] (activeHedges st)) k = Some h ->
     exists h0, (k, h0) ∈ hedges0
                /\ h_opportunity h = h_opportunity h0 /\ h_size h = h_size h0
                /\ (String.eqb (h_status h) "active" = true ->
                    String.eqb (h_status h0) "active" = true)) ->
  let r := _closeHedge exchanges st (default [] (activeHedges st)) key reason now in
  (forall k h, JsObject.get (default [] (activeHedges r.1)) k = Some h ->
     exists h0, (k, h0) ∈ hedges0
                /\ h_opportunity h = h_opportunity h0 /\ h_size h = h_size h0
                /\ (String.eqb (h_status h) "active" = true ->
                    String.eqb (h_status h0) "active" = true))
  /\ (forall e, e ∈ r.2 -> submitsOrder e = true ->
        exists k h0, (k, h0) ∈ hedges0
                     /\ String.eqb (h_status h0) "active" = true /\ closingLeg h0 e).
Proof.
  intros Hinv r.
  destruct (JsObject.get (default [] (activeHedges st)) key) as [hedge|] eqn:Hk.
  2:{ subst r. unfold _closeHedge. rewrite Hk. cbn [fst snd]. split; [exact Hinv|].
      intros e He. exfalso. eapply not_elem_of_nil; eauto. }
  destruct (String.eqb (h_status hedge) "active") eqn:Ha.
  2:{ subst r. unfold _closeHedge. rewrite Hk, Ha. cbn [negb fst snd].
      split; [exact Hinv|]. intros e He. exfalso. eapply not_elem_of_nil; eauto. }
  destruct (Hinv key hedge Hk) as (h0 & Hin0 & Hop & Hsz & Hact).
  split.
  - subst r. unfold _closeHedge. rewrite Hk, Ha. cbn [negb].
    match goal with |- context [match ?b with (_, _) => _ end] =>
      destruct b as [tr [pnl|e]] end; cbn [fst snd].
    all: intros k h Hg; cbn in Hg; destruct (decide (key = k)) as [<-|Hne];
      [rewrite JsObject_get_set_eq in Hg; inversion Hg; subst h; clear Hg;
       exists h0; cbn; repeat split; auto; discriminate
      |rewrite JsObject_get_set_ne in Hg by exact Hne; apply (Hinv k h Hg)].
  - intros e He Hs.
    destruct (closeHedge_legs exchanges st _ key reason now hedge Hk Ha) as [Hl _].
    exists key, h0. split; [exact Hin0|]. split; [auto|].
    apply (closingLeg_same hedge h0 e Hop Hsz). now apply Hl.
Qed.

Lemma monitorHedge_watch now acc entry :
  entry ∈ hedges0 ->
  (forall k h, JsObject.get (default [] (activeHedges acc.1)) k = Some h ->
     exists h0, (k, h0) ∈ hedges0
                /\ h_opportunity h = h_opportunity h0 /\ h_size h = h_size h0
                /\ (String.eqb (h_status h) "active" = true ->
                    String.eqb (h_status h0) "active" = true)) ->
  (forall e, e ∈ acc.2 -> submitsOrder e = true ->
     exists k h0, (k, h0) ∈ hedges0
                  /\ String.eqb (h_status h0) "active" = true /\ closingLeg h0 e) ->
  let r := monitorHedge config exchanges now acc entry in
  (forall k h, JsObject.get (default [] (activeHedges r.1)) k = Some h ->
     exists h0, (k, h0) ∈ hedges0
                /\ h_opportunity h = h_opportunity h0 /\ h_size h = h_size h0
                /\ (String.eqb (h_status h) "active" = true ->
                    String.eqb (h_status h0) "active" = true))
  /\ (forall e, e ∈ r.2 -> submitsOrder e = true ->
        exists k h0, (k, h0) ∈ hedges0
                     /\ String.eqb (h_status h0) "active" = true /\ closingLeg h0 e).
Proof.
  destruct acc as [st tr], entry as [key hedge]. cbn [fst snd].
  intros Hin Hinv Htr. cbv zeta. unfold monitorHedge.
  destruct (String.eqb (h_status hedge) "active") eqn:Ha; cbn [negb];
    [|split; [exact Hinv|exact Htr]].
  assert (Hcalls : forallb (fun e => negb (submitsOrder e))
            (promiseAll2
               (callOn exchanges (op_longExchange (h_opportunity hedge))
                  (CallGetPrice (op_longExchange (h_opportunity hedge))
                                (op_symbol (h_opportunity hedge)))
                  (fun ex => getPrice ex (op_symbol (h_opportunity hedge))))
               (callOn exchanges (op_shortExchange (h_opportunity hedge))
                  (CallGetPrice (op_shortExchange (h_opportunity hedge))
                                (op_symbol (h_opportunity hedge)))
                  (fun ex => getPrice ex (op_symbol (h_opportunity hedge))))).1 = true).
  { unfold callOn.
    destruct (JsObject.get exchanges (op_longExchange _)) as [exL|];
      [|destruct (JsObject.get exchanges (op_shortExchange _)); reflexivity].
    destruct (JsObject.get exchanges (op_shortExchange _)) as [exS|]; reflexivity. }
  destruct (promiseAll2 _ _) as [calls [[longPrice shortPrice]|e]]; cbn [fst snd] in *.
  2:{ split; [exact Hinv|]. intros e0 He Hs. apply elem_of_app in He as [He|He];
        [now apply Htr|].
      rewrite forallb_forall in Hcalls. apply list_elem_of_In in He.
      specialize (Hcalls e0 He). rewrite Hs in Hcalls. discriminate. }
  assert (Hpre : forall e, e ∈ tr ++ calls -> submitsOrder e = true ->
            exists k h0, (k, h0) ∈ hedges0
                         /\ String.eqb (h_status h0) "active" = true /\ closingLeg h0 e).
  { intros e0 He Hs. apply elem_of_app in He as [He|He]; [now apply Htr|].
    rewrite forallb_forall in Hcalls. apply list_elem_of_In in He.
    specialize (Hcalls e0 He). rewrite Hs in Hcalls. discriminate. }
  destruct (Decimal.gte _ _).
  { destruct (closeHedge_watch st key "take_profit" now Hinv) as [H1 H2].
    destruct (_closeHedge _ _ _ _ _ _) as [st' tr']. cbn [fst snd] in *.
    split; [exact H1|]. intros e0 He Hs. rewrite app_assoc in He.
    apply elem_of_app in He as [He|He]; [now apply Hpre|now apply H2]. }
  destruct (Decimal.lte _ _).
  { destruct (closeHedge_watch st key "stop_loss" now Hinv) as [H1 H2].
    destruct (_closeHedge _ _ _ _ _ _) as [st' tr']. cbn [fst snd] in *.
    split; [exact H1|]. intros e0 He Hs. rewrite app_assoc in He.
    apply elem_of_app in He as [He|He]; [now apply Hpre|now apply H2]. }
  destruct (_calculateHedgePnl _ _ _); cbn [fst snd]; [|split; [exact Hinv|exact Hpre]].
  split; [|exact Hpre].
  intros k h Hg. cbn in Hg. destruct (decide (key = k)) as [<-|Hne].
  - rewrite JsObject_get_set_eq in Hg. inversion Hg; subst h; clear Hg.
    exists hedge. cbn. repeat split; auto.
  - rewrite JsObject_get_set_ne in Hg by exact Hne. apply (Hinv k h Hg).
Qed.

Lemma fold_monitorHedge_watch now entries :
  forall acc,
    Forall (fun entry => entry ∈ hedges0) entries ->
    (forall k h, JsObject.get (default [] (activeHedges acc.1)) k = Some h ->
       exists h0, (k, h0) ∈ hedges0
                  /\ h_opportunity h = h_opportunity h0 /\ h_size h = h_size h0
                  /\ (String.eqb (h_status h) "active" = true ->
                      String.eqb (h_status h0) "active" = true)) ->
    (forall e, e ∈ acc.2 -> submitsOrder e = true ->
       exists k h0, (k, h0) ∈ hedges0
                    /\ String.eqb (h_status h0) "active" = true /\ closingLeg h0 e) ->
    forall e, e ∈ (fold_left (monitorHedge config exchanges now) entries acc).2 ->
      submitsOrder e = true ->
      exists k h0, (k, h0) ∈ hedges0
                   /\ String.eqb (h_status h0) "active" = true /\ closingLeg h0 e.
Proof.
  induction entries as [|entry entries IH]; intros acc Hall Hinv Htr; cbn [fold_left];
    [exact Htr|].
  apply Forall_cons in Hall as [Hin Hall].
  destruct (monitorHedge_watch now acc entry Hin Hinv Htr) as [H1 H2].
  apply IH; auto.
Qed.

End Watch.

Section WatchPass.
Import HedgeControls.
Variable config : Config.
Variable exchanges : JsObject.t HedgeExchangeAdapter.

(** X20. A monitoring pass places no order other than the closing
    legs of hedges that were active when it started: every call that
    places an order is the sell on the long exchange or the buy on
    the short exchange, at the hedge's size, of an entry of the table
    whose status was active. When no entry is active the pass makes
    no call and leaves the instance as it was. *)
Theorem monitorActiveHedges_orders_only_close_active :
  forall st now hedges,
    activeHedges st = Some hedges ->
    let r := _monitorActiveHedges config exchanges st now in
    (forall e, e ∈ r.1.2 -> submitsOrder e = true ->
       exists key hedge,
         (key, hedge) ∈ hedges
         /\ String.eqb (h_status hedge) "active" = true
         /\ closingLeg hedge e)
    /\ (Forall (fun entry => String.eqb (h_status entry.2) "active" = false) hedges ->
        r = (st, [], Ok tt)).
Proof.
  intros st now hedges E r. subst r. unfold _monitorActiveHedges. rewrite E. split.
  - pose proof (fold_monitorHedge_watch config exchanges hedges now hedges (st, [])) as H.
    destruct (fold_left _ _ _) as [st' tr]. cbn [fst snd] in *. apply H.
    + apply Forall_forall. auto.
    + rewrite E. cbn [default]. intros k h Hg. exists h.
      split; [now apply JsObject_get_elem|auto].
    + intros e He. exfalso. eapply not_elem_of_nil; eauto.
  - intros Hidle. now rewrite fold_monitorHedge_idle.
Qed.

End WatchPass.

(** ** Further properties: queries on every exchange, closing and rebalancing *)

Section Fleet.
Import HedgeControls.
Variable config : Config.
Variable exchanges : JsObject.t HedgeExchangeAdapter.

Lemma onAllExchanges_result {A} (c : string -> Effect) (f : HedgeExchangeAdapter -> result A) :
  match (onAllExchanges exchanges c f).2 with
  | Ok l => Forall2 (fun entry exchange =>
                       entry.1 = exchange.1 /\ f exchange.2 = Ok entry.2) l exchanges
  | Throw e => exists name ex, (name, ex) ∈ exchanges /\ f ex = Throw e
  end.
Proof.
  unfold onAllExchanges. cbn [snd].
  induction exchanges as [|[name ex] exs IH]; cbn [fold_right]; [constructor|].
  destruct (f ex) as [a|e] eqn:Ef.
  - destruct (fold_right _ _ exs) as [l|e].
    + constructor; [split; [reflexivity|exact Ef]|exact IH].
    + destruct IH as (n' & ex' & Hin & Hf). exists n', ex'.
      split; [now apply list_elem_of_further|exact Hf].
  - exists name, ex. split; [apply list_elem_of_here|exact Ef].
Qed.

Lemma onAllExchanges_shape {A} (c : string -> Effect)
    (f : HedgeExchangeAdapter -> result A) :
  (onAllExchanges exchanges c f).1 = map c (JsObject.keys exchanges)
  /\ match (onAllExchanges exchanges c f).2 with
     | Ok l => JsObject.keys l = JsObject.keys exchanges
               /\ Forall2 (fun entry exchange => f exchange.2 = Ok entry.2) l exchanges
     | Throw e => exists name ex, (name, ex) ∈ exchanges /\ f ex = Throw e
     end.
Proof.
  split.
  - unfold onAllExchanges, JsObject.keys. cbn [fst]. rewrite map_map.
    apply map_ext. now intros [name ex].
  - pose proof (onAllExchanges_result c f) as H.
    destruct (onAllExchanges exchanges c f).2 as [l|e]; [|exact H].
    unfold JsObject.keys. induction H as [|x y l l' [H1 H2] H IH]; [split; constructor|].
    destruct IH as [IH1 IH2]. split; [cbn; congruence|now constructor].
Qed.

(** X22. A query on every exchange is all or nothing: the call goes
    out to each exchange, in their order, whatever the answers; the
    result has exactly one entry per exchange, each holding that
    exchange's answer, or else the whole query is rejected with the
    rejection of one of the exchanges. This is how positions and
    total balances are collected. *)
Theorem onAllExchanges_all_or_nothing :
  forall (A : Type) (c : string -> Effect) (f : HedgeExchangeAdapter -> result A),
    (onAllExchanges exchanges c f).1 = map c (JsObject.keys exchanges)
    /\ match (onAllExchanges exchanges c f).2 with
       | Ok l =>
           JsObject.keys l ≡ₚ JsObject.keys exchanges
           /\ (forall name a, (name, a) ∈ l ->
                 exists ex, (name, ex) ∈ exchanges /\ f ex = Ok a)
           /\ (forall name ex, (name, ex) ∈ exchanges ->
                 exists a, (name, a) ∈ l /\ f ex = Ok a)
       | Throw e => exists name ex, (name, ex) ∈ exchanges /\ f ex = Throw e
       end.
Proof.
  intros A c f. destruct (onAllExchanges_shape c f) as [Hc Hr].
  split; [exact Hc|].
  pose proof (onAllExchanges_result c f) as H.
  destruct (onAllExchanges exchanges c f).2 as [l|e]; [|exact Hr].
  destruct Hr as [Hk _]. split; [now rewrite Hk|].
  clear Hk Hc. induction H as [|[n a] [n' ex] l l' [H1 H2] H IH]; cbn [fst snd] in *.
  - split; intros ? ? Hin; exfalso; eapply not_elem_of_nil; eauto.
  - subst n'. destruct IH as [IH1 IH2]. split.
    + intros name b Hin. apply elem_of_cons in Hin as [Hin|Hin].
      * inversion Hin; subst. exists ex. split; [apply list_elem_of_here|exact H2].
      * destruct (IH1 name b Hin) as (ex' & Hin' & Hf). exists ex'.
        split; [now apply list_elem_of_further|exact Hf].
    + intros name ex0 Hin. apply elem_of_cons in Hin as [Hin|Hin].
      * inversion Hin; subst. exists a. split; [apply list_elem_of_here|exact H2].
      * destruct (IH2 name ex0 Hin) as (b & Hin' & Hf). exists b.
        split; [now apply list_elem_of_further|exact Hf].
Qed.





Lemma closePositionsUntilTarget_sublist positions :
  forall remaining,
    let tr := _closePositionsUntilTarget exchanges positions remaining in
    forallb isClosePosition tr = true
    /\ sublist (omap closeTargetOf tr) (map closeTarget positions).
Proof.
  induction positions as [|pos positions IH]; intros remaining;
    cbn [_closePositionsUntilTarget map].
  - split; [reflexivity|constructor].
  - destruct (Decimal.lte remaining (Decimal.of_Z 0)).
    { split; [reflexivity|apply sublist_nil_l]. }
    destruct (JsObject.get exchanges (fp_exchange pos)) as [ex|].
    + destruct (closePosition ex _ _ _);
        match goal with |- context [_closePositionsUntilTarget exchanges positions ?r] =>
          destruct (IH r) as [H1 H2] end.
      all: cbv zeta; cbn [forallb isClosePosition andb omap list_omap closeTargetOf].
      all: split; [exact H1|].
      all: unfold closeTarget at 1, oppositeSide; apply sublist_skip; exact H2.
    + destruct (IH remaining) as [H1 H2]. split; [exact H1|].
      apply sublist_cons. exact H2.
Qed.

(** X24. De-risking closes, never opens, and stops at the target: the
    calls of [_closePositionsUntilTarget] are closes only, each on
    the opposite side of one of the given positions and in their
    order, and nothing at all is closed when the amount to reduce is
    zero or negative. *)
Theorem closePositionsUntilTarget_closes_in_order :
  forall positions remaining,
    let tr := _closePositionsUntilTarget exchanges positions remaining in
    forallb isClosePosition tr = true
    /\ sublist (omap closeTargetOf tr) (map closeTarget positions)
    /\ (Decimal.lte remaining (Decimal.of_Z 0) = true -> tr = []).
Proof.
  intros positions remaining tr.
  destruct (closePositionsUntilTarget_sublist positions remaining) as [H1 H2].
  split; [exact H1|]. split; [exact H2|].
  intros H. subst tr. destruct positions; cbn [_closePositionsUntilTarget]; [reflexivity|].
  now rewrite H.
Qed.

(** X25. Every transfer planned by a rebalance goes from an exchange
    whose balance is off the per-exchange target by at least the
    threshold to a different exchange whose balance is below the
    target, for the smaller of the sender's difference and the
    recipient's shortfall. *)
Theorem plannedTransfers_go_to_underfunded :
  forall balances total t,
    t ∈ plannedTransfers config balances total ->
    let target := Decimal.div total (countOf balances) in
    tr_from t <> tr_to t
    /\ exists balance recipientBalance,
         (tr_from t, balance) ∈ balances
         /\ (tr_to t, recipientBalance) ∈ balances
         /\ Decimal.lt (Decimal.div (Decimal.abs (Decimal.sub balance target)) total)
                       (rebalanceThreshold config) = false
         /\ Decimal.lt recipientBalance target = true
         /\ tr_amount t = Decimal.min (Decimal.sub balance target)
                                      (Decimal.sub target recipientBalance).
Proof.
  intros balances total t Hin target. unfold plannedTransfers in Hin. fold target in Hin.
  apply list_elem_of_omap in Hin as ([name balance] & Hb & Ht).
  destruct (Decimal.lt _ (rebalanceThreshold config)) eqn:El; [discriminate|].
  destruct (List.find _ balances) as [[recipient recipientBalance]|] eqn:Ef; [|discriminate].
  destruct (String.eqb recipient ""); [discriminate|].
  inversion Ht; subst t; clear Ht. cbn [tr_from tr_to tr_amount].
  apply find_some in Ef as [Hr Hc]. apply andb_true_iff in Hc as [Hne Hlt].
  split.
  { intros E. rewrite E, String.eqb_refl in Hne. discriminate. }
  exists balance, recipientBalance.
  split; [exact Hb|]. split; [now apply list_elem_of_In|]. auto.
Qed.

End Fleet.

Section Rebalance.
Import HedgeControls.
Variable config : Config.
Variable exchanges : JsObject.t HedgeExchangeAdapter.

Lemma transferAssetOf_nonempty transferAsset : transferAssetOf transferAsset <> ""%string.
Proof.
  unfold transferAssetOf. destruct transferAsset as [a|]; [|discriminate].
  destruct (String.eqb a "") eqn:E; [discriminate|].
  intros ->. discriminate.
Qed.

Lemma elem_of_keys {V} (o : JsObject.t V) k v : (k, v) ∈ o -> k ∈ JsObject.keys o.
Proof.
  intros H. unfold JsObject.keys. apply list_elem_of_fmap. exists (k, v). auto.
Qed.

Lemma plannedTransfers_endpoints balances total t :
  t ∈ plannedTransfers config balances total ->
  tr_from t <> tr_to t
  /\ tr_from t ∈ JsObject.keys balances
  /\ tr_to t ∈ JsObject.keys balances.
Proof.
  intros Hin. unfold plannedTransfers in Hin.
  apply list_elem_of_omap in Hin as ([name balance] & Hb & Ht).
  destruct (Decimal.lt _ (rebalanceThreshold config)); [discriminate|].
  destruct (List.find _ balances) as [[recipient recipientBalance]|] eqn:Ef; [|discriminate].
  destruct (String.eqb recipient ""); [discriminate|].
  inversion Ht; subst t; clear Ht. cbn [tr_from tr_to].
  apply find_some in Ef as [Hr Hc]. apply andb_true_iff in Hc as [Hne _].
  split.
  { intros E. rewrite E, String.eqb_refl in Hne. discriminate. }
  split; [eapply elem_of_keys; eauto|].
  eapply elem_of_keys. apply list_elem_of_In. eauto.
Qed.

(** X26. A rebalance check asks every exchange for its total balance
    and only then, if at all, issues transfers: each transfer goes
    between two different configured exchanges in a non-empty asset,
    and no transfer is issued when a balance query is rejected. *)
Theorem checkRebalance_queries_then_transfers :
  forall transferAsset,
    let r := _checkRebalance config exchanges transferAsset in
    exists transfers,
      r.1 = map QueryTotalBalance (JsObject.keys exchanges) ++ transfers
      /\ Forall (fun e => match e with
                          | CallTransferTo from to _ asset =>
                              from <> to
                              /\ from ∈ JsObject.keys exchanges
                              /\ to ∈ JsObject.keys exchanges
                              /\ asset <> ""%string
                          | _ => False
                          end) transfers
      /\ (r.2 <> Ok tt -> transfers = []).
Proof.
  intros transferAsset r. subst r. unfold _checkRebalance, _getExchangeBalances.
  assert (Hq : map (fun '(name, _) => QueryTotalBalance name) exchanges
               = map QueryTotalBalance (JsObject.keys exchanges)).
  { unfold JsObject.keys. rewrite map_map. apply map_ext. now intros [name ex]. }
  rewrite Hq.
  destruct (onAllExchanges_shape exchanges CallGetTotalBalance getTotalBalance) as [_ Hr].
  destruct (onAllExchanges exchanges CallGetTotalBalance getTotalBalance).2
    as [balances|e].
  - destruct Hr as [Hk _].
    destruct (0 <? length (needsRebalance config balances))%nat.
    + exists (_performRebalance config transferAsset balances (totalOf balances)).
      split; [reflexivity|]. split; [|intros H; now contradiction H].
      unfold _performRebalance. apply Forall_forall. intros e He.
      apply list_elem_of_fmap in He as (t & -> & Ht).
      destruct (plannedTransfers_endpoints balances (totalOf balances) t Ht)
        as (Hne & Hfrom & Hto).
      split; [exact Hne|]. rewrite <- Hk.
      split; [exact Hfrom|]. split; [exact Hto|].
      apply transferAssetOf_nonempty.
    + exists []. rewrite app_nil_r. split; [reflexivity|]. split; [constructor|auto].
  - exists []. rewrite app_nil_r. split; [reflexivity|]. split; [constructor|auto].
Qed.

End Rebalance.

(** ** Instances of the properties above *)

Lemma processRates_keeps_latest_agreement_witness :
  FundingRateMonitor.latestAgrees
    (FundingRateMonitor._processRates Scenario.autoHedgeConfig FundingRateMonitor.initial
       "X" 0 [Scenario.rateInfo (Decimal.dec 1 3)]).1
  /\ FundingRateMonitor.latestAgrees FundingRateMonitor.initial.
Proof.
  apply (processRates_keeps_latest_agreement Scenario.autoHedgeConfig
           FundingRateMonitor.initial "X" 0 [Scenario.rateInfo (Decimal.dec 1 3)]).
  intros exchange symbol e He. discriminate.
Defined.

Lemma checkHedging_never_monitors_witness :
  FundingRateMonitor._checkHedging FundingRateMonitor.initial = []
  /\ forallb (fun e => negb (FundingRateMonitor.isMonitorHedgePosition e))
             (FundingRateMonitor._processRates Scenario.autoHedgeConfig
                FundingRateMonitor.initial "X" 0 [Scenario.rateInfo (Decimal.dec 2 3)]).2
     = true
  /\ FundingRateMonitor.noOpenedString
       (FundingRateMonitor._processRates Scenario.autoHedgeConfig
          FundingRateMonitor.initial "X" 0 [Scenario.rateInfo (Decimal.dec 2 3)]).1
  /\ FundingRateMonitor.noOpenedString
       (FundingRateMonitor._executeHedge Scenario.monExchanges FundingRateMonitor.initial
          "BTCUSDT" "X" "Y" 0).1
  /\ FundingRateMonitor.noOpenedString
       (FundingRateMonitor._checkArbitrageOpportunities Scenario.autoHedgeConfig
          Scenario.monExchanges FundingRateMonitor.initial 0).1
  /\ FundingRateMonitor.noOpenedString FundingRateMonitor.initial.
Proof.
  apply (checkHedging_never_monitors Scenario.autoHedgeConfig Scenario.monExchanges
           FundingRateMonitor.initial "X" 0 [Scenario.rateInfo (Decimal.dec 2 3)]
           "BTCUSDT" "X" "Y").
  intros key. cbn. rewrite lookup_empty. discriminate.
Defined.

Lemma emergencyStop_never_cleared_witness :
  HedgeControls.emergencyStop
    (HedgeControls.startHedging
       (HedgeControls.emergencyShutdown Scenario.hcExchanges HedgeControls.constructor).1).1
  = true.
Proof.
  apply (emergencyStop_never_cleared HedgeControls.defaultConfig Scenario.hcExchanges None
           (HedgeControls.emergencyShutdown Scenario.hcExchanges HedgeControls.constructor).1).
  - apply rtc_once. apply HedgeControls.step_startHedging.
  - reflexivity.
Defined.

Lemma pnl_daily_never_accumulated_witness :
  let st' := (HedgeControls.emergencyShutdown Scenario.hcExchanges
                (HedgeControls.startHedging HedgeControls.constructor).1).1 in
  (HedgeControls.pnl_daily st' = HedgeControls.pnl_daily HedgeControls.constructor
   \/ HedgeControls.pnl_daily st' = Decimal.of_Z 0)
  /\ (HedgeControls.constructor = HedgeControls.constructor ->
      HedgeControls.pnl_daily st' = Decimal.of_Z 0).
Proof.
  apply (pnl_daily_never_accumulated HedgeControls.defaultConfig Scenario.hcExchanges None
           HedgeControls.constructor).
  eapply rtc_l; [apply HedgeControls.step_startHedging|].
  apply rtc_once. apply HedgeControls.step_emergencyShutdown.
Defined.

Lemma findBestHedgeOpportunity_buys_lowest_sells_highest_witness :
  let prices := [("X"%string, Decimal.of_Z 100); ("Y"%string, Decimal.of_Z 101)] in
  let op :=
    {| HedgeControls.op_symbol := "BTCUSDT";
       HedgeControls.op_longExchange := "X";
       HedgeControls.op_longPrice := Decimal.of_Z 100;
       HedgeControls.op_shortExchange := "Y";
       HedgeControls.op_shortPrice := Decimal.of_Z 101;
       HedgeControls.op_spread := Decimal.sub (Decimal.of_Z 101) (Decimal.of_Z 100);
       HedgeControls.op_spreadRatio :=
         Decimal.div (Decimal.sub (Decimal.of_Z 101) (Decimal.of_Z 100))
                     (Decimal.of_Z 100) |} in
  HedgeControls.op_symbol op = "BTCUSDT"%string
  /\ (HedgeControls.op_longExchange op, HedgeControls.op_longPrice op) ∈ prices
  /\ (HedgeControls.op_shortExchange op, HedgeControls.op_shortPrice op) ∈ prices
  /\ (forall name price, (name, price) ∈ prices ->
        Decimal.lte (HedgeControls.op_longPrice op) price = true
        /\ Decimal.lte price (HedgeControls.op_shortPrice op) = true)
  /\ HedgeControls.op_spread op
     = Decimal.sub (HedgeControls.op_shortPrice op) (HedgeControls.op_longPrice op)
  /\ HedgeControls.op_spreadRatio op
     = Decimal.div (HedgeControls.op_spread op) (HedgeControls.op_longPrice op)
  /\ exists minSpread, Some (Decimal.dec 1 3) = Some minSpread
                       /\ Decimal.lt (HedgeControls.op_spreadRatio op) minSpread = false.
Proof.
  intros prices op.
  apply (findBestHedgeOpportunity_buys_lowest_sells_highest (Some (Decimal.dec 1 3))
           "BTCUSDT" prices op).
  - repeat constructor.
  - vm_compute. reflexivity.
Defined.

Lemma handleMarketUpdate_orders_need_all_guards_witness :
  let st := HedgeControls.with_isHedgingActive Scenario.hcWithTable true in
  (exists symbol, HedgeControls.UpdateTicker "BTCUSDT" = HedgeControls.UpdateTicker symbol)
  /\ HedgeControls.isHedgingActive st = true
  /\ HedgeControls.emergencyStop st = false
  /\ is_Some (Some (Decimal.of_Z 0))
  /\ is_Some (HedgeControls.activeHedges st).
Proof.
  intros st.
  apply (handleMarketUpdate_orders_need_all_guards Scenario.hcExchanges
           (Some (Decimal.of_Z 0)) st ∅ (HedgeControls.UpdateTicker "BTCUSDT") 0).
  vm_compute. reflexivity.
Defined.

Lemma closeHedge_settles_and_books_witness :
  let hedge :=
    {| HedgeControls.h_opportunity := Scenario.opportunity;
       HedgeControls.h_status := "active";
       HedgeControls.h_longOrder := None; HedgeControls.h_shortOrder := None;
       HedgeControls.h_size := Some (Decimal.of_Z 1);
       HedgeControls.h_entryTime := Some 0;
       HedgeControls.h_currentSpread := None; HedgeControls.h_currentRatio := None;
       HedgeControls.h_pnl := None; HedgeControls.h_exitTime := None;
       HedgeControls.h_closeReason := None; HedgeControls.h_finalPnl := None |} in
  let key := HedgeControls.hedgeKey Scenario.opportunity in
  let st := HedgeControls.with_activeHedges HedgeControls.constructor [(key, hedge)] in
  let r := HedgeControls._closeHedge Scenario.hcExchanges st [(key, hedge)] key
             "take_profit" 1 in
  let symbol := HedgeControls.op_symbol (HedgeControls.h_opportunity hedge) in
  let longExchange := HedgeControls.op_longExchange (HedgeControls.h_opportunity hedge) in
  let shortExchange := HedgeControls.op_shortExchange (HedgeControls.h_opportunity hedge) in
  if String.eqb (HedgeControls.h_status hedge) "active"
  then ((HedgeControls.hedgeStatus r.1 key = Some "closed"%string
         /\ exists pnl closed,
              HedgeControls.pnl_total r.1 = Decimal.add (HedgeControls.pnl_total st) pnl
              /\ HedgeControls.h_finalPnl closed = Some pnl
              /\ HedgeControls.h_closeReason closed = Some "take_profit"%string
              /\ last r.2 = Some (HedgeControls.EmitHedgeClosed closed))
        \/ (HedgeControls.hedgeStatus r.1 key = Some "close_failed"%string
            /\ HedgeControls.pnl_total r.1 = HedgeControls.pnl_total st
            /\ exists e, last r.2 = Some (HedgeControls.EmitHedgeCloseFailed key e)))
       /\ (forall e, e ∈ r.2 -> HedgeControls.submitsOrder e = true ->
             HedgeControls.closingLeg hedge e)
       /\ (is_Some (JsObject.get Scenario.hcExchanges longExchange) ->
           is_Some (JsObject.get Scenario.hcExchanges shortExchange) ->
           exists rest,
             r.2 = [HedgeControls.CallClosePosition longExchange (Some symbol) Sell
                      (HedgeControls.h_size hedge);
                    HedgeControls.CallClosePosition shortExchange (Some symbol) Buy
                      (HedgeControls.h_size hedge)]
                   ++ rest
             /\ forallb (fun e => negb (HedgeControls.submitsOrder e)) rest = true)
  else r = (st, []).
Proof.
  intros hedge key st r.
  apply (closeHedge_settles_and_books Scenario.hcExchanges st [(key, hedge)] key
           "take_profit" 1 hedge).
  vm_compute. reflexivity.
Defined.

Lemma monitorActiveHedges_orders_only_close_active_witness :
  let opportunity :=
    {| HedgeControls.op_symbol := "BTCUSDT";
       HedgeControls.op_longExchange := "X";
       HedgeControls.op_longPrice := Decimal.of_Z 50000;
       HedgeControls.op_shortExchange := "Y";
       HedgeControls.op_shortPrice := Decimal.of_Z 100000;
       HedgeControls.op_spread := Decimal.of_Z 50000;
       HedgeControls.op_spreadRatio := Decimal.of_Z 1 |} in
  let hedge :=
    {| HedgeControls.h_opportunity := opportunity;
       HedgeControls.h_status := "active";
       HedgeControls.h_longOrder := None; HedgeControls.h_shortOrder := None;
       HedgeControls.h_size := Some (Decimal.of_Z 1);
       HedgeControls.h_entryTime := Some 0;
       HedgeControls.h_currentSpread := None; HedgeControls.h_currentRatio := None;
       HedgeControls.h_pnl := None; HedgeControls.h_exitTime := None;
       HedgeControls.h_closeReason := None; HedgeControls.h_finalPnl := None |} in
  let hedges := [(HedgeControls.hedgeKey opportunity, hedge)] in
  let st := HedgeControls.with_activeHedges HedgeControls.constructor hedges in
  let r := HedgeControls._monitorActiveHedges HedgeControls.defaultConfig
             Scenario.hcExchanges st 1 in
  ((forall e, e ∈ r.1.2 -> HedgeControls.submitsOrder e = true ->
      exists key hedge',
        (key, hedge') ∈ hedges
        /\ String.eqb (HedgeControls.h_status hedge') "active" = true
        /\ HedgeControls.closingLeg hedge' e)
   /\ (Forall (fun entry => String.eqb (HedgeControls.h_status entry.2) "active" = false)
              hedges ->
       r = (st, [], Ok tt)))
  /\ existsb HedgeControls.submitsOrder r.1.2 = true.
Proof.
  intros opportunity hedge hedges st r. split.
  - apply (monitorActiveHedges_orders_only_close_active HedgeControls.defaultConfig
             Scenario.hcExchanges st 1 hedges).
    reflexivity.
  - vm_compute. reflexivity.
Defined.

Lemma dailyPnl_emitted_once_per_window_witness :
  (HedgeControls.pnlTicks [(0, 1); (0, 5)] HedgeControls.constructor false).2
  = [HedgeControls.EmitDailyPnl (HedgeControls.pnl_daily HedgeControls.constructor)].
Proof.
  apply (dailyPnl_emitted_once_per_window [(0, 1); (0, 5)] HedgeControls.constructor false).
  repeat constructor.
Defined.

Lemma plannedTransfers_go_to_underfunded_witness :
  let balances := [("X"%string, Decimal.of_Z 1500); ("Y"%string, Decimal.of_Z 500)] in
  let total := Decimal.of_Z 2000 in
  let target := Decimal.div total (HedgeControls.countOf balances) in
  let t := {| HedgeControls.tr_from := "X"; HedgeControls.tr_to := "Y";
              HedgeControls.tr_amount :=
                Decimal.min (Decimal.sub (Decimal.of_Z 1500) target)
                            (Decimal.sub target (Decimal.of_Z 500)) |} in
  HedgeControls.tr_from t <> HedgeControls.tr_to t
  /\ exists balance recipientBalance,
       (HedgeControls.tr_from t, balance) ∈ balances
       /\ (HedgeControls.tr_to t, recipientBalance) ∈ balances
       /\ Decimal.lt (Decimal.div (Decimal.abs (Decimal.sub balance target)) total)
                     (HedgeControls.rebalanceThreshold HedgeControls.defaultConfig) = false
       /\ Decimal.lt recipientBalance target = true
       /\ HedgeControls.tr_amount t
          = Decimal.min (Decimal.sub balance target) (Decimal.sub target recipientBalance).
Proof.
  intros balances total target t.
  apply (plannedTransfers_go_to_underfunded HedgeControls.defaultConfig balances total t).
  vm_compute. constructor.
Defined.
